(** * songwalker-library: the preset Converter and the Indexer

    A shallow embedding of [scripts/convert-webaudiofontdata.mjs] and
    [scripts/generate-index.js], and the properties the library's
    specification states about them.

    Conventions of the embedding.
    - JavaScript strings are [string]s; one [ascii] stands for one code unit
      (the scripts only ever inspect ASCII characters).
    - JavaScript numbers that the scripts handle are integers (MIDI notes,
      cents, sample offsets, counters) and are modelled in [Z]; a field that
      is absent (or [null]) in a JSON object is [None].
    - Module-level mutable state ([audioHashes], [totalDedupSaved]) and the
      file system are threaded explicitly. The Converter only writes: its
      file system is the sequence of the directories it creates and the
      files it writes. The Indexer walks a tree and writes into it: its file
      system is a tree of directory listings.
    - A document written with [JSON.stringify] is kept as the value that is
      serialised; a file read with [JSON.parse] is the value it parses to,
      or a mark that parsing throws.
    - Messages printed to the console are left out. *)

From Stdlib Require Import ZArith List Ascii String Bool Lia DecimalString Sorted
  OrderedTypeEx.
From stdpp Require Import base option list gmap strings.

Local Open Scope Z_scope.

(** ** JavaScript primitives used by both scripts *)

Module Js.

(** [x || d] on an integer-or-absent field: [undefined], [null] and [0]
    are falsy. *)
Definition or_default (x : option Z) (d : Z) : Z :=
  match x with
  | Some v => if v =? 0 then d else v
  | None => d
  end.

(** [x ?? d]: only [undefined] and [null] select the default. *)
Definition nullish_default (x : option Z) (d : Z) : Z :=
  match x with
  | Some v => v
  | None => d
  end.

(** [s || t] on a string-or-absent field: the empty string is falsy. *)
Definition truthy_string (x : option string) : option string :=
  match x with
  | Some EmptyString => None
  | other => other
  end.

(** Template-literal rendering of an integer: [`${n}`]. *)
Definition show (n : Z) : string := NilEmpty.string_of_int (Z.to_int n).

Definition code (c : ascii) : Z := Z.of_nat (nat_of_ascii c).

Definition is_digit (c : ascii) : bool := (48 <=? code c) && (code c <=? 57).
Definition is_upper (c : ascii) : bool := (65 <=? code c) && (code c <=? 90).
Definition is_lower (c : ascii) : bool := (97 <=? code c) && (code c <=? 122).
Definition is_alnum (c : ascii) : bool := is_digit c || is_upper c || is_lower c.

(** [\s] restricted to the code units below 128: space, TAB, LF, VT, FF, CR. *)
Definition is_space (c : ascii) : bool :=
  (code c =? 32) || ((9 <=? code c) && (code c <=? 13)).

(** The characters the regular-expression dot does not match. *)
Definition is_line_terminator (c : ascii) : bool :=
  (code c =? 10) || (code c =? 13).

(** [parseInt] on a string of decimal digits. *)
Fixpoint parseInt_acc (acc : Z) (s : string) : Z :=
  match s with
  | EmptyString => acc
  | String c s' => parseInt_acc (10 * acc + (code c - 48)) s'
  end.
Definition parseInt (s : string) : Z := parseInt_acc 0 s.

Fixpoint string_filter (p : ascii -> bool) (s : string) : string :=
  match s with
  | EmptyString => EmptyString
  | String c s' => if p c then String c (string_filter p s') else string_filter p s'
  end.

Fixpoint string_map (f : ascii -> ascii) (s : string) : string :=
  match s with
  | EmptyString => EmptyString
  | String c s' => String (f c) (string_map f s')
  end.

Fixpoint string_forallb (p : ascii -> bool) (s : string) : bool :=
  match s with
  | EmptyString => true
  | String c s' => p c && string_forallb p s'
  end.

(** [s.replace(/\s+/g, r)]: every maximal run of white space becomes [r].
    [in_run] tells whether the previous character was white space. *)
Fixpoint collapse_spaces (r : string) (in_run : bool) (s : string) : string :=
  match s with
  | EmptyString => EmptyString
  | String c s' =>
      if is_space c
      then (if in_run then collapse_spaces r true s'
            else r +:+ collapse_spaces r true s')
      else String c (collapse_spaces r false s')
  end.

(** [s.split(sep)[0]] for a one-character separator. *)
Fixpoint before_first (sep : ascii) (s : string) : string :=
  match s with
  | EmptyString => EmptyString
  | String c s' => if Ascii.eqb c sep then EmptyString else String c (before_first sep s')
  end.

Fixpoint trim_start (s : string) : string :=
  match s with
  | EmptyString => EmptyString
  | String c s' => if is_space c then trim_start s' else s
  end.

(** the string without its trailing white space *)
Fixpoint trim_end (s : string) : string :=
  match s with
  | EmptyString => EmptyString
  | String c s' =>
      match trim_end s' with
      | EmptyString => if is_space c then EmptyString else String c EmptyString
      | t => String c t
      end
  end.

Definition trim (s : string) : string := trim_end (trim_start s).

(** The value of a digit in a radix up to 36, as [parseInt] reads it. *)
Definition digit_value (radix : Z) (c : ascii) : option Z :=
  let v := if is_digit c then code c - 48
           else if is_lower c then code c - 87
           else if is_upper c then code c - 55
           else radix in
  if v <? radix then Some v else None.

(** The longest run of digits at the head of a text; [acc] is [None] until
    a digit is read. *)
Fixpoint read_digits (radix : Z) (acc : option Z) (s : string) : option Z :=
  match s with
  | EmptyString => acc
  | String c s' =>
      match digit_value radix c with
      | Some v => read_digits radix (Some (radix * default 0 acc + v)) s'
      | None => acc
      end
  end.

(** [parseInt(text)] without a radix, on any text: leading white space is
    dropped, then come an optional sign, an optional [0x] or [0X] that
    selects the radix 16, and the longest run of digits; what follows is
    ignored. [None] is [NaN]: no digit was read. *)
Definition parseInt_text (s : string) : option Z :=
  let s1 := trim_start s in
  let signed := match s1 with
                | String c r =>
                    if Ascii.eqb c "-" then (-1, r)
                    else if Ascii.eqb c "+" then (1, r) else (1, s1)
                | EmptyString => (1, s1)
                end in
  let based := match snd signed with
               | String z (String x r) =>
                   if Ascii.eqb z "0" && (Ascii.eqb x "x" || Ascii.eqb x "X")
                   then (16, r) else (10, snd signed)
               | _ => (10, snd signed)
               end in
  option_map (Z.mul (fst signed)) (read_digits (fst based) None (snd based)).

(** [s.replace(pat, r)] with a string pattern: the first occurrence only. *)
Fixpoint replace_first (pat r : string) (s : string) : string :=
  if String.prefix pat s
  then r +:+ substring (String.length pat) (String.length s - String.length pat) s
  else match s with
       | EmptyString => EmptyString
       | String c s' => String c (replace_first pat r s')
       end.

(** [s.endsWith(suffix)] *)
Definition endsWith (s suffix : string) : bool :=
  let n := String.length s in
  let m := String.length suffix in
  (m <=? n)%nat && String.eqb (substring (n - m) m s) suffix.

(** [l.join(sep)] *)
Fixpoint join_with (sep : string) (l : list string) : string :=
  match l with
  | [] => EmptyString
  | [x] => x
  | x :: rest => x +:+ sep +:+ join_with sep rest
  end.

(** [s.split(sep)] for a one-character separator; [cur] is the piece
    being read. The result is never empty. *)
Fixpoint split_on (sep : ascii) (cur : string) (s : string) : list string :=
  match s with
  | EmptyString => [cur]
  | String c s' =>
      if Ascii.eqb c sep then cur :: split_on sep EmptyString s'
      else split_on sep (cur +:+ String c EmptyString) s'
  end.

(** Insertion into a list kept in order: [x] goes before the first
    element that is not smaller than it. Folding from the right, an
    element therefore lands before the later elements it ties with, which
    makes [sort_by] stable, as [Array.prototype.sort] is. *)
Fixpoint insert_by {A} (lt : A -> A -> bool) (x : A) (l : list A) : list A :=
  match l with
  | [] => [x]
  | y :: l' => if lt y x then y :: insert_by lt x l' else x :: l
  end.

Definition sort_by {A} (lt : A -> A -> bool) (l : list A) : list A :=
  fold_right (insert_by lt) [] l.

(** the code units of a string, as bytes *)
Definition bytes (s : string) : list Z := map code (list_ascii_of_string s).

(** [names.sort()]: the default order compares code units. *)
Definition sort_strings (l : list string) : list string :=
  sort_by String.ltb l.

End Js.

(** ** [Buffer.from(text, 'base64')] *)

Module Base64.

(** Node's decoding table: both the standard and the URL-safe alphabet. *)
Definition unbase64 (c : ascii) : option Z :=
  let n := Js.code c in
  if Js.is_upper c then Some (n - 65)
  else if Js.is_lower c then Some (n - 71)
  else if Js.is_digit c then Some (n + 4)
  else if (n =? 43) || (n =? 45) then Some 62
  else if (n =? 47) || (n =? 95) then Some 63
  else None.

(** The six-bit values of the text: characters outside the alphabet are
    skipped and the first [=] ends the decoding. *)
Fixpoint sextets (s : string) : list Z :=
  match s with
  | EmptyString => []
  | String c s' =>
      match unbase64 c with
      | Some v => v :: sextets s'
      | None => if Js.code c =? 61 then [] else sextets s'
      end
  end.

Fixpoint bytes_of_sextets (l : list Z) : list Z :=
  match l with
  | a :: b :: c :: d :: rest =>
      Z.lor (Z.shiftl a 2) (Z.shiftr b 4)
      :: Z.lor (Z.shiftl (Z.land b 15) 4) (Z.shiftr c 2)
      :: Z.lor (Z.shiftl (Z.land c 3) 6) d
      :: bytes_of_sextets rest
  | [a; b; c] =>
      [Z.lor (Z.shiftl a 2) (Z.shiftr b 4);
       Z.lor (Z.shiftl (Z.land b 15) 4) (Z.shiftr c 2)]
  | [a; b] => [Z.lor (Z.shiftl a 2) (Z.shiftr b 4)]
  | _ => []
  end.

Definition decode (s : string) : list Z := bytes_of_sextets (sextets s).

End Base64.

(** ** [createHash('sha256').update(buffer).digest('hex')] *)

Module Sha256.

Definition mask32 (x : Z) : Z := x mod 2 ^ 32.
Definition add32 (x y : Z) : Z := mask32 (x + y).
Definition rotr (n x : Z) : Z :=
  Z.lor (Z.shiftr x n) (mask32 (Z.shiftl x (32 - n))).
Definition not32 (x : Z) : Z := 2 ^ 32 - 1 - x.

Definition Ch (x y z : Z) : Z := Z.lxor (Z.land x y) (Z.land (not32 x) z).
Definition Maj (x y z : Z) : Z :=
  Z.lxor (Z.lxor (Z.land x y) (Z.land x z)) (Z.land y z).
Definition Sigma0 (x : Z) : Z := Z.lxor (Z.lxor (rotr 2 x) (rotr 13 x)) (rotr 22 x).
Definition Sigma1 (x : Z) : Z := Z.lxor (Z.lxor (rotr 6 x) (rotr 11 x)) (rotr 25 x).
Definition sigma0 (x : Z) : Z := Z.lxor (Z.lxor (rotr 7 x) (rotr 18 x)) (Z.shiftr x 3).
Definition sigma1 (x : Z) : Z := Z.lxor (Z.lxor (rotr 17 x) (rotr 19 x)) (Z.shiftr x 10).

(** The round constants are the first 32 bits of the fractional parts of
    the cube roots of the first 64 primes, and the initial hash value
    those of the square roots of the first 8. *)
Definition is_prime (n : Z) : bool :=
  (2 <=? n) && forallb (fun d => negb (n mod d =? 0) || (n <=? d))
                       (map Z.of_nat (seq 2 18)).

Definition primes64 : list Z :=
  Eval vm_compute in List.filter is_prime (map Z.of_nat (seq 0 312)).

(** the largest [r] below [2 ^ bits] with [r ^ 3 <= n] *)
Fixpoint cube_root (bits : nat) (n r : Z) : Z :=
  match bits with
  | O => r
  | S b =>
      let r' := r + 2 ^ Z.of_nat b in
      cube_root b n (if r' * r' * r' <=? n then r' else r)
  end.

Definition K : list Z :=
  Eval vm_compute in map (fun p => mask32 (cube_root 40 (p * 2 ^ 96) 0)) primes64.

Definition H0 : list Z :=
  Eval vm_compute in map (fun p => mask32 (Z.sqrt (p * 2 ^ 64))) (firstn 8 primes64).

(** big-endian bytes of [x], [n] of them *)
Fixpoint be_bytes (n : nat) (x : Z) : list Z :=
  match n with
  | O => []
  | S m => (Z.shiftr x (8 * Z.of_nat m)) mod 256 :: be_bytes m x
  end.

Definition pad (msg : list Z) : list Z :=
  let len := Z.of_nat (length msg) in
  let zeros := Z.to_nat ((55 - len) mod 64) in
  msg ++ [128] ++ repeat 0 zeros ++ be_bytes 8 (8 * len).

Fixpoint words (bytes : list Z) : list Z :=
  match bytes with
  | a :: b :: c :: d :: rest =>
      (Z.shiftl a 24 + Z.shiftl b 16 + Z.shiftl c 8 + d) :: words rest
  | _ => []
  end.

Definition word (l : list Z) (i : nat) : Z := nth i l 0.

(** the message schedule: [w] holds W_0 .. W_(t-1) *)
Fixpoint schedule (n : nat) (w : list Z) : list Z :=
  match n with
  | O => w
  | S m =>
      let t := length w in
      let x := add32 (add32 (sigma1 (word w (t - 2))) (word w (t - 7)))
                     (add32 (sigma0 (word w (t - 15))) (word w (t - 16))) in
      schedule m (w ++ [x])
  end.

Definition round (st : list Z) (kw : Z * Z) : list Z :=
  match st with
  | [a; b; c; d; e; f; g; h] =>
      let t1 := add32 (add32 (add32 h (Sigma1 e)) (add32 (Ch e f g) (fst kw))) (snd kw) in
      let t2 := add32 (Sigma0 a) (Maj a b c) in
      [add32 t1 t2; a; b; c; add32 d t1; e; f; g]
  | _ => st
  end.

Definition compress (h : list Z) (block : list Z) : list Z :=
  let w := schedule 48 block in
  let st := fold_left round (combine K w) h in
  map (fun p => add32 (fst p) (snd p)) (combine h st).

Fixpoint blocks (n : nat) (ws : list Z) : list (list Z) :=
  match n with
  | O => []
  | S m => firstn 16 ws :: blocks m (skipn 16 ws)
  end.

Definition digest_words (msg : list Z) : list Z :=
  let ws := words (pad msg) in
  fold_left compress (blocks (length ws / 16) ws) H0.

Definition hex_digit (n : Z) : ascii :=
  ascii_of_nat (Z.to_nat (if n <? 10 then 48 + n else 87 + n)).

Fixpoint hex_of (digits : nat) (x : Z) : string :=
  match digits with
  | O => EmptyString
  | S m => String (hex_digit ((Z.shiftr x (4 * Z.of_nat m)) mod 16)) (hex_of m x)
  end.

Definition digest_hex (msg : list Z) : string :=
  fold_right (fun w acc => hex_of 8 w +:+ acc) EmptyString (digest_words msg).

End Sha256.

(** ** The index documents both scripts write *)

Module Index.

(** A preset entry: [{type: 'preset', name, path, category, tags,
    gmProgram?, zoneCount?, keyRange?}]. A field that is [None] is left
    out of the document. *)
Record PresetEntry := {
  pe_name : option string;
  pe_path : string;
  pe_category : string;
  pe_tags : list string;
  pe_gmProgram : option Z;
  pe_zoneCount : option Z;
  pe_keyRange : option (Z * Z);
}.

(** A root-index entry: [{type: 'index', name, path, description,
    presetCount}]. *)
Record LibraryRef := {
  lr_name : string;
  lr_path : string;
  lr_description : string;
  lr_presetCount : Z;
}.

Inductive IndexEntry :=
| EPreset (e : PresetEntry)
| ELibrary (r : LibraryRef).

Record IndexDoc := {
  ix_format : string;
  ix_version : Z;
  ix_name : string;
  ix_description : string;
  ix_entries : list IndexEntry;
}.

Definition entry_path (e : IndexEntry) : string :=
  match e with
  | EPreset p => pe_path p
  | ELibrary r => lr_path r
  end.

Definition rootIndex (rootEntries : list LibraryRef) : IndexDoc :=
  {| ix_format := "songwalker-index";
     ix_version := 1;
     ix_name := "SongWalker Library";
     ix_description := "Root index — select a source library to browse its presets";
     ix_entries := map ELibrary rootEntries |}.

(** [libraryName.replace(/_/g, ' ')] *)
Definition spaced (libraryName : string) : string :=
  Js.string_map (fun c => if Ascii.eqb c "_" then " "%char else c) libraryName.

(** the sum of a list of counts *)
Definition total (l : list Z) : Z := fold_right Z.add 0 l.

End Index.

(** ** scripts/convert-webaudiofontdata.mjs *)

Module Converter.
Import Index.

(** The command line: [--output], [--dry-run], [--limit]. [OUTPUT_DIR] is
    taken in the normal form [path.join] gives it (no [.] or [..]
    component, no doubled or trailing separator; the empty string for the
    current directory); [LIMIT] is [None] for [Infinity]. *)
Record Config := {
  OUTPUT_DIR : string;
  DRY_RUN : bool;
  LIMIT : option Z;
}.

(** *** The command line

    [args] is [process.argv.slice(2)]. *)

Module Cli.

(** [args.indexOf(name)]: the position of the first argument equal to
    [name], and -1 when there is none. *)
Fixpoint indexOf (name : string) (args : list string) : Z :=
  match args with
  | [] => -1
  | a :: rest =>
      if String.eqb a name then 0
      else let idx := indexOf name rest in
           if idx <? 0 then -1 else idx + 1
  end.

(** [getArg(name)]; [None] is [null]. *)
Definition getArg (args : list string) (name : string) : option string :=
  let idx := indexOf name args in
  if (0 <=? idx) && (idx + 1 <? Z.of_nat (length args))
  then args !! Z.to_nat (idx + 1)
  else None.

(** [getArg('--source') || '../samples/webaudiofontdata/public'] *)
Definition SOURCE_DIR (args : list string) : string :=
  default "../samples/webaudiofontdata/public" (Js.truthy_string (getArg args "--source")).

(** [getArg('--output') || './library-output'], as it is given *)
Definition OUTPUT_DIR (args : list string) : string :=
  default "./library-output" (Js.truthy_string (getArg args "--output")).

(** [args.includes('--dry-run')] *)
Definition DRY_RUN (args : list string) : bool :=
  existsb (String.eqb "--dry-run") args.

(** [getArg('--limit') ? parseInt(getArg('--limit')) : Infinity]; [None]
    stands for [Infinity] and for [NaN], which the one use of [LIMIT], the
    test [convertedCount >= LIMIT], does not tell apart. *)
Definition LIMIT (args : list string) : option Z :=
  match Js.truthy_string (getArg args "--limit") with
  | Some text => Js.parseInt_text text
  | None => None
  end.

End Cli.

Definition families : list string :=
  ["piano"; "chromatic-percussion"; "organ"; "guitar"; "bass"; "strings";
   "ensemble"; "brass"; "reed"; "pipe"; "synth-lead"; "synth-pad";
   "synth-effects"; "ethnic"; "percussive"; "sound-effects"].

(** Eight consecutive programs per family, 128 entries in all. *)
Definition GM_CATEGORIES : list string :=
  Eval vm_compute in concat (map (fun f => repeat f 8%nat) families).

(** [GM_CATEGORIES[gmProgram]], [None] for [undefined]. *)
Definition gm_category (gmProgram : Z) : option string :=
  if gmProgram <? 0 then None else GM_CATEGORIES !! Z.to_nat gmProgram.

Definition NOTE_NAMES : list string :=
  ["C"; "Db"; "D"; "Eb"; "E"; "F"; "Gb"; "G"; "Ab"; "A"; "Bb"; "B"].

Definition midiToNoteName (midi : Z) : string :=
  let octave := midi / 12 - 1 in
  let note := Z.rem midi 12 in
  let name := if note <? 0 then None else NOTE_NAMES !! Z.to_nat note in
  default "undefined" name +:+ Js.show octave.

(** [path.join] on parts that are already in normal form: the empty
    parts are dropped and the others joined by the separator. *)
Definition join (parts : list string) : string :=
  match List.filter (fun p => negb (String.eqb p "")) parts with
  | [] => "."
  | ps => Js.join_with "/" ps
  end.

(** *** Input: an instrument descriptor *)

Record Zone := {
  z_file : option string;
  z_sample : option string;
  z_midi : option Z;
  z_originalPitch : option Z;
  z_coarseTune : option Z;
  z_fineTune : option Z;
  z_keyRangeLow : option Z;
  z_keyRangeHigh : option Z;
  z_sampleRate : option Z;
  z_loopStart : option Z;
  z_loopEnd : option Z;
}.

(** the zone with one of its pitch fields set *)
Definition with_originalPitch (v : option Z) (z : Zone) : Zone :=
  {| z_file := z_file z; z_sample := z_sample z; z_midi := z_midi z;
     z_originalPitch := v;
     z_coarseTune := z_coarseTune z; z_fineTune := z_fineTune z;
     z_keyRangeLow := z_keyRangeLow z; z_keyRangeHigh := z_keyRangeHigh z;
     z_sampleRate := z_sampleRate z;
     z_loopStart := z_loopStart z; z_loopEnd := z_loopEnd z |}.

Definition with_coarseTune (v : option Z) (z : Zone) : Zone :=
  {| z_file := z_file z; z_sample := z_sample z; z_midi := z_midi z;
     z_originalPitch := z_originalPitch z;
     z_coarseTune := v; z_fineTune := z_fineTune z;
     z_keyRangeLow := z_keyRangeLow z; z_keyRangeHigh := z_keyRangeHigh z;
     z_sampleRate := z_sampleRate z;
     z_loopStart := z_loopStart z; z_loopEnd := z_loopEnd z |}.

Definition with_fineTune (v : option Z) (z : Zone) : Zone :=
  {| z_file := z_file z; z_sample := z_sample z; z_midi := z_midi z;
     z_originalPitch := z_originalPitch z;
     z_coarseTune := z_coarseTune z; z_fineTune := v;
     z_keyRangeLow := z_keyRangeLow z; z_keyRangeHigh := z_keyRangeHigh z;
     z_sampleRate := z_sampleRate z;
     z_loopStart := z_loopStart z; z_loopEnd := z_loopEnd z |}.

(** *** Output: the preset document and the summary entry *)

Record AudioInfo := {
  filename : string;
  codec : string;
  sha256 : string;
}.

Record ConvertedZone := {
  keyRange : Z * Z;           (* low, high *)
  pitch : Z * Z;              (* rootNote, fineTuneCents *)
  sampleRate : Z;
  audio : AudioInfo;          (* type 'external', url = filename *)
  loop : option (Z * Z);      (* start, end *)
}.

Record Preset := {
  format : string;
  version : Z;
  name : string;
  category : string;
  tags : list string;
  gmProgram : Z;
  gmCategory : option string;
  source : string;
  variant : Z;
  license : string;
  oneShot : bool;
  zones : list ConvertedZone;
}.

Record Entry := {
  e_name : string;
  e_path : string;
  e_category : string;
  e_tags : list string;
  e_gmProgram : Z;
  e_library : string;
  e_zoneCount : Z;
  e_keyRange : Z * Z;
}.

(** *** The file system, as the sequence of writes of the run *)

Inductive Content :=
| AudioBytes (bytes : list Z)
| PresetJson (p : Preset)
| IndexJson (d : IndexDoc).

Inductive FsOp :=
| Mkdir (path : string)
| WriteFile (path : string) (c : Content).

(** *** The state of a run: the dedup table, its counter, the disk *)

Record HashEntry := {
  he_filename : string;
  he_count : Z;
}.

Record World := {
  audioHashes : gmap string HashEntry;
  totalDedupSaved : Z;
  disk : list FsOp;
}.

Definition empty_world : World :=
  {| audioHashes := ∅; totalDedupSaved := 0; disk := [] |}.

Definition perform (op : FsOp) (w : World) : World :=
  {| audioHashes := audioHashes w;
     totalDedupSaved := totalDedupSaved w;
     disk := disk w ++ [op] |}.

(** The dedup check of [extractAudio]. *)
Definition record_hash (hashKey fname : string) (w : World) : World :=
  match audioHashes w !! hashKey with
  | Some e =>
      {| audioHashes :=
           <[hashKey := {| he_filename := he_filename e; he_count := he_count e + 1 |}]>
             (audioHashes w);
         totalDedupSaved := totalDedupSaved w + 1;
         disk := disk w |}
  | None =>
      {| audioHashes :=
           <[hashKey := {| he_filename := fname; he_count := 1 |}]> (audioHashes w);
         totalDedupSaved := totalDedupSaved w;
         disk := disk w |}
  end.

(** *** Audio extraction *)

(** [buffer[i] === b] *)
Definition byte_is (buffer : list Z) (i : nat) (b : Z) : bool :=
  match buffer !! i with
  | Some x => x =? b
  | None => false
  end.

(** [(buffer[i] & m) === m] *)
Definition byte_has (buffer : list Z) (i : nat) (m : Z) : bool :=
  match buffer !! i with
  | Some x => Z.land x m =? m
  | None => false
  end.

(** [zone.file || zone.sample] *)
Definition audioData (zone : Zone) : option string :=
  match Js.truthy_string (z_file zone) with
  | Some f => Some f
  | None => Js.truthy_string (z_sample zone)
  end.

(** codec and extension, from the content *)
Definition sniff (isFile : bool) (buffer : list Z) : string :=
  if isFile then
    if byte_is buffer 0 73 && byte_is buffer 1 68 && byte_is buffer 2 51 then "mp3"
    else if byte_is buffer 0 255 && byte_has buffer 1 224 then "mp3"
    else if byte_is buffer 0 79 && byte_is buffer 1 103 && byte_is buffer 2 103 then "ogg"
    else "wav"
  else "raw".

Definition extractAudio (cfg : Config) (zone : Zone) (presetDir : string)
    (zoneIndex : nat) (noteName : string) (w : World) : option AudioInfo * World :=
  match audioData zone with
  | None => (None, w)
  | Some data =>
      let isFile := bool_decide (is_Some (Js.truthy_string (z_file zone))) in
      let buffer := Base64.decode data in
      let hash := substring 0 16 (Sha256.digest_hex buffer) in
      let ext := sniff isFile buffer in
      let fname := "zone_" +:+ noteName +:+ "." +:+ ext in
      let filepath := join [presetDir; fname] in
      let w1 := record_hash hash fname w in
      let w2 := if DRY_RUN cfg then w1
                else perform (WriteFile filepath (AudioBytes buffer)) w1 in
      (Some {| filename := fname; codec := ext; sha256 := hash |}, w2)
  end.

(** *** Pitch normalisation *)

(** [baseDetune = originalPitch - 100 * coarseTune - fineTune] *)
Definition baseDetune (zone : Zone) : Z :=
  let originalPitch := Js.or_default (z_originalPitch zone) 6000 in
  let coarseTune := Js.or_default (z_coarseTune zone) 0 in
  let fineTune := Js.or_default (z_fineTune zone) 0 in
  originalPitch - 100 * coarseTune - fineTune.

(** The derivation of the pair from [baseDetune]: [Math.floor] of the
    quotient clamped to the MIDI range, and the JavaScript remainder. *)
Definition derive (detune : Z) : Z * Z :=
  let rootNote := Z.max 0 (Z.min 127 (detune / 100)) in
  let fineTuneCents := Z.rem detune 100 in
  (rootNote, fineTuneCents).

Definition normalizePitch (zone : Zone) : Z * Z := derive (baseDetune zone).

(** *** Zone conversion *)

Definition loop_of (zone : Zone) : option (Z * Z) :=
  match z_loopStart zone, z_loopEnd zone with
  | Some loopStart, Some loopEnd =>
      if (0 <=? loopStart) && (loopStart <? loopEnd)
      then Some (loopStart, loopEnd) else None
  | _, _ => None
  end.

Definition convertZone (cfg : Config) (zone : Zone) (presetDir : string)
    (zoneIndex : nat) (w : World) : option ConvertedZone * World :=
  let '(rootNote, fineTuneCents) := normalizePitch zone in
  let noteName := midiToNoteName rootNote in
  match extractAudio cfg zone presetDir zoneIndex noteName w with
  | (None, w') => (None, w')
  | (Some audioInfo, w') =>
      (Some {| keyRange := (Js.nullish_default (z_keyRangeLow zone) 0,
                            Js.nullish_default (z_keyRangeHigh zone) 127);
               pitch := (rootNote, fineTuneCents);
               sampleRate := Js.or_default (z_sampleRate zone) 44100;
               audio := audioInfo;
               loop := loop_of zone |}, w')
  end.

(** The loop of [convertInstrument] over the zones, from index [i]. *)
Fixpoint convertZones (cfg : Config) (zones : list Zone) (presetDir : string)
    (i : nat) (w : World) : list ConvertedZone * World :=
  match zones with
  | [] => ([], w)
  | zone :: rest =>
      let '(z, w1) := convertZone cfg zone presetDir i w in
      let '(zs, w2) := convertZones cfg rest presetDir (S i) w1 in
      (match z with Some cz => cz :: zs | None => zs end, w2)
  end.

(** *** Instrument conversion *)

(** [zones.some(z => z.midi === 128)] *)
Definition isPercussion (zones : list Zone) : bool :=
  existsb (fun z => match z_midi z with Some m => m =? 128 | None => false end) zones.

(** [instrumentName.replace(/[^a-zA-Z0-9 ]/g, '').replace(/\s+/g, '_')] *)
Definition safeName (instrumentName : string) : string :=
  Js.collapse_spaces "_" false
    (Js.string_filter (fun c => Js.is_alnum c || Ascii.eqb c " ") instrumentName).

(** [libraryName.replace(/[^a-zA-Z0-9]/g, '_')] *)
Definition safeLib (libraryName : string) : string :=
  Js.string_map (fun c => if Js.is_alnum c then c else "_"%char) libraryName.

Definition categoryOf (percussion : bool) (gmProgram : Z) : string :=
  if percussion then "percussion" else default "unknown" (gm_category gmProgram).

Definition presetPath (cfg : Config) (percussion : bool) (gmProgram : Z)
    (instrumentName libraryName : string) : string :=
  if percussion
  then join [OUTPUT_DIR cfg; safeLib libraryName; "percussion"; "individual";
             safeName instrumentName]
  else join [OUTPUT_DIR cfg; safeLib libraryName; "instruments";
             categoryOf percussion gmProgram; safeName instrumentName].

Definition buildTags (percussion : bool) (gmProgram : Z)
    (convertedZones : list ConvertedZone) : list string :=
  [if percussion then "percussion" else "melodic"]
  ++ (if percussion then [] else [categoryOf percussion gmProgram])
  ++ ["gm:" +:+ Js.show gmProgram]
  ++ (if existsb (fun z => bool_decide (is_Some (loop z))) convertedZones
      then ["sustained"; "looped"] else ["one-shot"]).

(** [Math.min(...l)] and [Math.max(...l)], on the non-empty lists the
    script passes. *)
Definition min_of (l : list Z) : Z :=
  match l with
  | [] => 0
  | x :: rest => fold_left Z.min rest x
  end.

Definition max_of (l : list Z) : Z :=
  match l with
  | [] => 0
  | x :: rest => fold_left Z.max rest x
  end.

(** What a call of [convertInstrument] ends in: an exception, or the
    returned entry ([None] for [null]). *)
Inductive Outcome :=
| Threw
| Returned (entry : option Entry).

(** the preset document [convertInstrument] builds *)
Definition presetDocument (percussion : bool) (gmProgram : Z)
    (instrumentName libraryName : string) (variant : Z)
    (convertedZones : list ConvertedZone) : Preset :=
  {| format := "songwalker-preset";
     version := 1;
     name := instrumentName;
     category := "sampler";
     tags := buildTags percussion gmProgram convertedZones;
     gmProgram := gmProgram;
     gmCategory := if percussion then Some "Percussion" else gm_category gmProgram;
     source := libraryName;
     variant := variant;
     license := "See original SF2 license";
     oneShot := percussion;
     zones := convertedZones |}.

(** [presetPath.replace(libraryDir + '/', '') + '/preset.json'] *)
Definition relativePath (cfg : Config) (libraryName dir : string) : string :=
  let libraryDir := join [OUTPUT_DIR cfg; safeLib libraryName] in
  Js.replace_first (libraryDir +:+ "/") "" dir +:+ "/preset.json".

(** the entry [convertInstrument] returns *)
Definition summaryEntry (cfg : Config) (percussion : bool) (gmProgram : Z)
    (instrumentName libraryName dir : string)
    (convertedZones : list ConvertedZone) : Entry :=
  {| e_name := instrumentName;
     e_path := relativePath cfg libraryName dir;
     e_category := "sampler";
     e_tags := buildTags percussion gmProgram convertedZones;
     e_gmProgram := gmProgram;
     e_library := safeLib libraryName;
     e_zoneCount := Z.of_nat (length convertedZones);
     e_keyRange := (min_of (map (fun z => fst (keyRange z)) convertedZones),
                    max_of (map (fun z => snd (keyRange z)) convertedZones)) |}.

(** [data] is what [JSON.parse(readFileSync(filePath))] gives: [None] when
    it throws, else [data.zones || []]. *)
Definition convertInstrument (cfg : Config) (data : option (list Zone))
    (gmProgram : Z) (instrumentName libraryName : string) (variant : Z)
    (w : World) : Outcome * World :=
  match data with
  | None => (Threw, w)
  | Some [] => (Returned None, w)
  | Some zones =>
      let percussion := isPercussion zones in
      let dir := presetPath cfg percussion gmProgram instrumentName libraryName in
      let w1 := if DRY_RUN cfg then w else perform (Mkdir dir) w in
      let '(convertedZones, w2) := convertZones cfg zones dir 0 w1 in
      match convertedZones with
      | [] => (Returned None, w2)
      | _ =>
          let preset := presetDocument percussion gmProgram instrumentName
                          libraryName variant convertedZones in
          let w3 := if DRY_RUN cfg then w2
                    else perform (WriteFile (join [dir; "preset.json"])
                                            (PresetJson preset)) w2 in
          (Returned (Some (summaryEntry cfg percussion gmProgram instrumentName
                             libraryName dir convertedZones)), w3)
      end
  end.

(** *** File-name parsing *)

Record InstrumentInfo := {
  i_gmProgram : Z;
  i_variant : Z;
  i_library : string;
}.

Record PercussionInfo := {
  p_midiNote : Z;
  p_variant : Z;
  p_library : string;
}.

(** The tail of both patterns, [(?:_sf2(?:_file)?)?\.json$]. *)
Definition tail_matches (s : string) : bool :=
  String.eqb s "_sf2_file.json" || String.eqb s "_sf2.json" || String.eqb s ".json".

(** The lazy group [(.+?)]: it has taken [taken] and tries the tail of
    the pattern before taking one more character (never a line
    terminator). *)
Fixpoint lazy_library (taken : string) (s : string) : option string :=
  if tail_matches s then Some taken
  else match s with
       | EmptyString => None
       | String c s' =>
           if Js.is_line_terminator c then None
           else lazy_library (taken +:+ String c EmptyString) s'
       end.

(** [(.+?)] followed by the tail: at least one character is taken. *)
Definition library_and_tail (s : string) : option string :=
  match s with
  | EmptyString => None
  | String c s' =>
      if Js.is_line_terminator c then None
      else lazy_library (String c EmptyString) s'
  end.

(** [^(\d{4})_(.+?)(?:_sf2(?:_file)?)?\.json$] *)
Definition parseInstrumentFilename (fname : string) : option InstrumentInfo :=
  match fname with
  | String d1 (String d2 (String d3 (String d4 (String sep rest)))) =>
      if Js.is_digit d1 && Js.is_digit d2 && Js.is_digit d3 && Js.is_digit d4
         && Ascii.eqb sep "_"
      then
        match library_and_tail rest with
        | Some library =>
            let code := Js.parseInt
                          (String d1 (String d2 (String d3 (String d4 EmptyString)))) in
            Some {| i_gmProgram := code / 10;
                    i_variant := Z.rem code 10;
                    i_library := library |}
        | None => None
        end
      else None
  | _ => None
  end.

(** [(\d+)_]: the longest run of digits, which must be non-empty and
    followed by an underscore; returns the digits and what follows the
    underscore. *)
Fixpoint digits_then_underscore (taken : string) (s : string) : option (string * string) :=
  match s with
  | EmptyString => None
  | String c s' =>
      if Js.is_digit c then digits_then_underscore (taken +:+ String c EmptyString) s'
      else if Ascii.eqb c "_" && negb (String.eqb taken "") then Some (taken, s')
      else None
  end.

(** [^(\d+)_(\d+)_(.+?)(?:_sf2(?:_file)?)?\.json$] *)
Definition parsePercussionFilename (fname : string) : option PercussionInfo :=
  match digits_then_underscore "" fname with
  | Some (note, rest) =>
      match digits_then_underscore "" rest with
      | Some (var, rest') =>
          match library_and_tail rest' with
          | Some library =>
              Some {| p_midiNote := Js.parseInt note;
                      p_variant := Js.parseInt var;
                      p_library := library |}
          | None => None
          end
      | None => None
      end
  | None => None
  end.

(** The four-digit code of a melodic file name, zero-padded. *)
Definition digit (k : Z) : ascii := ascii_of_nat (Z.to_nat (48 + k)).

Definition four_digits (code : Z) : string :=
  String (digit (code / 1000 mod 10))
    (String (digit (code / 100 mod 10))
       (String (digit (code / 10 mod 10))
          (String (digit (code mod 10)) EmptyString))).

(** *** The main pipeline *)

(** A file of a source directory: its name and what reading and parsing it
    gives ([None] when that throws, else [data.zones || []]). *)
Record SrcFile := {
  f_name : string;
  f_data : option (list Zone);
}.

(** The source tree: [instrumentNames.json] ([None] when it cannot be
    loaded), and the listings of [i/] and [p/] ([None] when the directory
    does not exist). *)
Record Source := {
  instrumentNames : option (list string);
  i_dir : option (list SrcFile);
  p_dir : option (list SrcFile);
}.

(** The local state of [main]; [entriesByLibrary] is a [Map], which keeps
    its keys in insertion order. *)
Record Run := {
  world : World;
  entriesByLibrary : list (string * list Entry);
  convertedCount : Z;
  errorCount : Z;
}.

Definition initial_run (cfg : Config) : Run :=
  {| world := if DRY_RUN cfg then empty_world
              else perform (Mkdir (OUTPUT_DIR cfg)) empty_world;
     entriesByLibrary := [];
     convertedCount := 0;
     errorCount := 0 |}.

(** [if (!m.has(lib)) m.set(lib, []); m.get(lib).push(entry)] *)
Fixpoint push_entry (lib : string) (entry : Entry)
    (m : list (string * list Entry)) : list (string * list Entry) :=
  match m with
  | [] => [(lib, [entry])]
  | (k, es) :: rest =>
      if String.eqb k lib then (k, es ++ [entry]) :: rest
      else (k, es) :: push_entry lib entry rest
  end.

(** What the body of the [try] does with the outcome of
    [convertInstrument]; [retag] is the change [main] makes to the entry
    before it stores it. *)
Definition settle (retag : Entry -> Entry) (r : Run) (res : Outcome * World) : Run :=
  match res with
  | (Threw, w) =>
      {| world := w; entriesByLibrary := entriesByLibrary r;
         convertedCount := convertedCount r; errorCount := errorCount r + 1 |}
  | (Returned None, w) =>
      {| world := w; entriesByLibrary := entriesByLibrary r;
         convertedCount := convertedCount r; errorCount := errorCount r |}
  | (Returned (Some entry), w) =>
      let entry := retag entry in
      {| world := w;
         entriesByLibrary := push_entry (e_library entry) entry (entriesByLibrary r);
         convertedCount := convertedCount r + 1;
         errorCount := errorCount r |}
  end.

(** [instrumentNames[gmProgram] || `Program ${gmProgram}`], then
    [name.split(':')[0].trim()] *)
Definition cleanName (names : list string) (gmProgram : Z) : string :=
  let name := default ("Program " +:+ Js.show gmProgram)
                (Js.truthy_string (names !! Z.to_nat gmProgram)) in
  Js.trim (Js.before_first ":" name).

(** One turn of the loop over [i/], after the [LIMIT] test. *)
Definition instrument_step (cfg : Config) (names : list string)
    (file : SrcFile) (r : Run) : Run :=
  match parseInstrumentFilename (f_name file) with
  | None => r
  | Some info =>
      if 128 <=? i_gmProgram info then r
      else settle (fun e => e) r
             (convertInstrument cfg (f_data file) (i_gmProgram info)
                (cleanName names (i_gmProgram info)) (i_library info)
                (i_variant info) (world r))
  end.

(** [entry.tags = ['percussion', `midi:${info.midiNote}`]] *)
Definition percussion_tags (midiNote : Z) (entry : Entry) : Entry :=
  {| e_name := e_name entry;
     e_path := e_path entry;
     e_category := e_category entry;
     e_tags := ["percussion"; "midi:" +:+ Js.show midiNote];
     e_gmProgram := e_gmProgram entry;
     e_library := e_library entry;
     e_zoneCount := e_zoneCount entry;
     e_keyRange := e_keyRange entry |}.

(** One turn of the loop over [p/], after the [LIMIT] test; 128 is the
    sentinel program of percussion. ([percCount] only feeds the log.) *)
Definition percussion_step (cfg : Config) (file : SrcFile) (r : Run) : Run :=
  match parsePercussionFilename (f_name file) with
  | None => r
  | Some info =>
      let noteName := midiToNoteName (p_midiNote info) in
      settle (percussion_tags (p_midiNote info)) r
        (convertInstrument cfg (f_data file) 128
           ("Percussion_" +:+ noteName +:+ "_" +:+ Js.show (p_midiNote info))
           (p_library info) (p_variant info) (world r))
  end.

(** [convertedCount >= LIMIT] *)
Definition limit_reached (cfg : Config) (r : Run) : bool :=
  match LIMIT cfg with
  | Some n => n <=? convertedCount r
  | None => false
  end.

(** [for (const file of files) { if (convertedCount >= LIMIT) break; ... }] *)
Fixpoint convert_files (cfg : Config) (step : SrcFile -> Run -> Run)
    (files : list SrcFile) (r : Run) : Run :=
  match files with
  | [] => r
  | file :: rest =>
      if limit_reached cfg r then r
      else convert_files cfg step rest (step file r)
  end.

(** [readdirSync(dir).filter(f => f.endsWith('.json')).sort()] *)
Definition listing (dir : list SrcFile) : list SrcFile :=
  Js.sort_by (fun a b => String.ltb (f_name a) (f_name b))
    (List.filter (fun f => Js.endsWith (f_name f) ".json") dir).

Definition convert_dir (cfg : Config) (step : SrcFile -> Run -> Run)
    (dir : option (list SrcFile)) (r : Run) : Run :=
  match dir with
  | Some files => convert_files cfg step (listing files) r
  | None => r
  end.

Definition presetEntry (e : Entry) : PresetEntry :=
  {| pe_name := Some (e_name e);
     pe_path := e_path e;
     pe_category := e_category e;
     pe_tags := e_tags e;
     pe_gmProgram := if e_gmProgram e <? 128 then Some (e_gmProgram e) else None;
     pe_zoneCount := Some (e_zoneCount e);
     pe_keyRange := Some (e_keyRange e) |}.

Definition libraryIndex (libraryName : string) (entries : list Entry) : IndexDoc :=
  {| ix_format := "songwalker-index";
     ix_version := 1;
     ix_name := spaced libraryName;
     ix_description := libraryName +:+ " soundfont — "
                       +:+ Js.show (Z.of_nat (length entries)) +:+ " presets";
     ix_entries := map (fun e => EPreset (presetEntry e)) entries |}.

Definition libraryRef (libraryName : string) (entries : list Entry) : LibraryRef :=
  {| lr_name := spaced libraryName;
     lr_path := libraryName +:+ "/index.json";
     lr_description := libraryName +:+ " soundfont";
     lr_presetCount := Z.of_nat (length entries) |}.

(** [for (const [libraryName, entries] of entriesByLibrary) ...] *)
Fixpoint write_library_indexes (cfg : Config) (libs : list (string * list Entry))
    (w : World) (rootEntries : list LibraryRef) : World * list LibraryRef :=
  match libs with
  | [] => (w, rootEntries)
  | (libraryName, entries) :: rest =>
      let w1 := if DRY_RUN cfg then w
                else perform (WriteFile (join [OUTPUT_DIR cfg; libraryName; "index.json"])
                                        (IndexJson (libraryIndex libraryName entries))) w in
      write_library_indexes cfg rest w1 (rootEntries ++ [libraryRef libraryName entries])
  end.

(** What a run leaves behind. *)
Record Result := {
  final : Run;
  rootEntries : list LibraryRef;
}.

(** [main()]; [None] is the fatal exit when the name table cannot be
    loaded. *)
Definition main (cfg : Config) (src : Source) : option Result :=
  match instrumentNames src with
  | None => None
  | Some names =>
      let r0 := initial_run cfg in
      let r1 := convert_dir cfg (instrument_step cfg names) (i_dir src) r0 in
      let r2 := convert_dir cfg (percussion_step cfg) (p_dir src) r1 in
      let '(w, roots) := write_library_indexes cfg (entriesByLibrary r2) (world r2) [] in
      let w' := if DRY_RUN cfg then w
                else perform (WriteFile (join [OUTPUT_DIR cfg; "index.json"])
                                        (IndexJson (rootIndex roots))) w in
      Some {| final := {| world := w';
                          entriesByLibrary := entriesByLibrary r2;
                          convertedCount := convertedCount r2;
                          errorCount := errorCount r2 |};
              rootEntries := roots |}
  end.

(** *** Reading the disk after a run *)

Definition written (path : string) (c : Content) (w : World) : Prop :=
  In (WriteFile path c) (disk w).

(** a file exists at [path] *)
Definition file_exists (path : string) (w : World) : Prop :=
  exists c, written path c w.

Definition is_write (op : FsOp) : bool :=
  match op with WriteFile _ _ => true | Mkdir _ => false end.

Definition op_path (op : FsOp) : string :=
  match op with WriteFile p _ => p | Mkdir p => p end.

(** the paths written, in the order of the writes *)
Definition writes (w : World) : list string :=
  map op_path (List.filter is_write (disk w)).

(** the directories created, in order *)
Definition mkdirs (w : World) : list string :=
  map op_path (List.filter (fun op => negb (is_write op)) (disk w)).

(** the audio files written, in order, each with its bytes *)
Definition audio_writes (w : World) : list (string * list Z) :=
  flat_map (fun op => match op with
                      | WriteFile p (AudioBytes b) => [(p, b)]
                      | _ => []
                      end) (disk w).

(** the tag lists of the preset documents written, in order *)
Definition preset_tags (w : World) : list (list string) :=
  flat_map (fun op => match op with
                      | WriteFile _ (PresetJson p) => [tags p]
                      | _ => []
                      end) (disk w).

(** the tag lists of the entries of the library indexes written, in order *)
Definition index_tags (w : World) : list (list string) :=
  flat_map (fun op => match op with
                      | WriteFile _ (IndexJson d) =>
                          flat_map (fun e => match e with
                                             | EPreset pe => [pe_tags pe]
                                             | ELibrary _ => []
                                             end) (ix_entries d)
                      | _ => []
                      end) (disk w).

(** *** A run and its dry counterpart *)

(** the same command line with [--dry-run] *)
Definition dry (cfg : Config) : Config :=
  {| OUTPUT_DIR := OUTPUT_DIR cfg; DRY_RUN := true; LIMIT := LIMIT cfg |}.

(** the state of a run without its file system: what was computed *)
Definition computed (w : World) : World :=
  {| audioHashes := audioHashes w;
     totalDedupSaved := totalDedupSaved w;
     disk := [] |}.

Definition computed_run (r : Run) : Run :=
  {| world := computed (world r);
     entriesByLibrary := entriesByLibrary r;
     convertedCount := convertedCount r;
     errorCount := errorCount r |}.

Definition computed_result (res : Result) : Result :=
  {| final := computed_run (final res); rootEntries := rootEntries res |}.

(** *** Notions for the properties of the Converter *)

(** the parts [join] keeps *)
Definition kept (parts : list string) : list string :=
  List.filter (fun p => negb (String.eqb p "")) parts.

(** a text the dot of a regular expression matches throughout *)
Definition no_line_terminator (s : string) : bool :=
  Js.string_forallb (fun c => negb (Js.is_line_terminator c)) s.

(** What the pattern sees of a four-digit code: four digits, whose value
    [parseInt] gives back. *)
Definition code_reads_back (n : nat) : bool :=
  match four_digits (Z.of_nat n) with
  | String d1 (String d2 (String d3 (String d4 EmptyString))) =>
      Js.is_digit d1 && Js.is_digit d2 && Js.is_digit d3 && Js.is_digit d4
      && (Js.parseInt (String d1 (String d2 (String d3 (String d4 EmptyString))))
          =? Z.of_nat n)
  | _ => false
  end.

(** an operation other than the write of an index document *)
Definition not_index (op : FsOp) : Prop :=
  match op with
  | WriteFile _ (IndexJson _) => False
  | _ => True
  end.

(** [w'] is [w] after more operations, none of them the write of an index *)
Definition grows (w w' : World) : Prop :=
  exists ops, disk w' = disk w ++ ops /\ Forall not_index ops.

(** Where an entry points: its path, from the directory of its library. *)
Definition entry_ok (cfg : Config) (w : World) (lib : string) (e : Entry) : Prop :=
  file_exists (join [join [OUTPUT_DIR cfg; lib]; e_path e]) w.

(** A key of [entriesByLibrary] with its entries: the key is a directory
    name and every entry points to a file. *)
Definition library_ok (cfg : Config) (w : World) (le : string * list Entry) : Prop :=
  fst le <> "" /\ Forall (entry_ok cfg w (fst le)) (snd le).

(** The invariant of the conversion loops: the entries stored point to
    files, and no index document is written yet. *)
Definition run_ok (cfg : Config) (r : Run) : Prop :=
  Forall (library_ok cfg (world r)) (entriesByLibrary r)
  /\ Forall not_index (disk (world r)).

(** the write of the index of a library *)
Definition library_index_write (cfg : Config) (le : string * list Entry) : FsOp :=
  WriteFile (join [OUTPUT_DIR cfg; fst le; "index.json"])
            (IndexJson (libraryIndex (fst le) (snd le))).

(** *** Notions for further properties of the Converter *)

(** the codecs [extractAudio] tells apart *)
Definition codecs : list string := ["mp3"; "ogg"; "wav"; "raw"].

(** the name [extractAudio] gives the file of a zone with the root note
    [note] *)
Definition zone_file_name (note : Z) (ext : string) : string :=
  "zone_" +:+ midiToNoteName note +:+ "." +:+ ext.

(** the zone carries a payload *)
Definition has_payload (zone : Zone) : bool :=
  match audioData zone with Some _ => true | None => false end.

(** What holds of every zone the Converter writes into a preset. *)
Definition zone_valid (cz : ConvertedZone) : Prop :=
  0 <= fst (pitch cz) <= 127
  /\ -100 < snd (pitch cz) < 100
  /\ sampleRate cz <> 0
  /\ In (codec (audio cz)) codecs
  /\ filename (audio cz) = zone_file_name (fst (pitch cz)) (codec (audio cz))
  /\ match loop cz with
     | Some (loopStart, loopEnd) => 0 <= loopStart < loopEnd
     | None => True
     end.

(** What holds of every preset document the Converter writes. *)
Definition preset_valid (p : Preset) : Prop :=
  zones p <> []
  /\ Forall zone_valid (zones p)
  /\ (In "looped" (tags p) <-> exists z, In z (zones p) /\ loop z <> None)
  /\ (In "one-shot" (tags p) <-> forall z, In z (zones p) -> loop z = None)
  /\ (oneShot p = true <-> In "percussion" (tags p))
  /\ (oneShot p = false <-> In "melodic" (tags p)).

(** the write of the audio file of a converted zone, in the directory of
    its preset *)
Definition audio_write (dir : string) (cz : ConvertedZone) (op : FsOp) : Prop :=
  exists bytes, op = WriteFile (join [dir; filename (audio cz)]) (AudioBytes bytes).

(** the number of payloads the dedup table has seen: the hashes it holds
    and the duplicates it counted *)
Definition tally (w : World) : Z :=
  Z.of_nat (size (audioHashes w)) + totalDedupSaved w.

(** the preset documents written, in order *)
Definition presets_written (w : World) : list Preset :=
  flat_map (fun op => match op with
                      | WriteFile _ (PresetJson p) => [p]
                      | _ => []
                      end) (disk w).

(** the index documents written, in order, each with its path *)
Definition indexes_written (w : World) : list (string * IndexDoc) :=
  flat_map (fun op => match op with
                      | WriteFile path (IndexJson d) => [(path, d)]
                      | _ => []
                      end) (disk w).

(** the entries of all libraries *)
Definition all_entries (m : list (string * list Entry)) : list Entry :=
  flat_map snd m.

(** A component of a path that stays where it is put: not empty, made of
    letters, digits, [_], [-] and [.], and not starting with a dot. *)
Definition safe_char (c : ascii) : bool :=
  Js.is_alnum c || Ascii.eqb c "_" || Ascii.eqb c "-" || Ascii.eqb c ".".

Definition safe_segment (s : string) : bool :=
  match s with
  | EmptyString => false
  | String c _ => negb (Ascii.eqb c ".") && Js.string_forallb safe_char s
  end.

(** the path is the output directory or lies below it *)
Definition below (cfg : Config) (path : string) : Prop :=
  path = OUTPUT_DIR cfg
  \/ exists segments,
       segments <> []
       /\ Forall (fun s => safe_segment s = true) segments
       /\ path = join (OUTPUT_DIR cfg :: segments).

(** What holds of every entry [main] stores: it comes from [i/] with a
    program below 128 and the tags [convertInstrument] built, or from [p/]
    with the sentinel 128 and the two tags [main] gave it. *)
Definition entry_valid (e : Entry) : Prop :=
  e_category e = "sampler"
  /\ 1 <= e_zoneCount e
  /\ safe_segment (e_library e) = true
  /\ ((0 <= e_gmProgram e < 128
       /\ In ("gm:" +:+ Js.show (e_gmProgram e)) (e_tags e))
      \/ (e_gmProgram e = 128
          /\ exists note, 0 <= note
                          /\ e_tags e = ["percussion"; "midi:" +:+ Js.show note])).

(** the files of a directory listing that the loops look at *)
Definition listed (dir : option (list SrcFile)) : list SrcFile :=
  match dir with
  | Some files => listing files
  | None => []
  end.

(** The counters of a run agree with its entries and, when the run is not
    dry, with its disk. *)
Definition counted (cfg : Config) (r : Run) : Prop :=
  convertedCount r = Z.of_nat (length (all_entries (entriesByLibrary r)))
  /\ tally (world r) = total (map e_zoneCount (all_entries (entriesByLibrary r)))
  /\ (DRY_RUN cfg = false ->
      length (presets_written (world r)) = length (all_entries (entriesByLibrary r))
      /\ Z.of_nat (length (audio_writes (world r))) = tally (world r)).

(** What a converted zone takes over from the zone of the source. *)
Definition converted_from (zone : Zone) (cz : ConvertedZone) : Prop :=
  keyRange cz = (Js.nullish_default (z_keyRangeLow zone) 0,
                 Js.nullish_default (z_keyRangeHigh zone) 127)
  /\ pitch cz = normalizePitch zone
  /\ sampleRate cz = Js.or_default (z_sampleRate zone) 44100
  /\ loop cz = loop_of zone.

(** What holds of every entry of a library index the Converter writes. *)
Definition index_entry_valid (pe : PresetEntry) : Prop :=
  pe_category pe = "sampler"
  /\ (exists name, pe_name pe = Some name)
  /\ (exists zoneCount, pe_zoneCount pe = Some zoneCount /\ 1 <= zoneCount)
  /\ (exists low high, pe_keyRange pe = Some (low, high))
  /\ ((exists gm, pe_gmProgram pe = Some gm /\ 0 <= gm < 128
                  /\ In ("gm:" +:+ Js.show gm) (pe_tags pe))
      \/ (pe_gmProgram pe = None
          /\ exists note, 0 <= note
                          /\ pe_tags pe = ["percussion"; "midi:" +:+ Js.show note])).

(** The keys of [entriesByLibrary]: each once, each with at least one
    entry, and every entry under the name of its library. *)
Definition libraries_valid (m : list (string * list Entry)) : Prop :=
  List.NoDup (map fst m)
  /\ Forall (fun le => snd le <> [] /\ Forall (fun e => e_library e = fst le) (snd le)) m.

(** What a turn of a loop of [main] does to the two counters: nothing, or
    one more preset, or one more error, for a file that cannot be read. *)
Definition turn (step : SrcFile -> Run -> Run) : Prop :=
  forall file r,
    (convertedCount (step file r) = convertedCount r
     /\ errorCount (step file r) = errorCount r)
    \/ (convertedCount (step file r) = convertedCount r + 1
        /\ errorCount (step file r) = errorCount r)
    \/ (f_data file = None /\ convertedCount (step file r) = convertedCount r
        /\ errorCount (step file r) = errorCount r + 1).

(** the name [main] gives the instrument of a file of [p/] *)
Definition percussion_name (midiNote : Z) : string :=
  "Percussion_" +:+ midiToNoteName midiNote +:+ "_" +:+ Js.show midiNote.

End Converter.

(** ** scripts/generate-index.js *)

Module Indexer.
Import Index.

Definition SKIP_DIRS : list string :=
  [".git"; ".husky"; "scripts"; "node_modules"; ".github"].

(** *** A parsed preset document

    The playback graph is a tree of nodes told apart by their [type];
    only the fields the script reads are kept. *)

Record Zone := {
  keyRange : option (Z * Z);       (* low, high *)
}.

#[local] Unset Elimination Schemes.

Inductive Node :=
| Sampler (zones : option (list Zone))              (* config?.zones *)
| Composite (children : option (list (option Node))) (* a child may be null *)
| Other.

Record PresetData := {
  name : option string;
  category : option string;
  tags : option (list string);
  gmProgram : option Z;            (* metadata?.gmProgram *)
  node : option Node;
  graph : option Node;
}.

(** *** The library tree *)

Inductive FileData :=
| Unparseable                      (* [JSON.parse] throws *)
| PresetFile (data : PresetData)
| IndexFile (doc : IndexDoc).

Inductive FsNode :=
| File (c : FileData)
| Dir (entries : list (string * FsNode)).

#[local] Set Elimination Schemes.

(** A directory listing, in the order [readdirSync] gives it. *)
Abbreviation Dirents := (list (string * FsNode)).

(** Induction on a tree, with the hypothesis for every entry of a directory. *)
Fixpoint FsNode_induction (P : FsNode -> Prop)
    (Hfile : forall c, P (File c))
    (Hdir : forall d : Dirents, Forall (fun e => P (snd e)) d -> P (Dir d))
    (n : FsNode) : P n :=
  match n with
  | File c => Hfile c
  | Dir d =>
      Hdir d ((fix each (l : Dirents) : Forall (fun e => P (snd e)) l :=
                 match l with
                 | [] => @List.Forall_nil _ _
                 | (nm, x) :: rest =>
                     @List.Forall_cons _ _ (nm, x) rest
                       (FsNode_induction P Hfile Hdir x) (each rest)
                 end) d)
  end.

Definition isDirectory (n : FsNode) : bool :=
  match n with Dir _ => true | File _ => false end.

Fixpoint lookup_child (nm : string) (d : Dirents) : option FsNode :=
  match d with
  | [] => None
  | (n, x) :: rest => if String.eqb n nm then Some x else lookup_child nm rest
  end.

Fixpoint replace_child (nm : string) (y : FsNode) (d : Dirents) : Dirents :=
  match d with
  | [] => []
  | (n, x) :: rest =>
      if String.eqb n nm then (n, y) :: rest else (n, x) :: replace_child nm y rest
  end.

(** [writeFileSync(join(dir, nm), c)]: the file is replaced where it
    stands or added to the directory; writing over a directory throws
    ([None]). *)
Fixpoint write_child (nm : string) (c : FileData) (d : Dirents) : option Dirents :=
  match d with
  | [] => Some [(nm, File c)]
  | (n, x) :: rest =>
      if String.eqb n nm
      then (if isDirectory x then None else Some ((n, File c) :: rest))
      else option_map (cons (n, x)) (write_child nm c rest)
  end.

(** The node a path of components leads to, from a directory. *)
Fixpoint lookup_path (p : list string) (d : Dirents) : option FsNode :=
  match p with
  | [] => None
  | [nm] => lookup_child nm d
  | nm :: rest =>
      match lookup_child nm d with
      | Some (Dir d') => lookup_path rest d'
      | _ => None
      end
  end.

(** *** Helpers *)

(** [findPresetFiles]: the files named [preset.json] below a directory, in
    the order of the walk, each with its path from the library root ([dir]
    is the path of the directory walked) and with what reading it gives. *)
Fixpoint findPresetFiles (dir : list string) (n : FsNode) : list (list string * FileData) :=
  match n with
  | File _ => []
  | Dir entries =>
      (fix walk (l : Dirents) : list (list string * FileData) :=
         match l with
         | [] => []
         | (nm, x) :: rest =>
             match x with
             | Dir _ => findPresetFiles (dir ++ [nm]) x ++ walk rest
             | File c =>
                 if String.eqb nm "preset.json"
                 then (dir ++ [nm], c) :: walk rest
                 else walk rest
             end
         end) entries
  end.

(** The three counters of [buildPresetEntry]. *)
Record Stats := {
  zoneCount : Z;
  keyRangeLow : Z;
  keyRangeHigh : Z;
}.

Definition count_zone (st : Stats) (zone : Zone) : Stats :=
  match keyRange zone with
  | Some (low, high) =>
      {| zoneCount := zoneCount st + 1;
         keyRangeLow := Z.min (keyRangeLow st) low;
         keyRangeHigh := Z.max (keyRangeHigh st) high |}
  | None =>
      {| zoneCount := zoneCount st + 1;
         keyRangeLow := keyRangeLow st;
         keyRangeHigh := keyRangeHigh st |}
  end.

Fixpoint countZones (n : Node) (st : Stats) : Stats :=
  match n with
  | Sampler (Some zones) => fold_left count_zone zones st
  | Composite (Some children) =>
      (fix each (l : list (option Node)) (st : Stats) : Stats :=
         match l with
         | [] => st
         | Some child :: rest => each rest (countZones child st)
         | None :: rest => each rest st
         end) children st
  | _ => st
  end.

(** Induction on a node, with the hypothesis for every child of a
    composite. *)
Fixpoint Node_induction (P : Node -> Prop)
    (Hsampler : forall zones, P (Sampler zones))
    (Hcomposite : forall children,
        Forall (fun c => match c with Some n => P n | None => True end)
               (default [] children) ->
        P (Composite children))
    (Hother : P Other)
    (n : Node) : P n :=
  match n with
  | Sampler zones => Hsampler zones
  | Composite children =>
      Hcomposite children
        (match children
               return Forall (fun c => match c with Some n => P n | None => True end)
                             (default [] children) with
         | None => @List.Forall_nil _ _
         | Some l =>
             (fix each (l : list (option Node))
                : Forall (fun c => match c with Some n => P n | None => True end) l :=
                match l with
                | [] => @List.Forall_nil _ _
                | None :: rest => @List.Forall_cons _ _ None rest I (each rest)
                | Some child :: rest =>
                    @List.Forall_cons _ _ (Some child) rest
                      (Node_induction P Hsampler Hcomposite Hother child) (each rest)
                end) l
         end)
  | Other => Hother
  end.

(** The zones [countZones] visits, in the order of its visit: those of
    the sampler nodes reached through composite nodes. *)
Fixpoint samplerZones (n : Node) : list Zone :=
  match n with
  | Sampler (Some zones) => zones
  | Composite (Some children) =>
      (fix each (l : list (option Node)) : list Zone :=
         match l with
         | [] => []
         | Some child :: rest => samplerZones child ++ each rest
         | None :: rest => each rest
         end) children
  | _ => []
  end.

(** What [JSON.parse] gives for a file, read as a preset document: an
    index document has a [name] and none of the other fields. *)
Definition parse (c : FileData) : option PresetData :=
  match c with
  | Unparseable => None
  | PresetFile data => Some data
  | IndexFile doc =>
      Some {| name := Some (ix_name doc); category := None; tags := None;
              gmProgram := None; node := None; graph := None |}
  end.

(** [relative(libraryRoot, presetPath).replace(/\\/g, '/')] *)
Definition relPath (rel : list string) : string :=
  Js.string_map (fun c => if Ascii.eqb c "\" then "/"%char else c)
    (Js.join_with "/" rel).

(** [buildPresetEntry]; [None] when it throws. [rel] is the path of the
    file from the library root. *)
Definition buildPresetEntry (rel : list string) (c : FileData) : option PresetEntry :=
  match parse c with
  | None => None
  | Some data =>
      let st0 := {| zoneCount := 0; keyRangeLow := 127; keyRangeHigh := 0 |} in
      let st := match node data, graph data with
                | Some n, _ => countZones n st0
                | None, Some g => countZones g st0
                | None, None => st0
                end in
      Some {| pe_name := name data;
              pe_path := relPath rel;
              pe_category := default "sampler" (Js.truthy_string (category data));
              pe_tags := default [] (tags data);
              pe_gmProgram := match gmProgram data with
                              | Some gm => if gm <? 128 then Some gm else None
                              | None => None
                              end;
              pe_zoneCount := if 0 <? zoneCount st then Some (zoneCount st) else None;
              pe_keyRange := if 0 <? zoneCount st
                             then Some (keyRangeLow st, keyRangeHigh st) else None |}
  end.

(** *** Main *)

Section WithLocale.

(** [a.localeCompare(b)]: negative, zero or positive. *)
Variable localeCompare : string -> string -> Z.

(** the comparison function handed to [presetEntries.sort] *)
Definition compareEntries (a b : PresetEntry) : Z :=
  let catCmp := localeCompare (pe_category a) (pe_category b) in
  if negb (catCmp =? 0) then catCmp
  else localeCompare (default "" (pe_name a)) (default "" (pe_name b)).

(** [presetEntries.sort(...)]. The sort is stable; with a comparison that
    is a total preorder, as [localeCompare] is, every stable sort gives this
    list. *)
Definition sortEntries (l : list PresetEntry) : list PresetEntry :=
  Js.sort_by (fun a b => compareEntries a b <? 0) l.

(** The loop over [presetFiles]: the entries built and the number of
    files that could not be read. *)
Fixpoint buildEntries (files : list (list string * FileData)) : list PresetEntry * Z :=
  match files with
  | [] => ([], 0)
  | (rel, c) :: rest =>
      let '(es, errors) := buildEntries rest in
      match buildPresetEntry rel c with
      | Some e => (e :: es, errors)
      | None => (es, errors + 1)
      end
  end.

Definition displayName (libraryName : string) : string :=
  if String.eqb libraryName "_shared" then "Built-in" else spaced libraryName.

Definition libraryIndex (libraryName : string) (presetEntries : list PresetEntry) : IndexDoc :=
  {| ix_format := "songwalker-index";
     ix_version := 1;
     ix_name := displayName libraryName;
     ix_description :=
       (if String.eqb libraryName "_shared"
        then "Built-in oscillator synths and effects — "
        else displayName libraryName +:+ " soundfont — ")
       +:+ Js.show (Z.of_nat (length presetEntries)) +:+ " presets";
     ix_entries := map EPreset presetEntries |}.

Definition libraryRef (libraryName : string) (presetEntries : list PresetEntry) : LibraryRef :=
  {| lr_name := displayName libraryName;
     lr_path := libraryName +:+ "/index.json";
     lr_description :=
       if String.eqb libraryName "_shared"
       then "Built-in oscillator synths and effects (no samples)"
       else displayName libraryName +:+ " soundfont";
     lr_presetCount := Z.of_nat (length presetEntries) |}.

(** The state of [main]: the tree under [LIBRARY_DIR], the index
    documents written so far (each with the path of its directory), and
    the counters. *)
Record State := {
  tree : Dirents;
  written : list (list string * IndexDoc);
  rootEntries : list LibraryRef;
  totalPresets : Z;
  totalErrors : Z;
}.

(** the sorted entries of a library directory and its error count *)
Definition scan (entries : Dirents) : list PresetEntry * Z :=
  let '(es, errors) := buildEntries (findPresetFiles [] (Dir entries)) in
  (sortEntries es, errors).

(** One turn of the loop over the libraries; [None] when a file-system
    call outside the [try] throws. *)
Definition library_step (libraryName : string) (st : State) : option State :=
  match lookup_child libraryName (tree st) with
  | Some (Dir entries) =>
      let '(presetEntries, errors) := scan entries in
      let doc := libraryIndex libraryName presetEntries in
      match write_child "index.json" (IndexFile doc) entries with
      | Some entries' =>
          Some {| tree := replace_child libraryName (Dir entries') (tree st);
                  written := written st ++ [([libraryName], doc)];
                  rootEntries := rootEntries st ++ [libraryRef libraryName presetEntries];
                  totalPresets := totalPresets st + Z.of_nat (length presetEntries);
                  totalErrors := totalErrors st + errors |}
      | None => None
      end
  | _ => None
  end.

Fixpoint library_loop (libs : list string) (st : State) : option State :=
  match libs with
  | [] => Some st
  | libraryName :: rest =>
      match library_step libraryName st with
      | Some st' => library_loop rest st'
      | None => None
      end
  end.

(** [e.isDirectory() && !SKIP_DIRS.has(e.name)] *)
Definition isLibrary (e : string * FsNode) : bool :=
  isDirectory (snd e) && negb (existsb (String.eqb (fst e)) SKIP_DIRS).

(** the top-level directories outside the skip list, sorted *)
Definition topLevel (root : Dirents) : list string :=
  Js.sort_strings (map fst (List.filter isLibrary root)).

(** [main()] on the listing of [LIBRARY_DIR]. *)
Definition main (root : Dirents) : option State :=
  match library_loop (topLevel root)
          {| tree := root; written := []; rootEntries := [];
             totalPresets := 0; totalErrors := 0 |} with
  | Some st =>
      let doc := rootIndex (rootEntries st) in
      match write_child "index.json" (IndexFile doc) (tree st) with
      | Some tree' =>
          Some {| tree := tree';
                  written := written st ++ [([], doc)];
                  rootEntries := rootEntries st;
                  totalPresets := totalPresets st;
                  totalErrors := totalErrors st |}
      | None => None
      end
  | None => None
  end.

End WithLocale.

(** *** Well-formed trees *)

(** a text free of both separators *)
Definition plain (s : string) : bool :=
  Js.string_forallb (fun c => negb (Ascii.eqb c "/") && negb (Ascii.eqb c "\")) s.

(** A file name: not empty, and free of both separators. *)
Definition name_ok (nm : string) : bool :=
  negb (String.eqb nm "") && plain nm.

Fixpoint distinct (l : list string) : bool :=
  match l with
  | [] => true
  | x :: rest => negb (existsb (String.eqb x) rest) && distinct rest
  end.

(** Every directory lists valid names, each once. *)
Fixpoint wf_node (n : FsNode) : bool :=
  match n with
  | File _ => true
  | Dir entries =>
      distinct (map fst entries)
      && forallb (fun e => name_ok (fst e)) entries
      && (fix all (l : Dirents) : bool :=
            match l with
            | [] => true
            | (_, x) :: rest => wf_node x && all rest
            end) entries
  end.

Definition wf (root : Dirents) : bool := wf_node (Dir root).

(** *** Notions for the properties of the Indexer *)

(** a file lies at the path *)
Definition is_file (p : list string) (t : Dirents) : Prop :=
  exists c, lookup_path p t = Some (File c).

(** the path of an entry leads to a file, from the directory [dir] *)
Definition resolves (t : Dirents) (dir : list string) (path : string) : Prop :=
  is_file (dir ++ Js.split_on "/" "" path) t.

(** The invariant of the loop over the libraries. *)
Definition indexes_ok (st : State) : Prop :=
  wf (tree st) = true
  /\ (forall dir doc,
        In (dir, doc) (written st) ->
        Forall (fun e => resolves (tree st) dir (entry_path e)) (ix_entries doc))
  /\ Forall (fun ref => resolves (tree st) [] (lr_path ref)) (rootEntries st).

(** what a turn of the loop reads of the tree for a library *)
Definition scanned (localeCompare : string -> string -> Z) (t : Dirents)
    (nm : string) : option (list PresetEntry * Z) :=
  match lookup_child nm t with
  | Some (Dir e) => Some (scan localeCompare e)
  | _ => None
  end.

(** the index of the library is in place: writing it changes nothing *)
Definition stable (localeCompare : string -> string -> Z) (t : Dirents)
    (nm : string) : Prop :=
  exists e,
    lookup_child nm t = Some (Dir e)
    /\ write_child "index.json"
         (IndexFile (libraryIndex nm (fst (scan localeCompare e)))) e
       = Some e.

(** the state with another tree *)
Definition with_tree (t : Dirents) (st : State) : State :=
  {| tree := t; written := written st; rootEntries := rootEntries st;
     totalPresets := totalPresets st; totalErrors := totalErrors st |}.

(** no directory stands where an index document goes *)
Definition index_free (d : Dirents) : Prop :=
  forall e, lookup_child "index.json" d <> Some (Dir e).

(** the root and its directories can take their index documents *)
Definition writable (root : Dirents) : Prop :=
  index_free root
  /\ forall nm e, lookup_child nm root = Some (Dir e) -> index_free e.

(** the locale-independent comparison of code units *)
Definition codeUnitCompare (a b : string) : Z :=
  match String.compare a b with
  | Lt => -1
  | Eq => 0
  | Gt => 1
  end.

(** *** Notions for further properties of the Indexer *)

(** What a path leads to, leaving out the listing of a directory: nothing,
    a directory, or a file with its content. *)
Definition kind (n : option FsNode) : option (option FileData) :=
  match n with
  | None => None
  | Some (Dir _) => Some None
  | Some (File c) => Some (Some c)
  end.

(** the path of an index document the Indexer writes: the root index, or
    the index of one of the libraries *)
Definition index_path (libs : list string) (p : list string) : Prop :=
  p = ["index.json"] \/ exists lib, In lib libs /\ p = [lib; "index.json"].

(** the zones [buildPresetEntry] counts in a preset document *)
Definition zonesOf (data : PresetData) : list Zone :=
  match node data, graph data with
  | Some n, _ => samplerZones n
  | None, Some g => samplerZones g
  | None, None => []
  end.

(** the files called [preset.json] below a library of the tree *)
Definition presetFilesOf (root : Dirents) (libraryName : string)
    : list (list string * FileData) :=
  match lookup_child libraryName root with
  | Some (Dir entries) => findPresetFiles [] (Dir entries)
  | _ => []
  end.

(** [localeCompare] orders the strings: it is antisymmetric in its sign and
    transitive. *)
Definition orders (localeCompare : string -> string -> Z) : Prop :=
  (forall a b, localeCompare a b < 0 <-> 0 < localeCompare b a)
  /\ (forall a b c, localeCompare a b <= 0 -> localeCompare b c <= 0 ->
                    localeCompare a c <= 0).

(** What the loop over the libraries has written so far is in the tree:
    each index document is the file [index.json] of its library. *)
Definition placed (localeCompare : string -> string -> Z) (st : State) : Prop :=
  forall dir doc,
    In (dir, doc) (written st) ->
    exists nm e,
      dir = [nm]
      /\ lookup_child nm (tree st) = Some (Dir e)
      /\ doc = libraryIndex nm (fst (scan localeCompare e))
      /\ lookup_child "index.json" e = Some (File (IndexFile doc)).

(** the result of the scan of a library of the tree: its sorted entries and
    its number of errors *)
Definition result (localeCompare : string -> string -> Z) (t : Dirents) (nm : string)
    : list PresetEntry * Z :=
  default ([], 0) (scanned localeCompare t nm).

(** What holds of every entry of a library index the Indexer writes. *)
Definition index_entry_valid (pe : PresetEntry) : Prop :=
  pe_category pe <> ""
  /\ (forall gm, pe_gmProgram pe = Some gm -> gm < 128)
  /\ match pe_zoneCount pe, pe_keyRange pe with
     | Some zoneCount, Some (low, high) => 1 <= zoneCount /\ low <= 127 /\ 0 <= high
     | None, None => True
     | _, _ => False
     end.

End Indexer.

(** ** Sample inputs *)

Module Samples.
Import Converter.

(** a zone with no field at all *)
Definition bare : Zone :=
  {| z_file := None; z_sample := None; z_midi := None;
     z_originalPitch := None; z_coarseTune := None; z_fineTune := None;
     z_keyRangeLow := None; z_keyRangeHigh := None; z_sampleRate := None;
     z_loopStart := None; z_loopEnd := None |}.

(** the zone with a compressed payload in its [file] field, base64 encoded *)
Definition with_file (payload : string) (z : Zone) : Zone :=
  {| z_file := Some payload; z_sample := z_sample z; z_midi := z_midi z;
     z_originalPitch := z_originalPitch z;
     z_coarseTune := z_coarseTune z; z_fineTune := z_fineTune z;
     z_keyRangeLow := z_keyRangeLow z; z_keyRangeHigh := z_keyRangeHigh z;
     z_sampleRate := z_sampleRate z;
     z_loopStart := z_loopStart z; z_loopEnd := z_loopEnd z |}.

Definition with_midi (m : Z) (z : Zone) : Zone :=
  {| z_file := z_file z; z_sample := z_sample z; z_midi := Some m;
     z_originalPitch := z_originalPitch z;
     z_coarseTune := z_coarseTune z; z_fineTune := z_fineTune z;
     z_keyRangeLow := z_keyRangeLow z; z_keyRangeHigh := z_keyRangeHigh z;
     z_sampleRate := z_sampleRate z;
     z_loopStart := z_loopStart z; z_loopEnd := z_loopEnd z |}.

(** the zone of the specification's end-to-end example *)
Definition piano_zone : Zone :=
  {| z_file := Some "SUQzAAAA"; z_sample := None; z_midi := None;
     z_originalPitch := None; z_coarseTune := None; z_fineTune := None;
     z_keyRangeLow := Some 21; z_keyRangeHigh := Some 108; z_sampleRate := None;
     z_loopStart := Some 10000; z_loopEnd := Some 20000 |}.

Definition real_run : Config :=
  {| OUTPUT_DIR := "library-output"; DRY_RUN := false; LIMIT := None |}.

Definition dry_run : Config :=
  {| OUTPUT_DIR := "library-output"; DRY_RUN := true; LIMIT := None |}.

Definition names : list string := ["Acoustic Grand Piano: Piano"].

Definition only_instruments (files : list SrcFile) : Source :=
  {| instrumentNames := Some names; i_dir := Some files; p_dir := None |}.

Definition only_percussion (files : list SrcFile) : Source :=
  {| instrumentNames := Some names; i_dir := None; p_dir := Some files |}.

(** the same payload in the instruments of two libraries *)
Definition two_libraries : Source :=
  only_instruments
    [ {| f_name := "0000_FluidR3_GM_sf2_file.json"; f_data := Some [piano_zone] |};
      {| f_name := "0000_Chaos_sf2_file.json"; f_data := Some [piano_zone] |} ].

(** two payloads of one instrument, with the same root note *)
Definition same_note : Source :=
  only_instruments
    [ {| f_name := "0000_FluidR3_GM_sf2_file.json";
         f_data := Some [with_file "SUQzAAAA" bare; with_file "SUQzAAAB" bare] |} ].

(** an instrument whose only zone has no audio *)
Definition silent : Source :=
  only_instruments
    [ {| f_name := "0000_FluidR3_GM_sf2_file.json"; f_data := Some [bare] |} ].

(** a file of [p/] whose zone is marked with the percussion channel *)
Definition drum : Source :=
  only_percussion
    [ {| f_name := "35_0_Chaos_sf2_file.json";
         f_data := Some [with_midi 128 (with_file "SUQzAAAA" bare)] |} ].

(** a file of [p/] whose zone carries no channel *)
Definition unmarked_drum : Source :=
  only_percussion
    [ {| f_name := "35_0_Chaos_sf2_file.json";
         f_data := Some [with_file "SUQzAAAA" bare] |} ].

(** a file of [i/] whose zone is marked with the percussion channel *)
Definition marked_instrument : Source :=
  only_instruments
    [ {| f_name := "0000_Chaos_sf2_file.json";
         f_data := Some [with_midi 128 (with_file "SUQzAAAA" bare)] |} ].

(** *** A library tree for the Indexer *)

Definition preset_file (nm cat : string) (range : Z * Z) : Indexer.FsNode :=
  Indexer.File
    (Indexer.PresetFile
       {| Indexer.name := Some nm;
          Indexer.category := Some cat;
          Indexer.tags := Some ["melodic"];
          Indexer.gmProgram := Some 0;
          Indexer.node :=
            Some (Indexer.Sampler (Some [ {| Indexer.keyRange := Some range |} ]));
          Indexer.graph := None |}).

Definition library_tree : list (string * Indexer.FsNode) :=
  [ (".git", Indexer.Dir []);
    ("FluidR3_GM",
     Indexer.Dir
       [ ("instruments",
          Indexer.Dir
            [ ("piano",
               Indexer.Dir
                 [ ("Acoustic_Grand_Piano",
                    Indexer.Dir
                      [ ("preset.json", preset_file "Acoustic Grand Piano" "sampler" (21, 108));
                        ("zone_C4.mp3", Indexer.File Indexer.Unparseable) ]);
                   ("Bright_Acoustic_Piano",
                    Indexer.Dir
                      [ ("preset.json", Indexer.File Indexer.Unparseable) ]) ]) ]) ]);
    ("_shared",
     Indexer.Dir
       [ ("synths",
          Indexer.Dir
            [ ("Sine", Indexer.Dir [ ("preset.json", preset_file "Sine" "synth" (0, 127)) ]) ]) ]);
    ("README.md", Indexer.File Indexer.Unparseable) ].

(** *** Further sample inputs *)

(** a run that stops after one preset *)
Definition limited : Config :=
  {| OUTPUT_DIR := "library-output"; DRY_RUN := false; LIMIT := Some 1 |}.

(** a zone with a raw sample, a key range and no loop *)
Definition raw_zone : Zone :=
  {| z_file := None; z_sample := Some "AAEC"; z_midi := None;
     z_originalPitch := Some 7200; z_coarseTune := None; z_fineTune := Some 25;
     z_keyRangeLow := Some 60; z_keyRangeHigh := None; z_sampleRate := Some 22050;
     z_loopStart := None; z_loopEnd := None |}.

(** an instrument of [i/] with two zones, and a file that cannot be read *)
Definition two_zones : Source :=
  {| instrumentNames := Some names;
     i_dir := Some [ {| f_name := "0000_FluidR3_GM_sf2_file.json";
                        f_data := Some [piano_zone; bare; raw_zone] |};
                     {| f_name := "0001_Chaos_sf2.json"; f_data := None |};
                     {| f_name := "notes.txt"; f_data := Some [piano_zone] |} ];
     p_dir := Some [ {| f_name := "35_0_Chaos_sf2_file.json";
                        f_data := Some [with_midi 128 (with_file "SUQzAAAA" bare)] |} ] |}.

(** a preset document with a composite node: two samplers, one of them
    with a zone that has no key range *)
Definition layered : Indexer.PresetData :=
  {| Indexer.name := Some "Layered";
     Indexer.category := None;
     Indexer.tags := None;
     Indexer.gmProgram := Some 128;
     Indexer.node :=
       Some (Indexer.Composite
               (Some [ Some (Indexer.Sampler
                               (Some [ {| Indexer.keyRange := Some (36, 59) |};
                                       {| Indexer.keyRange := None |} ]));
                       None;
                       Some (Indexer.Sampler
                               (Some [ {| Indexer.keyRange := Some (60, 96) |} ])) ]));
     Indexer.graph := None |}.

End Samples.

(** * Properties *)

(** ** The decoder and the digest on known values *)

Example base64_decodes_Man : Base64.decode "TWFu" = Js.bytes "Man".
Proof. vm_compute. reflexivity. Qed.

Example base64_decodes_padded :
  Base64.decode "TWE=" = Js.bytes "Ma" /\ Base64.decode "TQ==" = Js.bytes "M".
Proof. split; vm_compute; reflexivity. Qed.

Example base64_skips_white_space : Base64.decode "TW Fu" = Js.bytes "Man".
Proof. vm_compute. reflexivity. Qed.

Example sha256_of_nothing :
  Sha256.digest_hex []
  = "e3b0c44298fc1c149afbf4c8996fb92427ae41e4649b934ca495991b7852b855".
Proof. vm_compute. reflexivity. Qed.

Example sha256_of_abc :
  Sha256.digest_hex (Js.bytes "abc")
  = "ba7816bf8f01cfea414140de5dae2223b00361a396177a9cb410ff61f20015ad".
Proof. vm_compute. reflexivity. Qed.

Example sha256_of_two_blocks :
  Sha256.digest_hex (Js.bytes "abcdbcdecdefdefgefghfghighijhijkijkljklmklmnlmnomnopnopq")
  = "248d6a61d20638b8e5c026930c3e6039a33ce45964ff2167f6ecedd419db06c1".
Proof. vm_compute. reflexivity. Qed.

(** ** Pitch normalisation *)

Section Pitch.
Import Converter.

Lemma derive_rederive (d : Z) :
  derive (100 * fst (derive d) + snd (derive d)) = derive d.
Proof.
  unfold derive; cbn [fst snd].
  assert (Hrange : 0 <= Z.max 0 (Z.min 127 (d / 100)) <= 127) by lia.
  assert (Hrem : Z.rem d 100 = d - 100 * Z.quot d 100)
    by (pose proof (Z.quot_rem' d 100); lia).
  destruct (Z.lt_ge_cases d 0) as [Hneg | Hpos].
  - (* below the MIDI range: the root is clamped to 0 and the cents are
       the whole (negative) remainder *)
    assert (Hroot : Z.max 0 (Z.min 127 (d / 100)) = 0)
      by (Z.to_euclidean_division_equations; lia).
    assert (Hcents : -100 < Z.rem d 100 <= 0)
      by (Z.to_euclidean_division_equations; lia).
    rewrite Hroot. f_equal.
    + Z.to_euclidean_division_equations; lia.
    + rewrite Z.rem_small_iff by lia. lia.
  - assert (Hcents : 0 <= Z.rem d 100 < 100)
      by (Z.to_euclidean_division_equations; lia).
    f_equal.
    + Z.to_euclidean_division_equations; lia.
    + Z.to_euclidean_division_equations; lia.
Qed.

End Pitch.

(** C6. Pitch normalisation is idempotent under re-derivation: for every
    zone, rebuilding [baseDetune] as [100 * rootNote + fineTuneCents] from
    the pair [normalizePitch] yields, and deriving the pair again (the
    floor of the quotient clamped to 0..127, and the remainder by 100),
    gives the same pair. *)
Theorem C6_pitch_rederivation (zone : Converter.Zone) :
  let '(rootNote, fineTuneCents) := Converter.normalizePitch zone in
  Converter.derive (100 * rootNote + fineTuneCents) = (rootNote, fineTuneCents).
Proof.
  unfold Converter.normalizePitch.
  pose proof (derive_rederive (Converter.baseDetune zone)) as H.
  destruct (Converter.derive (Converter.baseDetune zone)) as [rootNote fineTuneCents].
  exact H.
Qed.

(** ** Defaults of absent fields *)

(** C10. For every zone the Converter converts, absent or falsy source
    fields are replaced by fixed defaults: a missing [keyRangeLow] becomes
    [low = 0] and a missing [keyRangeHigh] becomes [high = 127] (a value
    that is present, zero included, is kept), a missing or zero
    [sampleRate] becomes 44100, and the pitch is derived as if a missing or
    zero [originalPitch] were 6000 and a missing [coarseTune] or [fineTune]
    were 0. *)
Theorem C10_zone_defaults (cfg : Converter.Config) (zone : Converter.Zone)
    (presetDir : string) (zoneIndex : nat) (w w' : Converter.World)
    (converted : Converter.ConvertedZone) :
  Converter.convertZone cfg zone presetDir zoneIndex w = (Some converted, w') ->
  (Converter.z_keyRangeLow zone = None -> fst (Converter.keyRange converted) = 0)
  /\ (forall v, Converter.z_keyRangeLow zone = Some v ->
                fst (Converter.keyRange converted) = v)
  /\ (Converter.z_keyRangeHigh zone = None -> snd (Converter.keyRange converted) = 127)
  /\ (forall v, Converter.z_keyRangeHigh zone = Some v ->
                snd (Converter.keyRange converted) = v)
  /\ (Converter.z_sampleRate zone = None \/ Converter.z_sampleRate zone = Some 0 ->
      Converter.sampleRate converted = 44100)
  /\ Converter.pitch converted = Converter.normalizePitch zone
  /\ (Converter.z_originalPitch zone = None \/ Converter.z_originalPitch zone = Some 0 ->
      Converter.normalizePitch zone
      = Converter.normalizePitch (Converter.with_originalPitch (Some 6000) zone))
  /\ (Converter.z_coarseTune zone = None ->
      Converter.normalizePitch zone
      = Converter.normalizePitch (Converter.with_coarseTune (Some 0) zone))
  /\ (Converter.z_fineTune zone = None ->
      Converter.normalizePitch zone
      = Converter.normalizePitch (Converter.with_fineTune (Some 0) zone)).
Proof.
  unfold Converter.convertZone.
  destruct (Converter.normalizePitch zone) as [rootNote fineTuneCents] eqn:Hpitch.
  destruct (Converter.extractAudio _ _ _ _ _ _) as [[audioInfo|] w1]; [|discriminate].
  intros [= <- <-]; cbn [Converter.keyRange Converter.sampleRate Converter.pitch fst snd].
  repeat apply conj.
  - intros ->. reflexivity.
  - intros v ->. reflexivity.
  - intros ->. reflexivity.
  - intros v ->. reflexivity.
  - intros [-> | ->]; reflexivity.
  - reflexivity.
  - rewrite <- Hpitch. unfold Converter.normalizePitch, Converter.baseDetune.
    intros [H | H]; cbn; rewrite H; reflexivity.
  - rewrite <- Hpitch. unfold Converter.normalizePitch, Converter.baseDetune.
    intros H; cbn; rewrite H; reflexivity.
  - rewrite <- Hpitch. unfold Converter.normalizePitch, Converter.baseDetune.
    intros H; cbn; rewrite H; reflexivity.
Qed.

(** A zone that carries nothing but its audio gets every default. *)
Lemma C10_zone_defaults_witness :
  exists converted w',
    Converter.convertZone Samples.dry_run (Samples.with_file "SUQzAAAA" Samples.bare)
      "library-output" 0 Converter.empty_world = (Some converted, w')
    /\ Converter.keyRange converted = (0, 127)
    /\ Converter.sampleRate converted = 44100
    /\ Converter.pitch converted = (60, 0).
Proof.
  eexists _, _. split; [vm_compute; reflexivity|].
  pose proof (C10_zone_defaults Samples.dry_run
                (Samples.with_file "SUQzAAAA" Samples.bare)
                "library-output" 0 Converter.empty_world _ _ eq_refl)
    as (Hlow & _ & Hhigh & _ & Hrate & Hpitch & _).
  repeat apply conj.
  - apply injective_projections; [apply Hlow | apply Hhigh]; reflexivity.
  - apply Hrate. left. reflexivity.
  - exact Hpitch.
Defined.

(** ** File names *)

Section Filenames.
Import Converter.

Lemma lazy_library_cons (taken : string) (c : ascii) (s : string) :
  lazy_library taken (String c s)
  = if tail_matches (String c s) then Some taken
    else if Js.is_line_terminator c then None
         else lazy_library (taken +:+ String c EmptyString) s.
Proof. reflexivity. Qed.

Lemma lazy_library_total (lib taken : string) :
  no_line_terminator lib = true ->
  exists library, lazy_library taken (lib +:+ ".json") = Some library.
Proof.
  revert taken. induction lib as [|c lib IH]; intros taken Hok.
  - exists taken. reflexivity.
  - change (String c lib +:+ ".json") with (String c (lib +:+ ".json")).
    rewrite lazy_library_cons.
    destruct (tail_matches (String c (lib +:+ ".json"))); [eauto|].
    cbn in Hok. apply andb_true_iff in Hok as [Hc Hok].
    apply negb_true_iff in Hc. rewrite Hc. auto.
Qed.

Lemma library_and_tail_total (lib : string) :
  lib <> "" -> no_line_terminator lib = true ->
  exists library, library_and_tail (lib +:+ ".json") = Some library.
Proof.
  destruct lib as [|c lib]; [congruence|]. intros _ Hok.
  cbn in Hok. apply andb_true_iff in Hok as [Hc Hok].
  apply negb_true_iff in Hc.
  change (String c lib +:+ ".json") with (String c (lib +:+ ".json")).
  cbn [library_and_tail]. rewrite Hc.
  apply lazy_library_total, Hok.
Qed.

Lemma four_digits_read_back (code : Z) :
  0 <= code <= 9999 ->
  exists d1 d2 d3 d4,
    four_digits code = String d1 (String d2 (String d3 (String d4 EmptyString)))
    /\ Js.is_digit d1 && Js.is_digit d2 && Js.is_digit d3 && Js.is_digit d4 = true
    /\ Js.parseInt (String d1 (String d2 (String d3 (String d4 EmptyString)))) = code.
Proof.
  intros Hcode.
  assert (Hall : forallb code_reads_back (seq 0 (Z.to_nat 10000)) = true)
    by (vm_compute; reflexivity).
  rewrite forallb_forall in Hall.
  specialize (Hall (Z.to_nat code)).
  assert (Hin : In (Z.to_nat code) (seq 0 (Z.to_nat 10000))) by (apply in_seq; lia).
  specialize (Hall Hin). unfold code_reads_back in Hall.
  rewrite Z2Nat.id in Hall by lia.
  exists (digit (code / 1000 mod 10)), (digit (code / 100 mod 10)),
         (digit (code / 10 mod 10)), (digit (code mod 10)).
  unfold four_digits in *.
  apply andb_true_iff in Hall as [Hdigits Hvalue].
  apply Z.eqb_eq in Hvalue. auto.
Qed.

Lemma parse_four_digit_name (code : Z) (lib : string) :
  0 <= code <= 9999 -> lib <> "" -> no_line_terminator lib = true ->
  exists library,
    parseInstrumentFilename (four_digits code +:+ "_" +:+ lib +:+ ".json")
    = Some {| i_gmProgram := code / 10; i_variant := code mod 10; i_library := library |}.
Proof.
  intros Hcode Hlib Hok.
  destruct (four_digits_read_back code Hcode) as (d1 & d2 & d3 & d4 & -> & Hdigits & Hvalue).
  destruct (library_and_tail_total lib Hlib Hok) as [library Hlibrary].
  exists library.
  change (String d1 (String d2 (String d3 (String d4 "")))
          +:+ "_" +:+ lib +:+ ".json")
    with (String d1 (String d2 (String d3 (String d4
            (String "_" (lib +:+ ".json")))))).
  cbn [parseInstrumentFilename].
  rewrite Hdigits.
  change (Ascii.eqb "_" "_") with true. cbn [andb].
  rewrite Hlibrary, Hvalue.
  rewrite Z.rem_mod_nonneg by lia. reflexivity.
Qed.

End Filenames.

(** C9. For every melodic file name [{code}_{lib}.json] with a four-digit
    code (in particular every code of 0..1279), parsing decodes the GM
    program as [code / 10] rounded down and the variant as [code mod 10];
    a program below 128 is exactly a code of at most 1279. A file whose name
    does not match the pattern, or whose program is 128 or more, is skipped
    silently: the turn of the loop leaves the whole state of the run as it
    was, so nothing is converted, written or counted as an error. *)
Theorem C9_filename_decoding :
  (forall (code : Z) (lib : string),
      0 <= code <= 9999 -> lib <> "" -> Converter.no_line_terminator lib = true ->
      (exists library,
          Converter.parseInstrumentFilename
            (Converter.four_digits code +:+ "_" +:+ lib +:+ ".json")
          = Some {| Converter.i_gmProgram := code / 10;
                    Converter.i_variant := code mod 10;
                    Converter.i_library := library |})
      /\ (code / 10 < 128 <-> code <= 1279))
  /\ (forall (cfg : Converter.Config) (names : list string)
             (file : Converter.SrcFile) (r : Converter.Run),
        (Converter.parseInstrumentFilename (Converter.f_name file) = None
         \/ exists info,
              Converter.parseInstrumentFilename (Converter.f_name file) = Some info
              /\ 128 <= Converter.i_gmProgram info) ->
        Converter.instrument_step cfg names file r = r).
Proof.
  split.
  - intros code lib Hcode Hlib Hok. split.
    + apply parse_four_digit_name; assumption.
    + Z.to_euclidean_division_equations; lia.
  - intros cfg names file r [Hnone | (info & Hsome & Hgm)];
      unfold Converter.instrument_step.
    + rewrite Hnone. reflexivity.
    + rewrite Hsome. apply Z.leb_le in Hgm. rewrite Hgm. reflexivity.
Qed.

(** The code 0427 decodes to program 42, variant 7; a name outside the
    pattern and the code 1280 (program 128) are passed over. *)
Lemma C9_filename_decoding_witness :
  (exists library,
      Converter.parseInstrumentFilename "0427_Chaos_sf2_file.json"
      = Some {| Converter.i_gmProgram := 42; Converter.i_variant := 7;
                Converter.i_library := library |})
  /\ Converter.instrument_step Samples.real_run Samples.names
       {| Converter.f_name := "notes.json"; Converter.f_data := Some [Samples.piano_zone] |}
       (Converter.initial_run Samples.real_run)
     = Converter.initial_run Samples.real_run
  /\ Converter.instrument_step Samples.real_run Samples.names
       {| Converter.f_name := "1280_Chaos_sf2_file.json";
          Converter.f_data := Some [Samples.piano_zone] |}
       (Converter.initial_run Samples.real_run)
     = Converter.initial_run Samples.real_run.
Proof.
  destruct C9_filename_decoding as [Hdecode Hskip].
  split; [|split].
  - destruct (Hdecode 427 "Chaos_sf2_file" ltac:(lia) ltac:(discriminate) eq_refl)
      as [[library Hparse] _].
    exists library. exact Hparse.
  - apply Hskip. left. reflexivity.
  - apply Hskip. right. eexists. split; [reflexivity|]. vm_compute. discriminate.
Defined.

(** ** Dry runs *)

Section DryRun.
Import Converter.

Variable cfg : Config.

Lemma computed_perform (op : FsOp) (w : World) :
  computed (perform op w) = computed w.
Proof. reflexivity. Qed.

Lemma computed_record_hash (hashKey fname : string) (w : World) :
  computed (record_hash hashKey fname w) = record_hash hashKey fname (computed w).
Proof.
  unfold record_hash; cbn [computed audioHashes].
  destruct (audioHashes w !! hashKey); reflexivity.
Qed.

Lemma extractAudio_dry zone presetDir zoneIndex noteName (w : World) :
  extractAudio (dry cfg) zone presetDir zoneIndex noteName (computed w)
  = (fst (extractAudio cfg zone presetDir zoneIndex noteName w),
     computed (snd (extractAudio cfg zone presetDir zoneIndex noteName w))).
Proof.
  unfold extractAudio.
  destruct (audioData zone) as [data|]; [|reflexivity].
  cbn [dry DRY_RUN fst snd].
  rewrite <- computed_record_hash.
  destruct (DRY_RUN cfg); reflexivity.
Qed.

Lemma convertZone_dry zone presetDir zoneIndex (w : World) :
  convertZone (dry cfg) zone presetDir zoneIndex (computed w)
  = (fst (convertZone cfg zone presetDir zoneIndex w),
     computed (snd (convertZone cfg zone presetDir zoneIndex w))).
Proof.
  unfold convertZone.
  destruct (normalizePitch zone) as [rootNote fineTuneCents].
  rewrite extractAudio_dry.
  destruct (extractAudio cfg zone presetDir zoneIndex _ w) as [[audioInfo|] w1];
    reflexivity.
Qed.

Lemma convertZones_dry zones presetDir (i : nat) (w : World) :
  convertZones (dry cfg) zones presetDir i (computed w)
  = (fst (convertZones cfg zones presetDir i w),
     computed (snd (convertZones cfg zones presetDir i w))).
Proof.
  revert i w. induction zones as [|zone rest IH]; intros i w; [reflexivity|].
  cbn [convertZones].
  rewrite convertZone_dry.
  destruct (convertZone cfg zone presetDir i w) as [z w1]; cbn [fst snd].
  rewrite IH.
  destruct (convertZones cfg rest presetDir (S i) w1) as [zs w2]; reflexivity.
Qed.

Lemma convertInstrument_dry data gm instrumentName libraryName variant (w : World) :
  convertInstrument (dry cfg) data gm instrumentName libraryName variant (computed w)
  = (fst (convertInstrument cfg data gm instrumentName libraryName variant w),
     computed (snd (convertInstrument cfg data gm instrumentName libraryName variant w))).
Proof.
  unfold convertInstrument.
  destruct data as [[|zone zones]|]; try reflexivity.
  cbn [dry DRY_RUN].
  change (presetPath (dry cfg)) with (presetPath cfg).
  set (dir := presetPath cfg _ gm instrumentName libraryName).
  set (w1 := if DRY_RUN cfg then w else perform (Mkdir dir) w).
  assert (Hw1 : computed w = computed w1) by (subst w1; destruct (DRY_RUN cfg); reflexivity).
  rewrite Hw1, convertZones_dry.
  destruct (convertZones cfg (zone :: zones) dir 0 w1) as [[|cz czs] w2];
    cbn [fst snd]; [reflexivity|].
  change (summaryEntry (dry cfg)) with (summaryEntry cfg).
  destruct (DRY_RUN cfg); reflexivity.
Qed.

Lemma settle_dry retag (r : Run) (res : Outcome * World) :
  settle retag (computed_run r) (fst res, computed (snd res))
  = computed_run (settle retag r res).
Proof. destruct res as [[|[entry|]] w]; reflexivity. Qed.

Lemma instrument_step_dry names file (r : Run) :
  instrument_step (dry cfg) names file (computed_run r)
  = computed_run (instrument_step cfg names file r).
Proof.
  unfold instrument_step.
  destruct (parseInstrumentFilename (f_name file)) as [info|]; [|reflexivity].
  destruct (128 <=? i_gmProgram info); [reflexivity|].
  cbn [computed_run world]. rewrite convertInstrument_dry. apply settle_dry.
Qed.

Lemma percussion_step_dry file (r : Run) :
  percussion_step (dry cfg) file (computed_run r)
  = computed_run (percussion_step cfg file r).
Proof.
  unfold percussion_step.
  destruct (parsePercussionFilename (f_name file)) as [info|]; [|reflexivity].
  cbn [computed_run world]. rewrite convertInstrument_dry. apply settle_dry.
Qed.

Lemma convert_files_dry (step step' : SrcFile -> Run -> Run) files (r : Run) :
  (forall file r, step' file (computed_run r) = computed_run (step file r)) ->
  convert_files (dry cfg) step' files (computed_run r)
  = computed_run (convert_files cfg step files r).
Proof.
  intros Hstep. revert r. induction files as [|file rest IH]; intros r; [reflexivity|].
  cbn [convert_files].
  change (limit_reached (dry cfg) (computed_run r)) with (limit_reached cfg r).
  destruct (limit_reached cfg r); [reflexivity|].
  rewrite Hstep. apply IH.
Qed.

Lemma convert_dir_dry (step step' : SrcFile -> Run -> Run) dir (r : Run) :
  (forall file r, step' file (computed_run r) = computed_run (step file r)) ->
  convert_dir (dry cfg) step' dir (computed_run r)
  = computed_run (convert_dir cfg step dir r).
Proof.
  intros Hstep. destruct dir as [files|]; [|reflexivity].
  apply convert_files_dry, Hstep.
Qed.

Lemma write_library_indexes_dry libs (w : World) roots :
  write_library_indexes (dry cfg) libs (computed w) roots
  = (computed (fst (write_library_indexes cfg libs w roots)),
     snd (write_library_indexes cfg libs w roots)).
Proof.
  revert w roots. induction libs as [|[libraryName entries] rest IH]; intros w roots;
    [reflexivity|].
  cbn [write_library_indexes dry DRY_RUN].
  rewrite <- IH. f_equal.
  destruct (DRY_RUN cfg); reflexivity.
Qed.

Lemma main_dry (src : Source) :
  main (dry cfg) src = option_map computed_result (main cfg src).
Proof.
  unfold main.
  destruct (instrumentNames src) as [names|]; [|reflexivity].
  assert (H0 : initial_run (dry cfg) = computed_run (initial_run cfg))
    by (unfold initial_run; cbn [dry DRY_RUN]; destruct (DRY_RUN cfg); reflexivity).
  rewrite H0.
  rewrite (convert_dir_dry (instrument_step cfg names)) by apply instrument_step_dry.
  rewrite (convert_dir_dry (percussion_step cfg)) by apply percussion_step_dry.
  set (r2 := convert_dir cfg (percussion_step cfg) (p_dir src) _).
  cbn [computed_run world entriesByLibrary convertedCount errorCount].
  rewrite write_library_indexes_dry.
  destruct (write_library_indexes cfg (entriesByLibrary r2) (world r2) []) as [w roots].
  cbn [fst snd option_map dry DRY_RUN].
  destruct (DRY_RUN cfg); reflexivity.
Qed.

End DryRun.

(** C7. For every input, a run with [--dry-run] writes nothing to the file
    system: no directory, no audio file, no preset document, no library
    index, no root index. It still computes everything: the entries, the
    counters of conversions and errors, the dedup table and its counter,
    and the root entries are those of the run without the flag. *)
Theorem C7_dry_run_writes_nothing (cfg : Converter.Config) (src : Converter.Source) :
  (Converter.DRY_RUN cfg = true ->
   forall res, Converter.main cfg src = Some res ->
               Converter.disk (Converter.world (Converter.final res)) = [])
  /\ Converter.main (Converter.dry cfg) src
     = option_map Converter.computed_result (Converter.main cfg src).
Proof.
  split; [|apply main_dry].
  intros Hdry res Hres.
  assert (Hcfg : cfg = Converter.dry cfg) by (destruct cfg; cbn in Hdry; subst; reflexivity).
  rewrite Hcfg, main_dry in Hres.
  destruct (Converter.main cfg src) as [res'|]; [|discriminate].
  injection Hres as <-. reflexivity.
Qed.

(** The dry run over the two libraries ends with an empty disk, and with
    the two entries and the duplicate the real run counts. *)
Lemma C7_dry_run_writes_nothing_witness :
  Converter.DRY_RUN Samples.dry_run = true
  /\ exists res,
       Converter.main Samples.dry_run Samples.two_libraries = Some res
       /\ Converter.disk (Converter.world (Converter.final res)) = []
       /\ Converter.convertedCount (Converter.final res) = 2
       /\ Converter.totalDedupSaved (Converter.world (Converter.final res)) = 1.
Proof.
  split; [reflexivity|].
  destruct (C7_dry_run_writes_nothing Samples.dry_run Samples.two_libraries) as [Hnothing _].
  eexists. split; [vm_compute; reflexivity|].
  split; [|split; reflexivity].
  apply Hnothing; [reflexivity|]. vm_compute. reflexivity.
Defined.

(** ** Audio blobs *)

Section Blobs.
Import Converter.

(** The dedup check: the first producer of a hash sets the recorded file
    name; a later one only raises the two counters. *)
Lemma record_hash_first (hashKey fname : string) (w : World) :
  audioHashes w !! hashKey = None ->
  audioHashes (record_hash hashKey fname w) !! hashKey
  = Some {| he_filename := fname; he_count := 1 |}
  /\ totalDedupSaved (record_hash hashKey fname w) = totalDedupSaved w.
Proof.
  intros Hnew. unfold record_hash. rewrite Hnew. cbn.
  split; [apply lookup_insert_eq | reflexivity].
Qed.

Lemma record_hash_repeat (hashKey fname : string) (w : World) (e : HashEntry) :
  audioHashes w !! hashKey = Some e ->
  audioHashes (record_hash hashKey fname w) !! hashKey
  = Some {| he_filename := he_filename e; he_count := he_count e + 1 |}
  /\ totalDedupSaved (record_hash hashKey fname w) = totalDedupSaved w + 1.
Proof.
  intros Hseen. unfold record_hash. rewrite Hseen. cbn.
  split; [apply lookup_insert_eq | reflexivity].
Qed.

End Blobs.

(** C1, on the code: the payload of a repeated hash is written again. With
    the same payload in the instruments of two libraries, the run stores two
    audio files with the same bytes while it counts one duplicate and one
    hash; with two payloads of one instrument on the same root note, the
    second write replaces the file of the first. *)
Theorem C1_repeated_payload_written_again :
  option_map (fun res => (Converter.audio_writes (Converter.world (Converter.final res)),
                          Converter.totalDedupSaved (Converter.world (Converter.final res)),
                          size (Converter.audioHashes (Converter.world (Converter.final res)))))
    (Converter.main Samples.real_run Samples.two_libraries)
  = Some ([("library-output/Chaos/instruments/piano/Acoustic_Grand_Piano/zone_C4.mp3",
            [73; 68; 51; 0; 0; 0]);
           ("library-output/FluidR3_GM/instruments/piano/Acoustic_Grand_Piano/zone_C4.mp3",
            [73; 68; 51; 0; 0; 0])], 1, 1%nat)
  /\ option_map (fun res => Converter.audio_writes (Converter.world (Converter.final res)))
       (Converter.main Samples.real_run Samples.same_note)
     = Some [("library-output/FluidR3_GM/instruments/piano/Acoustic_Grand_Piano/zone_C4.mp3",
              [73; 68; 51; 0; 0; 0]);
             ("library-output/FluidR3_GM/instruments/piano/Acoustic_Grand_Piano/zone_C4.mp3",
              [73; 68; 51; 0; 0; 1])].
Proof. split; vm_compute; reflexivity. Qed.

(** ** Instruments: what [convertInstrument] returns *)

Section Instruments.
Import Converter.

Lemma isPercussion_spec (zones : list Zone) :
  isPercussion zones = true <-> exists z, In z zones /\ z_midi z = Some 128.
Proof.
  unfold isPercussion. rewrite existsb_exists. split.
  - intros (z & Hin & Hz). exists z. split; [exact Hin|].
    destruct (z_midi z) as [m|]; [|discriminate].
    apply Z.eqb_eq in Hz. congruence.
  - intros (z & Hin & Hz). exists z. split; [exact Hin|]. rewrite Hz. reflexivity.
Qed.

Lemma convertZone_silent (cfg : Config) zone presetDir zoneIndex (w : World) :
  audioData zone = None ->
  convertZone cfg zone presetDir zoneIndex w = (None, w).
Proof.
  intros Hsilent. unfold convertZone, extractAudio.
  destruct (normalizePitch zone). rewrite Hsilent. reflexivity.
Qed.

Lemma convertZones_silent (cfg : Config) zones presetDir (i : nat) (w : World) :
  Forall (fun z => audioData z = None) zones ->
  convertZones cfg zones presetDir i w = ([], w).
Proof.
  intros Hall. revert i. induction Hall as [|zone rest Hzone _ IH]; intros i; [reflexivity|].
  cbn [convertZones]. rewrite (convertZone_silent _ _ _ _ _ Hzone), IH. reflexivity.
Qed.

(** The successful return of [convertInstrument], taken apart. *)
Lemma convertInstrument_entry (cfg : Config) data gm instrumentName libraryName variant
    (w w' : World) (entry : Entry) :
  convertInstrument cfg data gm instrumentName libraryName variant w
  = (Returned (Some entry), w') ->
  exists zones convertedZones w2,
    data = Some zones
    /\ convertZones cfg zones (presetPath cfg (isPercussion zones) gm instrumentName libraryName)
         0 (if DRY_RUN cfg then w
            else perform (Mkdir (presetPath cfg (isPercussion zones) gm
                                   instrumentName libraryName)) w)
       = (convertedZones, w2)
    /\ convertedZones <> []
    /\ entry = summaryEntry cfg (isPercussion zones) gm instrumentName libraryName
                 (presetPath cfg (isPercussion zones) gm instrumentName libraryName)
                 convertedZones
    /\ w' = (if DRY_RUN cfg then w2
             else perform
                    (WriteFile
                       (join [presetPath cfg (isPercussion zones) gm instrumentName
                                libraryName; "preset.json"])
                       (PresetJson (presetDocument (isPercussion zones) gm instrumentName
                                      libraryName variant convertedZones))) w2).
Proof.
  unfold convertInstrument.
  destruct data as [[|zone zones]|]; try discriminate.
  destruct (convertZones _ _ _ _ _) as [[|cz czs] w2] eqn:Hzones; try discriminate.
  intros [= <- <-].
  exists (zone :: zones), (cz :: czs), w2. rewrite Hzones.
  repeat apply conj; try reflexivity. discriminate.
Qed.

Lemma gm_category_is_a_family (gm : Z) (c : string) :
  gm_category gm = Some c -> In c families.
Proof.
  unfold gm_category. destruct (gm <? 0); [discriminate|].
  intros Hc. apply list_elem_of_lookup_2, list_elem_of_In in Hc.
  assert (Hall : forallb (fun c => existsb (String.eqb c) families) GM_CATEGORIES = true)
    by (vm_compute; reflexivity).
  rewrite forallb_forall in Hall. specialize (Hall c Hc).
  apply existsb_exists in Hall as (f & Hf & Heq).
  apply String.eqb_eq in Heq. subst. exact Hf.
Qed.

Lemma categoryOf_melodic_neq (gm : Z) :
  categoryOf false gm <> "percussion".
Proof.
  unfold categoryOf. destruct (gm_category gm) as [c|] eqn:Hc; cbn; [|discriminate].
  apply gm_category_is_a_family in Hc.
  intros ->. cbv in Hc. intuition discriminate.
Qed.

Lemma buildTags_percussion (gm : Z) czs :
  In "percussion" (buildTags true gm czs) /\ ~ In "melodic" (buildTags true gm czs).
Proof.
  unfold buildTags. split; [left; reflexivity|].
  destruct (existsb _ czs); cbn; intros H; intuition discriminate.
Qed.

Lemma buildTags_melodic (gm : Z) czs :
  In "melodic" (buildTags false gm czs) /\ ~ In "percussion" (buildTags false gm czs).
Proof.
  unfold buildTags. split; [left; reflexivity|].
  pose proof (categoryOf_melodic_neq gm).
  destruct (existsb _ czs); cbn; intros H'; intuition (try discriminate; congruence).
Qed.

End Instruments.




(** C3, as the code has it. An instrument all of whose zones fail to yield
    audio is dropped: the turn of the loop stores no entry (so the library
    index does not list it), counts neither a conversion nor an error, leaves
    the dedup table alone and writes no file, neither audio nor preset
    document. Its output directory is created all the same, before the zones
    are converted, when the run is not dry and the instrument has a zone. *)
Theorem C3_dropped_instrument (cfg : Converter.Config) (zones : list Converter.Zone)
    (gm : Z) (instrumentName libraryName : string) (variant : Z)
    (retag : Converter.Entry -> Converter.Entry) (r : Converter.Run) :
  Forall (fun z => Converter.audioData z = None) zones ->
  let r' := Converter.settle retag r
              (Converter.convertInstrument cfg (Some zones) gm instrumentName
                 libraryName variant (Converter.world r)) in
  Converter.entriesByLibrary r' = Converter.entriesByLibrary r
  /\ Converter.convertedCount r' = Converter.convertedCount r
  /\ Converter.errorCount r' = Converter.errorCount r
  /\ Converter.audioHashes (Converter.world r') = Converter.audioHashes (Converter.world r)
  /\ Converter.totalDedupSaved (Converter.world r')
     = Converter.totalDedupSaved (Converter.world r)
  /\ Converter.writes (Converter.world r') = Converter.writes (Converter.world r)
  /\ Converter.mkdirs (Converter.world r')
     = Converter.mkdirs (Converter.world r)
       ++ (if Converter.DRY_RUN cfg then []
           else match zones with
                | [] => []
                | _ => [Converter.presetPath cfg (Converter.isPercussion zones) gm
                          instrumentName libraryName]
                end).
Proof.
  intros Hsilent r'. subst r'. unfold Converter.convertInstrument.
  destruct zones as [|zone zones].
  - cbn. destruct (Converter.DRY_RUN cfg); rewrite app_nil_r; repeat apply conj; reflexivity.
  - rewrite convertZones_silent by exact Hsilent.
    destruct (Converter.DRY_RUN cfg); cbn.
    + rewrite app_nil_r. repeat apply conj; reflexivity.
    + unfold Converter.writes, Converter.mkdirs; cbn.
      rewrite !List.filter_app, !map_app; cbn. rewrite app_nil_r.
      repeat apply conj; reflexivity.
Qed.

(** The instrument whose only zone has no audio, in a run that is not dry. *)
Lemma C3_dropped_instrument_witness :
  let r := Converter.initial_run Samples.real_run in
  let r' := Converter.instrument_step Samples.real_run Samples.names
              {| Converter.f_name := "0000_FluidR3_GM_sf2_file.json";
                 Converter.f_data := Some [Samples.bare] |} r in
  Forall (fun z => Converter.audioData z = None) [Samples.bare]
  /\ Converter.entriesByLibrary r' = []
  /\ Converter.convertedCount r' = 0
  /\ Converter.errorCount r' = 0
  /\ Converter.writes (Converter.world r') = [].
Proof.
  assert (Hsilent : Forall (fun z => Converter.audioData z = None) [Samples.bare])
    by (constructor; [reflexivity | constructor]).
  split; [exact Hsilent|].
  pose proof (C3_dropped_instrument Samples.real_run [Samples.bare] 0
                "Acoustic Grand Piano" "FluidR3_GM" 0 (fun e => e)
                (Converter.initial_run Samples.real_run) Hsilent)
    as (Hentries & Hconverted & Herrors & _ & _ & Hwrites & _).
  repeat apply conj; assumption.
Defined.

(** C3 as stated fails: the run creates the output directory of an
    instrument it then drops. *)
Lemma C3_directory_of_dropped_instrument :
  option_map (fun res => (Converter.mkdirs (Converter.world (Converter.final res)),
                          Converter.writes (Converter.world (Converter.final res)),
                          Converter.convertedCount (Converter.final res),
                          Converter.errorCount (Converter.final res)))
    (Converter.main Samples.real_run Samples.silent)
  = Some (["library-output";
           "library-output/FluidR3_GM/instruments/piano/Acoustic_Grand_Piano"],
          ["library-output/index.json"], 0, 0).
Proof. vm_compute. reflexivity. Qed.

(** C4, as the code has it. For every file of the percussion directory that
    converts, the entry [main] stores, and with it the entry of the library
    index, carries exactly the tags [percussion] and [midi:{note}]. The
    preset document is written before that, with the tag list as it was
    built (the percussion or melodic marker, the GM tag, the loop tags), and
    is not touched again. *)
Theorem C4_percussion_entry_tags (cfg : Converter.Config) (file : Converter.SrcFile)
    (r : Converter.Run) (info : Converter.PercussionInfo)
    (entry : Converter.Entry) (w' : Converter.World) :
  Converter.parsePercussionFilename (Converter.f_name file) = Some info ->
  Converter.convertInstrument cfg (Converter.f_data file) 128
    ("Percussion_" +:+ Converter.midiToNoteName (Converter.p_midiNote info) +:+ "_"
     +:+ Js.show (Converter.p_midiNote info))
    (Converter.p_library info) (Converter.p_variant info) (Converter.world r)
  = (Converter.Returned (Some entry), w') ->
  let stored := Converter.percussion_tags (Converter.p_midiNote info) entry in
  Converter.entriesByLibrary (Converter.percussion_step cfg file r)
  = Converter.push_entry (Converter.e_library entry) stored (Converter.entriesByLibrary r)
  /\ Index.pe_tags (Converter.presetEntry stored)
     = ["percussion"; "midi:" +:+ Js.show (Converter.p_midiNote info)]
  /\ (Converter.DRY_RUN cfg = false ->
     exists path preset,
       Converter.disk (Converter.world (Converter.percussion_step cfg file r))
       = Converter.disk w'
       /\ last (Converter.disk w') = Some (Converter.WriteFile path (Converter.PresetJson preset))
       /\ Converter.tags preset = Converter.e_tags entry
       /\ Converter.tags preset
          = Converter.buildTags (Converter.oneShot preset) 128 (Converter.zones preset)).
Proof.
  intros Hname Hret stored.
  unfold Converter.percussion_step. rewrite Hname, Hret. cbn [Converter.settle].
  repeat apply conj; try reflexivity.
  intros Hreal.
  apply convertInstrument_entry in Hret
    as (zones & czs & w2 & _ & _ & _ & -> & ->).
  rewrite Hreal. eexists _, _.
  cbn [Converter.world Converter.perform Converter.disk].
  split; [reflexivity|].
  split; [apply last_snoc|].
  split; reflexivity.
Qed.

(** The marked file of [p/]: the stored entry has the two tags. *)
Lemma C4_percussion_entry_tags_witness :
  let file := {| Converter.f_name := "35_0_Chaos_sf2_file.json";
                 Converter.f_data :=
                   Some [Samples.with_midi 128 (Samples.with_file "SUQzAAAA" Samples.bare)] |} in
  exists lib entry,
    Converter.entriesByLibrary
      (Converter.percussion_step Samples.real_run file
         (Converter.initial_run Samples.real_run))
    = [(lib, [entry])]
    /\ Index.pe_tags (Converter.presetEntry entry) = ["percussion"; "midi:35"].
Proof.
  intros file.
  pose proof (C4_percussion_entry_tags Samples.real_run file
                (Converter.initial_run Samples.real_run)
                {| Converter.p_midiNote := 35; Converter.p_variant := 0;
                   Converter.p_library := "Chaos" |}
                _ _ eq_refl eq_refl) as (Hstored & Htags & _).
  eexists _, _. split; [exact Hstored | exact Htags].
Defined.

(** C4 as stated fails: the preset document written for a percussion
    instrument keeps the tags it was built with, [gm:128] and [one-shot]
    among them; only the index entry has the two percussion tags. *)
Lemma C4_written_preset_keeps_its_tags :
  option_map (fun res => (Converter.preset_tags (Converter.world (Converter.final res)),
                          Converter.index_tags (Converter.world (Converter.final res))))
    (Converter.main Samples.real_run Samples.drum)
  = Some ([["percussion"; "gm:128"; "one-shot"]], [["percussion"; "midi:35"]]).
Proof. vm_compute. reflexivity. Qed.

(** ** Strings and paths *)

Section Paths.
Import Converter.

Lemma append_cons (c : ascii) (s t : string) : String c s +:+ t = String c (s +:+ t).
Proof. reflexivity. Qed.

Lemma append_assoc (s t u : string) : (s +:+ t) +:+ u = s +:+ t +:+ u.
Proof.
  induction s as [|c s IH]; [reflexivity|].
  rewrite !append_cons, IH. reflexivity.
Qed.

Lemma append_nonempty (s t : string) : s <> "" -> s +:+ t <> "".
Proof. destruct s; [congruence | discriminate]. Qed.

Lemma append_length (s t : string) :
  String.length (s +:+ t) = (String.length s + String.length t)%nat.
Proof.
  induction s as [|c s IH]; [reflexivity|].
  rewrite append_cons. cbn. rewrite IH. reflexivity.
Qed.

Lemma prefix_append (pat s : string) : String.prefix pat (pat +:+ s) = true.
Proof.
  induction pat as [|c pat IH]; [destruct s; reflexivity|].
  rewrite append_cons. cbn.
  destruct (ascii_dec c c); [exact IH | congruence].
Qed.

Lemma substring_whole (s : string) : substring 0 (String.length s) s = s.
Proof. induction s as [|c s IH]; [reflexivity|]. cbn. rewrite IH. reflexivity. Qed.

Lemma substring_after (pat s : string) :
  substring (String.length pat) (String.length s) (pat +:+ s) = s.
Proof.
  induction pat as [|c pat IH]; [apply substring_whole|].
  rewrite append_cons. cbn. exact IH.
Qed.

Lemma replace_first_unfold (pat r s : string) :
  Js.replace_first pat r s
  = if String.prefix pat s
    then r +:+ substring (String.length pat) (String.length s - String.length pat) s
    else match s with
         | EmptyString => EmptyString
         | String c s' => String c (Js.replace_first pat r s')
         end.
Proof. destruct s; reflexivity. Qed.

(** Replacing the pattern at the head of a string that starts with it. *)
Lemma replace_first_head (pat r s : string) :
  Js.replace_first pat r (pat +:+ s) = r +:+ s.
Proof.
  rewrite replace_first_unfold, prefix_append, append_length.
  replace (String.length pat + String.length s - String.length pat)%nat
    with (String.length s) by lia.
  rewrite substring_after. reflexivity.
Qed.

Lemma kept_nonempty (parts : list string) : Forall (fun p => p <> "") (kept parts).
Proof.
  apply List.Forall_forall. intros p Hin. apply filter_In in Hin as [_ Hp].
  apply negb_true_iff, String.eqb_neq in Hp. exact Hp.
Qed.

Lemma kept_app (xs ys : list string) : kept (xs ++ ys) = kept xs ++ kept ys.
Proof. apply List.filter_app. Qed.

Lemma join_with_app (xs ys : list string) :
  xs <> [] -> ys <> [] ->
  Js.join_with "/" (xs ++ ys) = Js.join_with "/" xs +:+ "/" +:+ Js.join_with "/" ys.
Proof.
  intros Hxs Hys. induction xs as [|x xs IH]; [congruence|].
  destruct xs as [|x' xs].
  - destruct ys; [congruence | reflexivity].
  - change (Js.join_with "/" ((x :: x' :: xs) ++ ys))
      with (x +:+ "/" +:+ Js.join_with "/" ((x' :: xs) ++ ys)).
    rewrite IH by discriminate.
    change (Js.join_with "/" (x :: x' :: xs))
      with (x +:+ "/" +:+ Js.join_with "/" (x' :: xs)).
    rewrite !append_assoc. reflexivity.
Qed.

Lemma join_is_join_with (parts : list string) :
  kept parts <> [] -> join parts = Js.join_with "/" (kept parts).
Proof. unfold join. fold (kept parts). destruct (kept parts); [congruence | reflexivity]. Qed.

Lemma join_app (xs ys : list string) :
  kept xs <> [] -> kept ys <> [] ->
  join (xs ++ ys) = join xs +:+ "/" +:+ join ys.
Proof.
  intros Hxs Hys.
  rewrite !join_is_join_with, kept_app; try assumption.
  - apply join_with_app; assumption.
  - rewrite kept_app. destruct (kept xs); [congruence | discriminate].
Qed.

Lemma join_with_nonempty (xs : list string) :
  xs <> [] -> Forall (fun p => p <> "") xs -> Js.join_with "/" xs <> "".
Proof.
  intros Hxs Hall. destruct xs as [|x xs]; [congruence|].
  apply List.Forall_cons_iff in Hall as [Hx _].
  destruct xs; [exact Hx|]. apply append_nonempty, Hx.
Qed.

Lemma join_nonempty (parts : list string) : join parts <> "".
Proof.
  destruct (kept parts) as [|x xs] eqn:Hkept.
  - unfold join. fold (kept parts). rewrite Hkept. discriminate.
  - rewrite join_is_join_with by (rewrite Hkept; discriminate).
    apply join_with_nonempty; [rewrite Hkept; discriminate | apply kept_nonempty].
Qed.

Lemma kept_singleton (x : string) : x <> "" -> kept [x] = [x].
Proof. intros Hx. cbn. apply String.eqb_neq in Hx. rewrite Hx. reflexivity. Qed.

Lemma join_singleton (x : string) : x <> "" -> join [x] = x.
Proof. intros Hx. unfold join. fold (kept [x]). rewrite kept_singleton by exact Hx. reflexivity. Qed.

Lemma join_pair (a b : string) : a <> "" -> b <> "" -> join [a; b] = a +:+ "/" +:+ b.
Proof.
  intros Ha Hb. change [a; b] with ([a] ++ [b]).
  rewrite join_app, !join_singleton; try assumption; try reflexivity;
    rewrite kept_singleton by assumption; discriminate.
Qed.

Lemma kept_library (O lib : string) : lib <> "" -> kept [O; lib] <> [].
Proof.
  intros Hlib. change [O; lib] with ([O] ++ [lib]).
  rewrite kept_app, (kept_singleton lib) by exact Hlib.
  destruct (kept [O]); discriminate.
Qed.

(** Below a library directory: the path of [rest] from the output root is
    the library directory, a separator, and the path of [rest]. *)
Lemma join_below_library (O lib : string) (rest : list string) :
  lib <> "" -> kept rest <> [] ->
  join (O :: lib :: rest) = join [O; lib] +:+ "/" +:+ join rest.
Proof.
  intros Hlib Hrest. change (O :: lib :: rest) with ([O; lib] ++ rest).
  apply join_app; [apply kept_library, Hlib | exact Hrest].
Qed.

End Paths.

(** ** The indexes of the Converter *)

Section ConverterIndexes.
Import Converter Index.

Variable cfg : Config.
Hypothesis real : DRY_RUN cfg = false.

Local Abbreviation entry_ok := (Converter.entry_ok cfg).
Local Abbreviation library_ok := (Converter.library_ok cfg).
Local Abbreviation run_ok := (Converter.run_ok cfg).
Local Abbreviation library_index_write := (Converter.library_index_write cfg).

Lemma grows_refl (w : World) : grows w w.
Proof. exists []. split; [symmetry; apply app_nil_r | constructor]. Qed.

Lemma grows_trans (w1 w2 w3 : World) : grows w1 w2 -> grows w2 w3 -> grows w1 w3.
Proof.
  intros (ops & H12 & Hops) (ops' & H23 & Hops'). exists (ops ++ ops'). split.
  - rewrite H23, H12. symmetry. apply app_assoc.
  - apply Forall_app. split; assumption.
Qed.

Lemma grows_perform (op : FsOp) (w : World) : not_index op -> grows w (perform op w).
Proof. intros Hop. exists [op]. split; [reflexivity | repeat constructor; exact Hop]. Qed.

Lemma grows_same_disk (w w' : World) : disk w' = disk w -> grows w w'.
Proof. intros H. exists []. split; [rewrite H; symmetry; apply app_nil_r | constructor]. Qed.

Lemma file_exists_grows (path : string) (w w' : World) :
  grows w w' -> file_exists path w -> file_exists path w'.
Proof.
  intros (ops & Hdisk & _) (c & Hc). exists c. unfold written in *.
  rewrite Hdisk. apply in_or_app. left. exact Hc.
Qed.

Lemma not_index_grows (w w' : World) :
  grows w w' -> Forall not_index (disk w) -> Forall not_index (disk w').
Proof. intros (ops & -> & Hops) Hw. apply Forall_app. split; assumption. Qed.

Lemma record_hash_disk (hashKey fname : string) (w : World) :
  disk (record_hash hashKey fname w) = disk w.
Proof. unfold record_hash. destruct (audioHashes w !! hashKey); reflexivity. Qed.

Lemma extractAudio_grows zone presetDir zoneIndex noteName (w : World) :
  grows w (snd (extractAudio cfg zone presetDir zoneIndex noteName w)).
Proof.
  unfold extractAudio. destruct (audioData zone); [|apply grows_refl].
  cbn [snd]. destruct (DRY_RUN cfg).
  - apply grows_same_disk, record_hash_disk.
  - eapply grows_trans; [apply grows_same_disk, record_hash_disk|].
    apply grows_perform. exact I.
Qed.

Lemma convertZone_grows zone presetDir zoneIndex (w : World) :
  grows w (snd (convertZone cfg zone presetDir zoneIndex w)).
Proof.
  unfold convertZone. destruct (normalizePitch zone) as [rootNote fineTuneCents].
  pose proof (extractAudio_grows zone presetDir zoneIndex (midiToNoteName rootNote) w) as H.
  destruct (extractAudio _ _ _ _ _ _) as [[audioInfo|] w1]; exact H.
Qed.

Lemma convertZones_grows zones presetDir (i : nat) (w : World) :
  grows w (snd (convertZones cfg zones presetDir i w)).
Proof.
  revert i w. induction zones as [|zone rest IH]; intros i w; [apply grows_refl|].
  cbn [convertZones].
  pose proof (convertZone_grows zone presetDir i w) as H1.
  destruct (convertZone cfg zone presetDir i w) as [z w1]; cbn [snd] in H1.
  pose proof (IH (S i) w1) as H2.
  destruct (convertZones cfg rest presetDir (S i) w1) as [zs w2]; cbn [snd] in *.
  eapply grows_trans; eassumption.
Qed.

Lemma convertInstrument_grows data gm instrumentName libraryName variant (w : World) :
  grows w (snd (convertInstrument cfg data gm instrumentName libraryName variant w)).
Proof.
  unfold convertInstrument. destruct data as [[|zone zones]|]; try apply grows_refl.
  set (dir := presetPath cfg _ gm instrumentName libraryName).
  set (w1 := if DRY_RUN cfg then w else perform (Mkdir dir) w).
  assert (H1 : grows w w1)
    by (subst w1; destruct (DRY_RUN cfg); [apply grows_refl | apply grows_perform; exact I]).
  pose proof (convertZones_grows (zone :: zones) dir 0 w1) as H2.
  destruct (convertZones cfg (zone :: zones) dir 0 w1) as [[|cz czs] w2]; cbn [snd] in *.
  - eapply grows_trans; eassumption.
  - eapply grows_trans; [exact H1|]. eapply grows_trans; [exact H2|].
    destruct (DRY_RUN cfg); [apply grows_refl | apply grows_perform; exact I].
Qed.

Lemma presetPath_below_library percussion gm instrumentName libraryName :
  libraryName <> "" ->
  exists rest,
    kept rest <> []
    /\ presetPath cfg percussion gm instrumentName libraryName
       = join [OUTPUT_DIR cfg; safeLib libraryName] +:+ "/" +:+ join rest.
Proof.
  intros Hlib.
  assert (Hsafe : safeLib libraryName <> "") by (destruct libraryName; [congruence | discriminate]).
  unfold presetPath. destruct percussion.
  - exists ["percussion"; "individual"; safeName instrumentName].
    split; [discriminate | apply join_below_library; [exact Hsafe | discriminate]].
  - exists ["instruments"; categoryOf false gm; safeName instrumentName].
    split; [discriminate | apply join_below_library; [exact Hsafe | discriminate]].
Qed.

(** The path an entry carries leads, from the directory of its library, to
    the preset document written for it. *)
Lemma entry_path_resolves percussion gm instrumentName libraryName :
  libraryName <> "" ->
  let dir := presetPath cfg percussion gm instrumentName libraryName in
  join [join [OUTPUT_DIR cfg; safeLib libraryName]; relativePath cfg libraryName dir]
  = join [dir; "preset.json"].
Proof.
  intros Hlib dir.
  destruct (presetPath_below_library percussion gm instrumentName libraryName Hlib)
    as (rest & Hrest & Hdir).
  subst dir. rewrite Hdir. unfold relativePath.
  set (X := join [OUTPUT_DIR cfg; safeLib libraryName]).
  assert (HX : X <> "") by apply join_nonempty.
  assert (HR : join rest <> "") by apply join_nonempty.
  rewrite <- (append_assoc X "/" (join rest)), replace_first_head.
  change ("" +:+ join rest) with (join rest).
  rewrite !join_pair; try assumption; try discriminate.
  - change "/preset.json" with ("/" +:+ "preset.json").
    rewrite !append_assoc. reflexivity.
  - apply append_nonempty, append_nonempty, HX.
  - apply append_nonempty, HR.
Qed.

Lemma convertInstrument_entry_ok data gm instrumentName libraryName variant
    (w w' : World) (entry : Entry) :
  libraryName <> "" ->
  convertInstrument cfg data gm instrumentName libraryName variant w
  = (Returned (Some entry), w') ->
  e_library entry = safeLib libraryName
  /\ entry_ok w' (safeLib libraryName) entry.
Proof.
  intros Hlib Hret.
  apply convertInstrument_entry in Hret as (zones & czs & w2 & _ & _ & _ & -> & ->).
  split; [reflexivity|].
  unfold Converter.entry_ok; cbn [summaryEntry e_path].
  rewrite entry_path_resolves by exact Hlib. rewrite real.
  eexists. unfold written, perform; cbn [disk].
  apply in_or_app. right. left. reflexivity.
Qed.

(** *** The invariant of the loops *)

Lemma library_ok_grows (w w' : World) le :
  grows w w' -> library_ok w le -> library_ok w' le.
Proof.
  intros Hgrows [Hname Hentries]. split; [exact Hname|].
  eapply List.Forall_impl; [|exact Hentries].
  intros e. apply file_exists_grows, Hgrows.
Qed.

Lemma push_entry_ok (w : World) (lib : string) (e : Entry) m :
  lib <> "" -> entry_ok w lib e ->
  Forall (library_ok w) m -> Forall (library_ok w) (push_entry lib e m).
Proof.
  intros Hlib He. induction 1 as [|[k es] m [Hk Hes] Hm IH]; cbn [push_entry].
  - constructor; [|constructor].
    split; [exact Hlib | constructor; [exact He | constructor]].
  - destruct (String.eqb k lib) eqn:Hkey.
    + apply String.eqb_eq in Hkey. subst k. constructor; [|assumption].
      split; [exact Hk|]. cbn [fst snd] in *.
      apply Forall_app. split; [exact Hes | constructor; [exact He | constructor]].
    + constructor; [split; assumption | exact IH].
Qed.

Lemma settle_ok (retag : Entry -> Entry) (r : Run) (res : Outcome) (w : World) :
  run_ok r -> grows (world r) w ->
  (forall entry, res = Returned (Some entry) ->
                 e_library (retag entry) <> ""
                 /\ entry_ok w (e_library (retag entry)) (retag entry)) ->
  run_ok (settle retag r (res, w)).
Proof.
  intros [Hentries Hdisk] Hgrows Hentry.
  assert (Hentries' : Forall (library_ok w) (entriesByLibrary r))
    by (eapply List.Forall_impl; [|exact Hentries]; intros le; apply library_ok_grows, Hgrows).
  assert (Hdisk' : Forall not_index (disk w)) by (eapply not_index_grows; eassumption).
  destruct res as [|[entry|]]; cbn [settle]; split; cbn [world entriesByLibrary]; try assumption.
  destruct (Hentry entry eq_refl) as [Hlib Hok].
  apply push_entry_ok; assumption.
Qed.

(** *** The library name of a parsed file name is not empty *)

Lemma lazy_library_extends (s taken library : string) :
  lazy_library taken s = Some library -> exists more, library = taken +:+ more.
Proof.
  revert taken. induction s as [|c s IH]; intros taken.
  - cbn. discriminate.
  - rewrite lazy_library_cons.
    destruct (tail_matches (String c s)).
    + intros [= <-]. exists "". clear. induction taken as [|a t IHt]; [reflexivity|].
      rewrite append_cons, <- IHt. reflexivity.
    + destruct (Js.is_line_terminator c); [discriminate|].
      intros H. apply IH in H as [more ->].
      exists (String c more). rewrite append_assoc. reflexivity.
Qed.

Lemma library_and_tail_nonempty (s library : string) :
  library_and_tail s = Some library -> library <> "".
Proof.
  destruct s as [|c s]; [discriminate|]. cbn [library_and_tail].
  destruct (Js.is_line_terminator c); [discriminate|].
  intros H. apply lazy_library_extends in H as [more ->]. discriminate.
Qed.

Lemma parseInstrumentFilename_library (fname : string) (info : InstrumentInfo) :
  parseInstrumentFilename fname = Some info -> i_library info <> "".
Proof.
  unfold parseInstrumentFilename.
  destruct fname as [|d1 [|d2 [|d3 [|d4 [|sep rest]]]]]; try discriminate.
  destruct (_ && _); [|discriminate].
  destruct (library_and_tail rest) as [library|] eqn:Hlib; [|discriminate].
  intros [= <-]. cbn. eapply library_and_tail_nonempty, Hlib.
Qed.

Lemma parsePercussionFilename_library (fname : string) (info : PercussionInfo) :
  parsePercussionFilename fname = Some info -> p_library info <> "".
Proof.
  unfold parsePercussionFilename.
  destruct (digits_then_underscore "" fname) as [[note rest]|]; [|discriminate].
  destruct (digits_then_underscore "" rest) as [[var rest']|]; [|discriminate].
  destruct (library_and_tail rest') as [library|] eqn:Hlib; [|discriminate].
  intros [= <-]. cbn. eapply library_and_tail_nonempty, Hlib.
Qed.

Lemma safeLib_nonempty (libraryName : string) : libraryName <> "" -> safeLib libraryName <> "".
Proof. destruct libraryName; [congruence | discriminate]. Qed.

(** *** The loops keep the invariant *)

Lemma convert_step_ok (retag : Entry -> Entry) (r : Run) data gm instrumentName
    libraryName variant :
  (forall e, e_library (retag e) = e_library e /\ e_path (retag e) = e_path e) ->
  libraryName <> "" -> run_ok r ->
  run_ok (settle retag r
            (convertInstrument cfg data gm instrumentName libraryName variant (world r))).
Proof.
  intros Hretag Hlib Hr.
  pose proof (convertInstrument_grows data gm instrumentName libraryName variant (world r))
    as Hgrows.
  destruct (convertInstrument cfg data gm instrumentName libraryName variant (world r))
    as [res w] eqn:Hres; cbn [snd] in Hgrows.
  apply settle_ok; [exact Hr | exact Hgrows |].
  intros entry ->.
  destruct (convertInstrument_entry_ok _ _ _ _ _ _ _ _ Hlib Hres) as [Hlibrary Hok].
  destruct (Hretag entry) as [Hl Hp].
  rewrite Hl, Hlibrary. split; [apply safeLib_nonempty, Hlib|].
  unfold Converter.entry_ok in *. rewrite Hp. exact Hok.
Qed.

Lemma instrument_step_ok names file (r : Run) :
  run_ok r -> run_ok (instrument_step cfg names file r).
Proof.
  intros Hr. unfold instrument_step.
  destruct (parseInstrumentFilename (f_name file)) as [info|] eqn:Hinfo; [|exact Hr].
  destruct (128 <=? i_gmProgram info); [exact Hr|].
  apply convert_step_ok; [intros e; split; reflexivity | | exact Hr].
  eapply parseInstrumentFilename_library, Hinfo.
Qed.

Lemma percussion_step_ok file (r : Run) :
  run_ok r -> run_ok (percussion_step cfg file r).
Proof.
  intros Hr. unfold percussion_step.
  destruct (parsePercussionFilename (f_name file)) as [info|] eqn:Hinfo; [|exact Hr].
  apply convert_step_ok; [intros e; split; reflexivity | | exact Hr].
  eapply parsePercussionFilename_library, Hinfo.
Qed.

Lemma convert_dir_ok (step : SrcFile -> Run -> Run) dir (r : Run) :
  (forall file r, run_ok r -> run_ok (step file r)) ->
  run_ok r -> run_ok (convert_dir cfg step dir r).
Proof.
  intros Hstep. destruct dir as [files|]; [|auto]. cbn [convert_dir].
  generalize (listing files) as l. intros l. revert r.
  induction l as [|file rest IH]; intros r Hr; [exact Hr|].
  cbn [convert_files]. destruct (limit_reached cfg r); [exact Hr|].
  apply IH, Hstep, Hr.
Qed.

Lemma initial_run_ok : run_ok (initial_run cfg).
Proof.
  split; [constructor|]. unfold initial_run; cbn [world].
  destruct (DRY_RUN cfg); cbn; repeat constructor.
Qed.

(** *** The writes of the indexes *)

Lemma write_library_indexes_spec libs (w : World) roots :
  disk (fst (write_library_indexes cfg libs w roots))
  = disk w ++ map library_index_write libs
  /\ snd (write_library_indexes cfg libs w roots)
     = roots ++ map (fun le => libraryRef (fst le) (snd le)) libs.
Proof.
  revert w roots. induction libs as [|[libraryName entries] rest IH]; intros w roots.
  - cbn. rewrite !app_nil_r. split; reflexivity.
  - cbn [write_library_indexes]. rewrite real.
    destruct (IH (perform (WriteFile (join [OUTPUT_DIR cfg; libraryName; "index.json"])
                             (IndexJson (libraryIndex libraryName entries))) w)
                 (roots ++ [libraryRef libraryName entries])) as [Hdisk Hroots].
    rewrite Hdisk, Hroots. cbn [perform disk map fst snd].
    rewrite <- !app_assoc. split; reflexivity.
Qed.

Lemma library_index_path (lib : string) :
  lib <> "" ->
  join [OUTPUT_DIR cfg; lib; "index.json"] = join [join [OUTPUT_DIR cfg; lib]; "index.json"].
Proof.
  intros Hlib. change [OUTPUT_DIR cfg; lib; "index.json"]
    with ([OUTPUT_DIR cfg; lib] ++ ["index.json"]).
  rewrite join_app; [|apply kept_library, Hlib | discriminate].
  rewrite (join_pair (join [OUTPUT_DIR cfg; lib]) "index.json");
    [reflexivity | apply join_nonempty | discriminate].
Qed.

Lemma library_ref_path (lib : string) :
  lib <> "" ->
  join [OUTPUT_DIR cfg; lib +:+ "/index.json"] = join [OUTPUT_DIR cfg; lib; "index.json"].
Proof.
  intros Hlib. rewrite library_index_path by exact Hlib.
  assert (Hx : lib +:+ "/index.json" <> "") by apply append_nonempty, Hlib.
  destruct (String.eqb_spec (OUTPUT_DIR cfg) "") as [-> | HO].
  - assert (Hk : forall x, x <> "" -> join [""; x] = x).
    { intros x Hne. unfold join. cbn. apply String.eqb_neq in Hne. rewrite Hne. reflexivity. }
    rewrite !Hk by assumption.
    rewrite join_pair by (assumption || discriminate). reflexivity.
  - rewrite (join_pair (OUTPUT_DIR cfg) lib) by assumption.
    rewrite (join_pair (OUTPUT_DIR cfg) (lib +:+ "/index.json")) by assumption.
    rewrite (join_pair (OUTPUT_DIR cfg +:+ "/" +:+ lib) "index.json");
      [|apply append_nonempty, HO | discriminate].
    change "/index.json" with ("/" +:+ "index.json"). rewrite !append_assoc. reflexivity.
Qed.

(** Every index document of a run that is not dry: each path of its resolves,
    from the directory of the document, to a file the run wrote. *)
Lemma converter_index_paths (src : Source) (res : Result) :
  main cfg src = Some res ->
  forall path doc,
    written path (IndexJson doc) (world (final res)) ->
    exists dir,
      path = join [dir; "index.json"]
      /\ Forall (fun e => file_exists (join [dir; entry_path e]) (world (final res)))
           (ix_entries doc).
Proof.
  unfold main. destruct (instrumentNames src) as [names|]; [|discriminate].
  set (r2 := convert_dir cfg (percussion_step cfg) (p_dir src) _).
  assert (Hr2 : run_ok r2).
  { subst r2. apply convert_dir_ok; [intros; apply percussion_step_ok; assumption|].
    apply convert_dir_ok; [intros; apply instrument_step_ok; assumption|].
    apply initial_run_ok. }
  destruct Hr2 as [Hlibs Hnoindex].
  destruct (write_library_indexes_spec (entriesByLibrary r2) (world r2) []) as [Hdisk Hroots].
  destruct (write_library_indexes cfg (entriesByLibrary r2) (world r2) []) as [w roots].
  cbn [fst snd app] in Hdisk, Hroots.
  rewrite real. intros [= <-] path doc. unfold written, file_exists, written.
  cbn [final world perform disk]. rewrite Hdisk.
  set (libs := entriesByLibrary r2) in *.
  intros Hin. apply in_app_or in Hin as [Hin | [Hroot | []]];
    [apply in_app_or in Hin as [Hin | Hin]|].
  - (* the conversion wrote no index *)
    rewrite List.Forall_forall in Hnoindex. destruct (Hnoindex _ Hin).
  - (* the index of a library *)
    apply in_map_iff in Hin as ([lib entries] & [= <- <-] & Hle).
    rewrite List.Forall_forall in Hlibs. destruct (Hlibs _ Hle) as [Hlib Hentries].
    cbn [fst snd] in *.
    exists (join [OUTPUT_DIR cfg; lib]). split; [apply library_index_path, Hlib|].
    cbn [libraryIndex ix_entries]. apply Forall_map.
    eapply List.Forall_impl; [|exact Hentries].
    intros e (c & Hc). exists c. cbn [entry_path presetEntry pe_path].
    apply in_or_app. left. apply in_or_app. left. exact Hc.
  - (* the root index *)
    injection Hroot as <- <-.
    exists (OUTPUT_DIR cfg). split; [reflexivity|].
    cbn [rootIndex ix_entries]. rewrite Hroots, map_map. apply Forall_map.
    apply List.Forall_forall. intros [lib entries] Hle.
    rewrite List.Forall_forall in Hlibs. destruct (Hlibs _ Hle) as [Hlib _].
    cbn [fst snd entry_path libraryRef lr_path] in *.
    rewrite library_ref_path by exact Hlib.
    exists (IndexJson (libraryIndex lib entries)).
    apply in_or_app. left. apply in_or_app. right.
    apply in_map_iff. exists (lib, entries). split; [reflexivity | exact Hle].
Qed.

End ConverterIndexes.

(** ** The library tree *)

Section Tree.
Import Indexer Index.

Lemma lookup_replace_eq (nm : string) (x y : FsNode) (d : Dirents) :
  lookup_child nm d = Some x -> lookup_child nm (replace_child nm y d) = Some y.
Proof.
  induction d as [|[n z] d IH]; [discriminate|]. cbn.
  destruct (String.eqb n nm) eqn:Hn; cbn; rewrite Hn; [reflexivity | exact IH].
Qed.

Lemma lookup_replace_ne (nm m : string) (y : FsNode) (d : Dirents) :
  nm <> m -> lookup_child m (replace_child nm y d) = lookup_child m d.
Proof.
  intros Hne. induction d as [|[n z] d IH]; [reflexivity|]. cbn.
  destruct (String.eqb n nm) eqn:Hn; cbn.
  - apply String.eqb_eq in Hn. subst n.
    apply String.eqb_neq in Hne. rewrite Hne. reflexivity.
  - rewrite IH. reflexivity.
Qed.

Lemma replace_same (nm : string) (x : FsNode) (d : Dirents) :
  lookup_child nm d = Some x -> replace_child nm x d = d.
Proof.
  induction d as [|[n z] d IH]; [reflexivity|]. cbn.
  destruct (String.eqb n nm); [intros [= ->]; reflexivity|].
  intros H. rewrite IH by exact H. reflexivity.
Qed.

(** Writing a file fails exactly over a directory. *)
Lemma write_child_fails (nm : string) (c : FileData) (d : Dirents) :
  write_child nm c d = None <-> exists e, lookup_child nm d = Some (Dir e).
Proof.
  induction d as [|[n z] d IH]; cbn.
  - split; [discriminate | intros [e He]; discriminate].
  - destruct (String.eqb n nm).
    + destruct z as [c'|e]; cbn.
      * split; [discriminate | intros [e He]; discriminate].
      * split; [eauto | reflexivity].
    + destruct (write_child nm c d); cbn.
      * split; [discriminate|]. intros He. apply IH in He. discriminate.
      * split; [intros _; apply IH; reflexivity | reflexivity].
Qed.

Lemma write_child_lookup_eq (nm : string) (c : FileData) (d d' : Dirents) :
  write_child nm c d = Some d' -> lookup_child nm d' = Some (File c).
Proof.
  revert d'. induction d as [|[n z] d IH]; intros d'; cbn.
  - intros [= <-]. cbn. rewrite String.eqb_refl. reflexivity.
  - destruct (String.eqb n nm) eqn:Hn.
    + destruct (isDirectory z); [discriminate|]. intros [= <-]. cbn. rewrite Hn. reflexivity.
    + destruct (write_child nm c d) as [d1|]; [|discriminate].
      intros [= <-]. cbn. rewrite Hn. apply IH. reflexivity.
Qed.

Lemma write_child_lookup_ne (nm m : string) (c : FileData) (d d' : Dirents) :
  write_child nm c d = Some d' -> nm <> m -> lookup_child m d' = lookup_child m d.
Proof.
  intros Hw Hne. apply String.eqb_neq in Hne.
  revert d' Hw. induction d as [|[n z] d IH]; intros d'; cbn.
  - intros [= <-]. cbn. rewrite Hne. reflexivity.
  - destruct (String.eqb n nm) eqn:Hn.
    + destruct (isDirectory z); [discriminate|]. intros [= <-]. cbn.
      apply String.eqb_eq in Hn. subst n. rewrite Hne. reflexivity.
    + destruct (write_child nm c d) as [d1|]; [|discriminate].
      intros [= <-]. cbn. rewrite (IH d1 eq_refl). reflexivity.
Qed.

(** Writing the same file twice is writing it once. *)
Lemma write_child_again (nm : string) (c : FileData) (d d' : Dirents) :
  write_child nm c d = Some d' -> write_child nm c d' = Some d'.
Proof.
  revert d'. induction d as [|[n z] d IH]; intros d'; cbn.
  - intros [= <-]. cbn. rewrite String.eqb_refl. reflexivity.
  - destruct (String.eqb n nm) eqn:Hn.
    + destruct (isDirectory z); [discriminate|]. intros [= <-]. cbn. rewrite Hn. reflexivity.
    + destruct (write_child nm c d) as [d1|]; [|discriminate].
      intros [= <-]. cbn. rewrite Hn, (IH d1 eq_refl). reflexivity.
Qed.

(** One step of the walk. *)
Lemma findPresetFiles_cons (dir : list string) (nm : string) (x : FsNode) (rest : Dirents) :
  findPresetFiles dir (Dir ((nm, x) :: rest))
  = match x with
    | Dir _ => findPresetFiles (dir ++ [nm]) x
    | File c => if String.eqb nm "preset.json" then [(dir ++ [nm], c)] else []
    end ++ findPresetFiles dir (Dir rest).
Proof. destruct x as [c|e]; [|reflexivity]. cbn. destruct (String.eqb nm "preset.json"); reflexivity. Qed.

(** The walk does not see a file under another name. *)
Lemma findPresetFiles_write (nm : string) (c : FileData) (dir : list string) (d d' : Dirents) :
  String.eqb nm "preset.json" = false ->
  write_child nm c d = Some d' ->
  findPresetFiles dir (Dir d') = findPresetFiles dir (Dir d).
Proof.
  intros Hnm. revert d'. induction d as [|[n z] d IH]; intros d'.
  - intros [= <-]. rewrite findPresetFiles_cons, Hnm. reflexivity.
  - cbn [write_child]. destruct (String.eqb n nm) eqn:Hn.
    + destruct z as [c'|e]; [|discriminate]. cbn [isDirectory]. intros [= <-].
      apply String.eqb_eq in Hn. subst n.
      rewrite !findPresetFiles_cons, Hnm. reflexivity.
    + destruct (write_child nm c d) as [d1|]; [|discriminate].
      intros [= <-]. rewrite !findPresetFiles_cons, (IH d1 eq_refl). reflexivity.
Qed.

Lemma libraries_replace (nm : string) (e e' : Dirents) (d : Dirents) :
  lookup_child nm d = Some (Dir e) ->
  map fst (List.filter isLibrary (replace_child nm (Dir e') d))
  = map fst (List.filter isLibrary d).
Proof.
  induction d as [|[n z] d IH]; [reflexivity|]. cbn [lookup_child replace_child].
  destruct (String.eqb n nm).
  - intros [= ->]. cbn [List.filter].
    change (isLibrary (n, Dir e')) with (isLibrary (n, Dir e)).
    destruct (isLibrary (n, Dir e)); reflexivity.
  - intros H. cbn [List.filter].
    destruct (isLibrary (n, z)); cbn [map]; rewrite IH by exact H; reflexivity.
Qed.

Lemma libraries_write (nm : string) (c : FileData) (d d' : Dirents) :
  write_child nm c d = Some d' ->
  map fst (List.filter isLibrary d') = map fst (List.filter isLibrary d).
Proof.
  revert d'. induction d as [|[n z] d IH]; intros d'; cbn [write_child].
  - intros [= <-]. reflexivity.
  - destruct (String.eqb n nm).
    + destruct z as [c'|e]; [|discriminate]. cbn. intros [= <-]. reflexivity.
    + destruct (write_child nm c d) as [d1|]; [|discriminate].
      intros [= <-]. cbn [List.filter].
      destruct (isLibrary (n, z)); cbn [map]; rewrite (IH d1 eq_refl); reflexivity.
Qed.

End Tree.

(** ** Running the Indexer again *)

Section Replay.
Import Indexer Index.

Variable localeCompare : string -> string -> Z.

Local Abbreviation scan := (Indexer.scan localeCompare).
Local Abbreviation library_step := (Indexer.library_step localeCompare).
Local Abbreviation library_loop := (Indexer.library_loop localeCompare).
Local Abbreviation scanned := (Indexer.scanned localeCompare).
Local Abbreviation stable := (Indexer.stable localeCompare).

Lemma scan_write (c : FileData) (e e' : Dirents) :
  write_child "index.json" c e = Some e' -> scan e' = scan e.
Proof.
  intros Hw. unfold Indexer.scan.
  rewrite (findPresetFiles_write "index.json" c [] e e' eq_refl Hw). reflexivity.
Qed.

(** A successful turn of the loop, taken apart. *)
Lemma library_step_inv (nm : string) (st st' : State) :
  library_step nm st = Some st' ->
  exists e e',
    lookup_child nm (tree st) = Some (Dir e)
    /\ write_child "index.json" (IndexFile (libraryIndex nm (fst (scan e)))) e = Some e'
    /\ st' = {| tree := replace_child nm (Dir e') (tree st);
                written := written st ++ [([nm], libraryIndex nm (fst (scan e)))];
                rootEntries := rootEntries st ++ [libraryRef nm (fst (scan e))];
                totalPresets := totalPresets st + Z.of_nat (length (fst (scan e)));
                totalErrors := totalErrors st + snd (scan e) |}.
Proof.
  unfold Indexer.library_step.
  destruct (lookup_child nm (tree st)) as [[c|e]|]; try discriminate.
  destruct (scan e) as [presetEntries errors] eqn:Hscan.
  destruct (write_child _ _ e) as [e'|] eqn:Hw; [|discriminate].
  intros [= <-]. exists e, e'. rewrite Hscan. cbn [fst snd].
  repeat apply conj; try reflexivity. exact Hw.
Qed.

Lemma step_scanned (nm : string) (st st' : State) :
  library_step nm st = Some st' ->
  forall m, scanned (tree st') m = scanned (tree st) m.
Proof.
  intros Hstep m. apply library_step_inv in Hstep as (e & e' & Hlook & Hw & ->).
  cbn [tree]. unfold Indexer.scanned.
  destruct (String.eqb_spec nm m) as [<- | Hne].
  - rewrite (lookup_replace_eq _ _ _ _ Hlook), Hlook, (scan_write _ _ _ Hw). reflexivity.
  - rewrite lookup_replace_ne by exact Hne. reflexivity.
Qed.

Lemma step_stable_self (nm : string) (st st' : State) :
  library_step nm st = Some st' -> stable (tree st') nm.
Proof.
  intros Hstep. apply library_step_inv in Hstep as (e & e' & Hlook & Hw & ->).
  exists e'. cbn [tree]. split; [eapply lookup_replace_eq, Hlook|].
  rewrite (scan_write _ _ _ Hw). eapply write_child_again, Hw.
Qed.

Lemma step_stable_other (nm m : string) (st st' : State) :
  library_step nm st = Some st' -> stable (tree st) m -> stable (tree st') m.
Proof.
  intros Hstep Hm. destruct (String.eqb_spec nm m) as [<- | Hne].
  - eapply step_stable_self, Hstep.
  - apply library_step_inv in Hstep as (e & e' & Hlook & Hw & ->).
    destruct Hm as (em & Hem & Hwm). exists em. cbn [tree].
    rewrite lookup_replace_ne by exact Hne. auto.
Qed.

Lemma step_libraries (nm : string) (st st' : State) :
  library_step nm st = Some st' ->
  map fst (List.filter isLibrary (tree st')) = map fst (List.filter isLibrary (tree st)).
Proof.
  intros Hstep. apply library_step_inv in Hstep as (e & e' & Hlook & Hw & ->).
  cbn [tree]. eapply libraries_replace, Hlook.
Qed.

Lemma loop_scanned (libs : list string) (st st' : State) :
  library_loop libs st = Some st' ->
  forall m, scanned (tree st') m = scanned (tree st) m.
Proof.
  revert st. induction libs as [|nm rest IH]; intros st; cbn [Indexer.library_loop].
  - intros [= <-]. reflexivity.
  - destruct (library_step nm st) as [st1|] eqn:Hstep; [|discriminate].
    intros Hloop m. rewrite (IH _ Hloop), (step_scanned _ _ _ Hstep). reflexivity.
Qed.

Lemma loop_stable_kept (libs : list string) (st st' : State) (m : string) :
  library_loop libs st = Some st' -> stable (tree st) m -> stable (tree st') m.
Proof.
  revert st. induction libs as [|nm rest IH]; intros st; cbn [Indexer.library_loop].
  - intros [= <-]. auto.
  - destruct (library_step nm st) as [st1|] eqn:Hstep; [|discriminate].
    intros Hloop Hm. eapply IH; [exact Hloop|]. eapply step_stable_other; eassumption.
Qed.

Lemma loop_stable (libs : list string) (st st' : State) :
  library_loop libs st = Some st' -> forall m, In m libs -> stable (tree st') m.
Proof.
  revert st. induction libs as [|nm rest IH]; intros st; cbn [Indexer.library_loop].
  - intros _ m [].
  - destruct (library_step nm st) as [st1|] eqn:Hstep; [|discriminate].
    intros Hloop m [<- | Hin].
    + eapply loop_stable_kept; [exact Hloop|]. eapply step_stable_self, Hstep.
    + eapply IH; eassumption.
Qed.

Lemma loop_libraries (libs : list string) (st st' : State) :
  library_loop libs st = Some st' ->
  map fst (List.filter isLibrary (tree st')) = map fst (List.filter isLibrary (tree st)).
Proof.
  revert st. induction libs as [|nm rest IH]; intros st; cbn [Indexer.library_loop].
  - intros [= <-]. reflexivity.
  - destruct (library_step nm st) as [st1|] eqn:Hstep; [|discriminate].
    intros Hloop. rewrite (IH _ Hloop). eapply step_libraries, Hstep.
Qed.

(** On a tree where the index of the library is in place and the presets
    are the same, the turn of the loop computes what it computed and leaves
    the tree as it is. *)
Lemma replay_step (T : Dirents) (nm : string) (st st1 : State) :
  stable T nm -> scanned T nm = scanned (tree st) nm ->
  library_step nm st = Some st1 ->
  library_step nm (with_tree T st) = Some (with_tree T st1).
Proof.
  intros (eT & HeT & HwT) Hsame Hstep.
  apply library_step_inv in Hstep as (e & e' & Hlook & Hw & ->).
  unfold Indexer.scanned in Hsame. rewrite HeT, Hlook in Hsame. injection Hsame as Hsame.
  unfold Indexer.library_step, with_tree; cbn [tree written rootEntries totalPresets totalErrors].
  rewrite HeT. rewrite Hsame in HwT.
  rewrite Hsame. destruct (scan e) as [presetEntries errors]. cbn [fst snd] in *.
  rewrite HwT, (replace_same _ _ _ HeT). reflexivity.
Qed.

Lemma replay (T : Dirents) (libs : list string) (st st' : State) :
  library_loop libs st = Some st' ->
  (forall nm, In nm libs -> stable T nm /\ scanned T nm = scanned (tree st') nm) ->
  library_loop libs (with_tree T st) = Some (with_tree T st').
Proof.
  revert st. induction libs as [|nm rest IH]; intros st; cbn [Indexer.library_loop].
  - intros [= <-] _. reflexivity.
  - destruct (library_step nm st) as [st1|] eqn:Hstep; [|discriminate].
    intros Hloop HT.
    destruct (HT nm (or_introl eq_refl)) as [Hstable Hsame].
    rewrite (replay_step T nm st st1 Hstable); [|  | exact Hstep].
    + apply IH; [exact Hloop|]. intros m Hm. apply HT. right. exact Hm.
    + rewrite Hsame, (loop_scanned _ _ _ Hloop), (step_scanned _ _ _ Hstep). reflexivity.
Qed.

(** The second run ends in the state of the first. *)
Lemma main_again (root : Dirents) (st : State) :
  main localeCompare root = Some st -> main localeCompare (tree st) = Some st.
Proof.
  unfold Indexer.main.
  set (st0 := {| tree := root; written := []; rootEntries := [];
                 totalPresets := 0; totalErrors := 0 |}).
  destruct (library_loop (topLevel root) st0) as [st1|] eqn:Hloop; [|discriminate].
  destruct (write_child "index.json" _ (tree st1)) as [T|] eqn:Hroot; [|discriminate].
  intros [= <-]. cbn [tree].
  assert (Hlibs : topLevel T = topLevel root).
  { unfold topLevel. rewrite (libraries_write _ _ _ _ Hroot), (loop_libraries _ _ _ Hloop).
    reflexivity. }
  rewrite Hlibs.
  assert (Hnot_index : forall nm, In nm (topLevel root) -> nm <> "index.json").
  { intros nm Hin ->. destruct (loop_stable _ _ _ Hloop _ Hin) as (e & He & _).
    assert (Hfail : write_child "index.json" (IndexFile (rootIndex (rootEntries st1))) (tree st1)
                    = None) by (apply write_child_fails; eauto).
    congruence. }
  change {| tree := T; written := []; rootEntries := [];
            totalPresets := 0; totalErrors := 0 |} with (with_tree T st0).
  rewrite (replay T _ st0 st1 Hloop).
  - cbn [with_tree tree rootEntries written totalPresets totalErrors].
    rewrite (write_child_again _ _ _ _ Hroot). reflexivity.
  - intros nm Hin. pose proof (Hnot_index nm Hin) as Hne.
    destruct (loop_stable _ _ _ Hloop _ Hin) as (e & He & Hw).
    assert (Hsame : lookup_child nm T = lookup_child nm (tree st1))
      by (eapply write_child_lookup_ne; [exact Hroot | congruence]).
    split.
    + exists e. rewrite Hsame. auto.
    + unfold Indexer.scanned. rewrite Hsame. reflexivity.
Qed.

End Replay.

(** ** Paths in the library tree *)

Section TreePaths.
Import Indexer Index.

Lemma lookup_path_cons (nm : string) (rest : list string) (d : Dirents) :
  rest <> [] ->
  lookup_path (nm :: rest) d
  = match lookup_child nm d with
    | Some (Dir d') => lookup_path rest d'
    | _ => None
    end.
Proof. destruct rest; [congruence | reflexivity]. Qed.

Lemma lookup_child_name (nm : string) (d : Dirents) (x : FsNode) :
  lookup_child nm d = Some x -> In nm (map fst d).
Proof.
  induction d as [|[n z] d IH]; [discriminate|]. cbn.
  destruct (String.eqb_spec n nm); [auto | intros H; right; exact (IH H)].
Qed.

Lemma lookup_path_head (p : list string) (d : Dirents) (x : FsNode) :
  lookup_path p d = Some x -> exists nm rest, p = nm :: rest /\ In nm (map fst d).
Proof.
  destruct p as [|nm rest]; [discriminate|]. intros H. exists nm, rest. split; [reflexivity|].
  destruct rest as [|m rest].
  - eapply lookup_child_name, H.
  - cbn in H. destruct (lookup_child nm d) eqn:Hc; [|discriminate].
    eapply lookup_child_name, Hc.
Qed.

(** Writing a file keeps every file of the directory a file. *)
Lemma is_file_write (nm : string) (c : FileData) (d d' : Dirents) (p : list string) :
  write_child nm c d = Some d' -> is_file p d -> is_file p d'.
Proof.
  intros Hw [c0 Hp]. unfold is_file. destruct p as [|x [|y rest]]; [discriminate| |].
  - cbn [lookup_path] in *. destruct (String.eqb_spec nm x) as [<- | Hne].
    + exists c. eapply write_child_lookup_eq, Hw.
    + exists c0. rewrite (write_child_lookup_ne _ _ _ _ _ Hw Hne). exact Hp.
  - rewrite lookup_path_cons in Hp by discriminate.
    destruct (lookup_child x d) as [[cx|sub]|] eqn:Hx; try discriminate.
    assert (Hne : nm <> x).
    { intros ->. assert (write_child x c d = None) by (apply write_child_fails; eauto).
      congruence. }
    exists c0. rewrite lookup_path_cons by discriminate.
    rewrite (write_child_lookup_ne _ _ _ _ _ Hw Hne), Hx. exact Hp.
Qed.

(** Replacing a directory by one that keeps its files keeps the files of
    the tree. *)
Lemma is_file_replace (nm : string) (e e' : Dirents) (t : Dirents) (p : list string) :
  lookup_child nm t = Some (Dir e) ->
  (forall q, is_file q e -> is_file q e') ->
  is_file p t -> is_file p (replace_child nm (Dir e') t).
Proof.
  intros Hnm Hkeep [c0 Hp]. unfold is_file. destruct p as [|x [|y rest]]; [discriminate| |].
  - cbn [lookup_path] in *. destruct (String.eqb_spec nm x) as [<- | Hne]; [congruence|].
    exists c0. rewrite lookup_replace_ne by exact Hne. exact Hp.
  - rewrite lookup_path_cons in Hp by discriminate.
    rewrite lookup_path_cons by discriminate.
    destruct (String.eqb_spec nm x) as [<- | Hne].
    + rewrite (lookup_replace_eq _ _ _ _ Hnm). rewrite Hnm in Hp.
      apply (Hkeep (y :: rest)). exists c0. exact Hp.
    + rewrite lookup_replace_ne by exact Hne. exists c0. exact Hp.
Qed.

(** *** Well-formed trees *)

Lemma distinct_NoDup (l : list string) : distinct l = true <-> List.NoDup l.
Proof.
  induction l as [|x l IH]; cbn [distinct].
  - split; [constructor | reflexivity].
  - assert (Hin : existsb (String.eqb x) l = false <-> ~ In x l).
    { rewrite <- not_true_iff_false, existsb_exists. split.
      - intros H Hin. apply H. exists x. split; [exact Hin | apply String.eqb_refl].
      - intros H (y & Hy & Heq). apply String.eqb_eq in Heq. subst. auto. }
    split.
    + intros H. apply andb_true_iff in H as [Hx Hl]. apply negb_true_iff in Hx.
      constructor; [apply Hin, Hx | apply IH, Hl].
    + intros H. apply List.NoDup_cons_iff in H as [Hx Hl].
      apply andb_true_iff. split; [apply negb_true_iff, Hin, Hx | apply IH, Hl].
Qed.

Lemma wf_node_Dir (d : Dirents) :
  wf_node (Dir d)
  = distinct (map fst d) && forallb (fun e => name_ok (fst e)) d
    && forallb (fun e => wf_node (snd e)) d.
Proof.
  cbn [wf_node]. f_equal.
  induction d as [|[n x] d IH]; [reflexivity|]. cbn [forallb snd]. rewrite IH. reflexivity.
Qed.

Lemma wf_Dir_iff (d : Dirents) :
  wf_node (Dir d) = true
  <-> List.NoDup (map fst d)
      /\ Forall (fun e => name_ok (fst e) = true /\ wf_node (snd e) = true) d.
Proof.
  rewrite wf_node_Dir, !andb_true_iff, distinct_NoDup, !forallb_forall, List.Forall_forall.
  split.
  - intros [[Hd Hn] Hw]. split; [exact Hd|]. intros e He. split; [apply Hn | apply Hw]; exact He.
  - intros [Hd Hall]. repeat split; [exact Hd | |]; intros e He; apply Hall; exact He.
Qed.

Lemma wf_lookup (nm : string) (d : Dirents) (x : FsNode) :
  wf_node (Dir d) = true -> lookup_child nm d = Some x ->
  name_ok nm = true /\ wf_node x = true.
Proof.
  rewrite wf_Dir_iff. intros [_ Hall]. induction Hall as [|[n z] d [Hn Hz] _ IH]; [discriminate|].
  cbn. destruct (String.eqb_spec n nm) as [<- | _]; [intros [= <-]; auto | exact IH].
Qed.

Lemma wf_write (nm : string) (c : FileData) (d d' : Dirents) :
  name_ok nm = true -> wf_node (Dir d) = true ->
  write_child nm c d = Some d' -> wf_node (Dir d') = true.
Proof.
  intros Hnm. rewrite !wf_Dir_iff. revert d'.
  induction d as [|[n z] d IH]; intros d' [Hd Hall]; cbn [write_child].
  - intros [= <-]. split; [repeat constructor; intros [] | repeat constructor; exact Hnm].
  - apply List.Forall_cons_iff in Hall as [Hz Hall]. cbn [map fst] in Hd.
    apply List.NoDup_cons_iff in Hd as [Hn Hd].
    destruct (String.eqb_spec n nm) as [-> | Hne].
    + destruct (isDirectory z); [discriminate|]. intros [= <-]. split.
      * cbn. constructor; assumption.
      * constructor; [split; [exact Hnm | reflexivity] | exact Hall].
    + destruct (write_child nm c d) as [d1|] eqn:Hw; [|discriminate].
      intros [= <-]. destruct (IH d1 (conj Hd Hall) eq_refl) as [Hd1 Hall1].
      split; [|constructor; assumption].
      cbn. constructor; [|exact Hd1].
      intros Hin. apply Hn. clear - Hin Hw Hne.
      revert d1 Hw Hin. induction d as [|[m y] d IHd]; intros d1; cbn [write_child].
      * intros [= <-] [Heq | []]. cbn in Heq. congruence.
      * destruct (String.eqb m nm).
        -- destruct (isDirectory y); [discriminate|]. intros [= <-]. auto.
        -- destruct (write_child nm c d) as [d2|]; [|discriminate].
           intros [= <-] [Heq | Hin]; [left; exact Heq | right; eapply IHd; eauto].
Qed.

Lemma wf_replace (nm : string) (y : FsNode) (d : Dirents) :
  wf_node y = true -> wf_node (Dir d) = true ->
  wf_node (Dir (replace_child nm y d)) = true.
Proof.
  intros Hy. rewrite !wf_Dir_iff. intros [Hd Hall].
  assert (Hnames : map fst (replace_child nm y d) = map fst d).
  { clear. induction d as [|[n z] d IH]; [reflexivity|]. cbn.
    destruct (String.eqb n nm); cbn; [reflexivity | rewrite IH; reflexivity]. }
  rewrite Hnames. split; [exact Hd|]. clear Hd Hnames.
  induction Hall as [|[n z] d [Hn Hz] Hall IH]; [constructor|]. cbn [replace_child].
  destruct (String.eqb n nm); constructor; cbn [fst snd] in *; auto.
Qed.

(** *** What the walk finds is where it says *)

Lemma found_is_there (n : FsNode) :
  forall dir rel c,
    wf_node n = true -> In (rel, c) (findPresetFiles dir n) ->
    exists rel',
      rel = dir ++ rel' /\ rel' <> [] /\ Forall (fun nm => name_ok nm = true) rel'
      /\ match n with
         | Dir e => lookup_path rel' e = Some (File c)
         | File _ => False
         end.
Proof.
  induction n as [c0|d IHd] using FsNode_induction; intros dir rel c Hwf Hin; [destruct Hin|].
  revert Hwf Hin. induction IHd as [|[nm x] d Hx _ IH]; intros Hwf Hin; [destruct Hin|].
  rewrite findPresetFiles_cons in Hin.
  apply wf_Dir_iff in Hwf as [Hnodup Hall].
  apply List.Forall_cons_iff in Hall as [[Hnm Hwfx] Hall].
  cbn [map fst snd] in *. apply List.NoDup_cons_iff in Hnodup as [Hfresh Hnodup].
  apply in_app_or in Hin as [Hin | Hin].
  - destruct x as [c0|sub].
    + destruct (String.eqb_spec nm "preset.json") as [-> | _]; [|destruct Hin].
      destruct Hin as [[= <- <-] | []]. exists ["preset.json"].
      repeat apply conj; try reflexivity; [discriminate | repeat constructor].
    + destruct (Hx _ _ _ Hwfx Hin) as (rel' & -> & Hne & Hnames & Hlook).
      exists (nm :: rel'). repeat apply conj.
      * rewrite <- app_assoc. reflexivity.
      * discriminate.
      * constructor; assumption.
      * rewrite lookup_path_cons by exact Hne. cbn. rewrite String.eqb_refl. exact Hlook.
  - assert (Hwf' : wf_node (Dir d) = true) by (apply wf_Dir_iff; auto).
    destruct (IH Hwf' Hin) as (rel' & -> & Hne & Hnames & Hlook).
    exists rel'. repeat apply conj; try assumption; try reflexivity.
    destruct (lookup_path_head _ _ _ Hlook) as (m & rest & -> & Hm).
    assert (Hdiff : String.eqb nm m = false) by (apply String.eqb_neq; congruence).
    destruct rest as [|m' rest]; cbn in *; rewrite Hdiff; exact Hlook.
Qed.

(** *** Reading a path back *)

Lemma name_ok_plain (nm : string) : name_ok nm = true -> plain nm = true.
Proof. unfold name_ok. rewrite andb_true_iff. intros [_ H]. exact H. Qed.

Lemma split_on_plain (x cur s : string) :
  plain x = true ->
  Js.split_on "/" cur (x +:+ s) = Js.split_on "/" (cur +:+ x) s.
Proof.
  revert cur. induction x as [|c x IH]; intros cur Hx.
  - replace (cur +:+ "") with cur; [reflexivity|].
    clear. induction cur as [|a t IHt]; [reflexivity|]. rewrite append_cons, <- IHt. reflexivity.
  - cbn in Hx. apply andb_true_iff in Hx as [Hc Hx].
    apply andb_true_iff in Hc as [Hslash _]. apply negb_true_iff in Hslash.
    rewrite append_cons. cbn [Js.split_on]. rewrite Hslash, IH by exact Hx.
    rewrite append_assoc. reflexivity.
Qed.

Lemma split_join (rel : list string) :
  rel <> [] -> Forall (fun nm => plain nm = true) rel ->
  Js.split_on "/" "" (Js.join_with "/" rel) = rel.
Proof.
  intros Hne Hall. induction Hall as [|x rel Hx Hall IH]; [congruence|].
  destruct rel as [|y rel].
  - cbn [Js.join_with]. replace x with (x +:+ "") at 1.
    + rewrite split_on_plain by exact Hx. reflexivity.
    + clear. induction x as [|a t IHt]; [reflexivity|]. rewrite append_cons, IHt. reflexivity.
  - change (Js.join_with "/" (x :: y :: rel))
      with (x +:+ String "/" (Js.join_with "/" (y :: rel))).
    rewrite split_on_plain by exact Hx. cbn [Js.split_on].
    change (Ascii.eqb "/" "/") with true. cbv iota.
    change ("" +:+ x) with x. rewrite IH by discriminate. reflexivity.
Qed.

Lemma string_map_plain (s : string) :
  Js.string_forallb (fun c => negb (Ascii.eqb c "\")) s = true ->
  Js.string_map (fun c => if Ascii.eqb c "\" then "/"%char else c) s = s.
Proof.
  induction s as [|c s IH]; [reflexivity|]. cbn.
  rewrite andb_true_iff, negb_true_iff. intros [Hc Hs]. rewrite Hc, IH by exact Hs. reflexivity.
Qed.

Lemma join_no_backslash (rel : list string) :
  Forall (fun nm => plain nm = true) rel ->
  Js.string_forallb (fun c => negb (Ascii.eqb c "\")) (Js.join_with "/" rel) = true.
Proof.
  assert (Happ : forall s t,
             Js.string_forallb (fun c => negb (Ascii.eqb c "\")) s = true ->
             Js.string_forallb (fun c => negb (Ascii.eqb c "\")) t = true ->
             Js.string_forallb (fun c => negb (Ascii.eqb c "\")) (s +:+ t) = true).
  { intros s t Hs Ht. induction s as [|c s IH]; [exact Ht|].
    rewrite append_cons. cbn in *. apply andb_true_iff in Hs as [Hc Hs].
    rewrite Hc, IH by exact Hs. reflexivity. }
  assert (Hweak : forall s, plain s = true ->
             Js.string_forallb (fun c => negb (Ascii.eqb c "\")) s = true).
  { induction s as [|c s IH]; [reflexivity|]. cbn.
    rewrite !andb_true_iff. intros [[_ Hc] Hs]. auto. }
  induction 1 as [|x rel Hx Hall IH]; [reflexivity|].
  destruct rel as [|y rel]; [apply Hweak, Hx|].
  change (Js.join_with "/" (x :: y :: rel)) with (x +:+ "/" +:+ Js.join_with "/" (y :: rel)).
  apply Happ; [apply Hweak, Hx|]. apply Happ; [reflexivity | exact IH].
Qed.

(** The path of an entry, split at its separators, is the path the walk
    found. *)
Lemma split_relPath (rel : list string) :
  rel <> [] -> Forall (fun nm => name_ok nm = true) rel ->
  Js.split_on "/" "" (relPath rel) = rel.
Proof.
  intros Hne Hall.
  assert (Hplain : Forall (fun nm => plain nm = true) rel)
    by (eapply List.Forall_impl; [|exact Hall]; intros nm; apply name_ok_plain).
  unfold relPath. rewrite string_map_plain by (apply join_no_backslash, Hplain).
  apply split_join; assumption.
Qed.

End TreePaths.

(** ** The indexes of the Indexer *)

Section IndexerIndexes.
Import Indexer Index.

Variable localeCompare : string -> string -> Z.

Lemma In_insert_by {A} (lt : A -> A -> bool) (x y : A) (l : list A) :
  In y (Js.insert_by lt x l) <-> y = x \/ In y l.
Proof.
  induction l as [|z l IH]; cbn.
  - intuition.
  - destruct (lt z x); cbn; [rewrite IH|]; intuition.
Qed.

(** Sorting keeps the elements. *)
Lemma In_sort_by {A} (lt : A -> A -> bool) (y : A) (l : list A) :
  In y (Js.sort_by lt l) <-> In y l.
Proof.
  unfold Js.sort_by. induction l as [|x l IH]; cbn; [reflexivity|].
  rewrite In_insert_by, IH. intuition.
Qed.

Lemma buildEntries_In (files : list (list string * FileData)) (entry : PresetEntry) :
  In entry (fst (buildEntries files)) ->
  exists rel c, In (rel, c) files /\ buildPresetEntry rel c = Some entry.
Proof.
  induction files as [|[rel c] files IH]; cbn [buildEntries]; [intros []|].
  destruct (buildEntries files) as [es errors]. cbn [fst] in IH.
  destruct (buildPresetEntry rel c) as [e|] eqn:He; cbn [fst].
  - intros [<- | Hin].
    + exists rel, c. split; [left; reflexivity | exact He].
    + destruct (IH Hin) as (rel' & c' & Hin' & He'). exists rel', c'. split; [right|]; assumption.
  - intros Hin. destruct (IH Hin) as (rel' & c' & Hin' & He').
    exists rel', c'. split; [right|]; assumption.
Qed.

Lemma buildPresetEntry_path (rel : list string) (c : FileData) (entry : PresetEntry) :
  buildPresetEntry rel c = Some entry -> pe_path entry = relPath rel.
Proof.
  unfold buildPresetEntry. destruct (parse c); [|discriminate]. intros [= <-]. reflexivity.
Qed.

(** Every entry of a library comes from a file the walk found. *)
Lemma scan_In (e : Dirents) (entry : PresetEntry) :
  In entry (fst (scan localeCompare e)) ->
  exists rel c,
    In (rel, c) (findPresetFiles [] (Dir e)) /\ pe_path entry = relPath rel.
Proof.
  unfold scan. destruct (buildEntries (findPresetFiles [] (Dir e))) as [es errors] eqn:Hes.
  cbn [fst]. unfold sortEntries. rewrite In_sort_by. intros Hin.
  assert (Hin' : In entry (fst (buildEntries (findPresetFiles [] (Dir e)))))
    by (rewrite Hes; exact Hin).
  apply buildEntries_In in Hin' as (rel & c & Hfound & Hbuilt).
  exists rel, c. split; [exact Hfound | eapply buildPresetEntry_path, Hbuilt].
Qed.

Lemma step_keeps_files (nm : string) (st st' : State) (p : list string) :
  library_step localeCompare nm st = Some st' ->
  is_file p (tree st) -> is_file p (tree st').
Proof.
  intros Hstep. apply library_step_inv in Hstep as (e & e' & Hlook & Hw & ->).
  cbn [tree]. apply (is_file_replace nm e e'); [exact Hlook|].
  intros q. eapply is_file_write, Hw.
Qed.

Lemma split_library_ref (nm : string) :
  name_ok nm = true -> Js.split_on "/" "" (nm +:+ "/index.json") = [nm; "index.json"].
Proof.
  intros Hnm. apply name_ok_plain in Hnm.
  rewrite split_on_plain by exact Hnm. reflexivity.
Qed.

Lemma step_indexes_ok (nm : string) (st st' : State) :
  indexes_ok st -> library_step localeCompare nm st = Some st' -> indexes_ok st'.
Proof.
  intros (Hwf & Hwritten & Hroots) Hstep.
  pose proof (step_keeps_files nm st st') as Hkeep. specialize (fun p => Hkeep p Hstep).
  apply library_step_inv in Hstep as (e & e' & Hlook & Hw & ->).
  destruct (wf_lookup nm (tree st) (Dir e) Hwf Hlook) as [Hnm Hwfe].
  assert (Hwfe' : wf_node (Dir e') = true)
    by exact (wf_write "index.json" _ e e' eq_refl Hwfe Hw).
  assert (Hnow : lookup_child nm (replace_child nm (Dir e') (tree st)) = Some (Dir e'))
    by (eapply lookup_replace_eq, Hlook).
  unfold indexes_ok. cbn [tree written rootEntries] in *. repeat apply conj.
  - apply wf_replace; assumption.
  - intros dir doc Hin. apply in_app_or in Hin as [Hin | [[= <- <-] | []]].
    + eapply List.Forall_impl; [|exact (Hwritten dir doc Hin)].
      intros entry. apply Hkeep.
    + cbn [libraryIndex ix_entries]. apply Forall_map. apply List.Forall_forall.
      intros entry Hentry. cbn [entry_path].
      destruct (scan_In e entry Hentry) as (rel & c & Hfound & ->).
      destruct (found_is_there (Dir e) [] rel c Hwfe Hfound)
        as (rel' & Hrel & Hne & Hnames & Hthere).
      cbn [app] in Hrel. subst rel'.
      unfold resolves. rewrite split_relPath by assumption.
      cbn [app]. unfold is_file. rewrite lookup_path_cons by exact Hne. rewrite Hnow.
      apply (is_file_write _ _ _ _ rel Hw). exists c. exact Hthere.
  - apply Forall_app. split.
    + eapply List.Forall_impl; [|exact Hroots]. intros ref. apply Hkeep.
    + constructor; [|constructor]. cbn [libraryRef lr_path].
      unfold resolves. rewrite split_library_ref by exact Hnm. cbn [app].
      exists (IndexFile (libraryIndex nm (fst (scan localeCompare e)))).
      rewrite lookup_path_cons by discriminate. rewrite Hnow.
      cbn [lookup_path]. eapply write_child_lookup_eq, Hw.
Qed.

Lemma loop_indexes_ok (libs : list string) (st st' : State) :
  indexes_ok st -> library_loop localeCompare libs st = Some st' -> indexes_ok st'.
Proof.
  revert st. induction libs as [|nm rest IH]; intros st Hst; cbn [library_loop].
  - intros [= <-]. exact Hst.
  - destruct (library_step localeCompare nm st) as [st1|] eqn:Hstep; [|discriminate].
    apply IH. eapply step_indexes_ok; eassumption.
Qed.

(** Every index document of a run on a well-formed tree: each path of its
    resolves, from the directory of the document, to a file of the tree the
    run leaves. *)
Lemma indexer_index_paths (root : Dirents) (st : State) :
  wf root = true -> main localeCompare root = Some st ->
  forall dir doc,
    In (dir, doc) (written st) ->
    Forall (fun e => resolves (tree st) dir (entry_path e)) (ix_entries doc).
Proof.
  intros Hwf. unfold main.
  destruct (library_loop _ _ _) as [st1|] eqn:Hloop; [|discriminate].
  destruct (write_child "index.json" _ (tree st1)) as [T|] eqn:Hroot; [|discriminate].
  intros [= <-]. cbn [tree written].
  assert (Hok : indexes_ok st1).
  { eapply loop_indexes_ok; [|exact Hloop]. repeat apply conj; cbn; [exact Hwf | intros ? ? [] | constructor]. }
  destruct Hok as (_ & Hwritten & Hroots).
  intros dir doc Hin. apply in_app_or in Hin as [Hin | [[= <- <-] | []]].
  - eapply List.Forall_impl; [|exact (Hwritten dir doc Hin)].
    intros entry. eapply is_file_write, Hroot.
  - cbn [rootIndex ix_entries]. apply Forall_map.
    eapply List.Forall_impl; [|exact Hroots].
    intros ref. cbn [entry_path]. eapply is_file_write, Hroot.
Qed.

End IndexerIndexes.

(** ** The Indexer completes *)

Section Completion.
Import Indexer Index.

Variable localeCompare : string -> string -> Z.

Lemma lookup_child_unique (nm : string) (x : FsNode) (d : Dirents) :
  List.NoDup (map fst d) -> In (nm, x) d -> lookup_child nm d = Some x.
Proof.
  induction d as [|[n z] d IH]; [intros _ []|]. cbn [map fst].
  intros Hnodup Hin. apply List.NoDup_cons_iff in Hnodup as [Hfresh Hnodup].
  cbn [lookup_child]. destruct Hin as [[= -> ->] | Hin].
  - rewrite String.eqb_refl. reflexivity.
  - destruct (String.eqb_spec n nm) as [-> | _]; [|auto].
    destruct Hfresh. apply in_map_iff. exists (nm, x). auto.
Qed.

(** Every name of [topLevel] is a directory of the root. *)
Lemma topLevel_directory (root : Dirents) (nm : string) :
  wf root = true -> In nm (topLevel root) ->
  exists e, lookup_child nm root = Some (Dir e).
Proof.
  intros Hwf. unfold topLevel, Js.sort_strings. rewrite In_sort_by, in_map_iff.
  intros ([n x] & <- & Hin). apply filter_In in Hin as [Hin Hlib].
  unfold isLibrary in Hlib. cbn [fst snd] in *. apply andb_true_iff in Hlib as [Hdir _].
  destruct x as [c|e]; [discriminate|]. exists e.
  apply wf_Dir_iff in Hwf as [Hnodup _]. apply lookup_child_unique; assumption.
Qed.

Lemma step_succeeds (nm : string) (st : State) (e : Dirents) :
  writable (tree st) -> lookup_child nm (tree st) = Some (Dir e) ->
  exists st',
    library_step localeCompare nm st = Some st'
    /\ writable (tree st')
    /\ forall m em, lookup_child m (tree st) = Some (Dir em) ->
                    exists em', lookup_child m (tree st') = Some (Dir em').
Proof.
  intros [Hroot Hdirs] Hlook. unfold library_step. rewrite Hlook.
  destruct (scan localeCompare e) as [presetEntries errors].
  destruct (write_child "index.json" (IndexFile (libraryIndex nm presetEntries)) e)
    as [e'|] eqn:Hw.
  - eexists. split; [reflexivity|]. cbn [tree].
    assert (Hne : nm <> "index.json").
    { intros ->. exact (Hroot e Hlook). }
    assert (He' : index_free e').
    { intros x Hx. rewrite (write_child_lookup_eq _ _ _ _ Hw) in Hx. discriminate. }
    split; [split|].
    + intros x. rewrite lookup_replace_ne by exact Hne. apply Hroot.
    + intros m em. destruct (String.eqb_spec nm m) as [<- | Hm].
      * rewrite (lookup_replace_eq _ _ _ _ Hlook). intros [= <-]. exact He'.
      * rewrite lookup_replace_ne by exact Hm. apply Hdirs.
    + intros m em. destruct (String.eqb_spec nm m) as [<- | Hm].
      * rewrite (lookup_replace_eq _ _ _ _ Hlook). eauto.
      * rewrite lookup_replace_ne by exact Hm. eauto.
  - apply write_child_fails in Hw as [x Hx]. destruct (Hdirs nm e Hlook x Hx).
Qed.

Lemma loop_succeeds (libs : list string) (st : State) :
  writable (tree st) ->
  (forall nm, In nm libs -> exists e, lookup_child nm (tree st) = Some (Dir e)) ->
  exists st', library_loop localeCompare libs st = Some st' /\ writable (tree st').
Proof.
  revert st. induction libs as [|nm rest IH]; intros st Hwritable Hdirs.
  - exists st. split; [reflexivity | exact Hwritable].
  - destruct (Hdirs nm (or_introl eq_refl)) as [e He].
    destruct (step_succeeds nm st e Hwritable He) as (st1 & Hstep & Hwritable1 & Hkept).
    cbn [library_loop]. rewrite Hstep. apply IH; [exact Hwritable1|].
    intros m Hm. destruct (Hdirs m (or_intror Hm)) as [em Hem]. eapply Hkept, Hem.
Qed.

End Completion.

(** On a well-formed tree in which no directory is called [index.json] at
    the root or directly inside a top-level directory, the Indexer runs to
    its end: every library index and the root index are written. *)
Lemma main_completes (localeCompare : string -> string -> Z)
    (root : list (string * Indexer.FsNode)) :
  Indexer.wf root = true -> Indexer.writable root ->
  exists st,
    Indexer.main localeCompare root = Some st
    /\ length (Indexer.written st) = S (length (Indexer.topLevel root)).
Proof.
  intros Hwf Hwritable. unfold Indexer.main.
  destruct (loop_succeeds localeCompare (Indexer.topLevel root)
              {| Indexer.tree := root; Indexer.written := []; Indexer.rootEntries := [];
                 Indexer.totalPresets := 0; Indexer.totalErrors := 0 |} Hwritable)
    as (st1 & Hloop & [Hfree _]).
  { intros nm Hin. apply topLevel_directory; assumption. }
  rewrite Hloop.
  destruct (Indexer.write_child "index.json" _ (Indexer.tree st1)) as [T|] eqn:Hroot.
  - eexists. split; [reflexivity|]. cbn [Indexer.written].
    rewrite length_app. cbn [length].
    assert (Hcount : forall libs st st',
               Indexer.library_loop localeCompare libs st = Some st' ->
               length (Indexer.written st') = (length (Indexer.written st) + length libs)%nat).
    { clear. induction libs as [|nm rest IH]; intros st st'; cbn [Indexer.library_loop].
      - intros [= <-]. cbn. lia.
      - destruct (Indexer.library_step localeCompare nm st) as [st1|] eqn:Hstep; [|discriminate].
        intros Hloop. rewrite (IH _ _ Hloop).
        apply library_step_inv in Hstep as (e & e' & _ & _ & ->).
        cbn [Indexer.written]. rewrite length_app. cbn. lia. }
    rewrite (Hcount _ _ _ Hloop). cbn. lia.
  - apply write_child_fails in Hroot as [x Hx]. destruct (Hfree x Hx).
Qed.

(** C8. Running the Indexer a second time, on the tree the first run
    left, ends in the same state: the same library index documents and the
    same root index document are written, in the same order, and the tree is
    as it was after the first run. This holds for every [localeCompare]: the
    sort of the entries by (category, name) is a function of the entries.
    The first run does end, on every well-formed tree in which no directory
    takes the place of an index document. *)
Theorem C8_indexer_idempotent (localeCompare : string -> string -> Z)
    (root : list (string * Indexer.FsNode)) :
  (forall st,
      Indexer.main localeCompare root = Some st ->
      exists st',
        Indexer.main localeCompare (Indexer.tree st) = Some st'
        /\ Indexer.written st' = Indexer.written st
        /\ Indexer.tree st' = Indexer.tree st)
  /\ (Indexer.wf root = true -> Indexer.writable root ->
      exists st, Indexer.main localeCompare root = Some st).
Proof.
  split.
  - intros st Hmain. exists st.
    split; [exact (main_again localeCompare root st Hmain) | split; reflexivity].
  - intros Hwf Hwritable.
    destruct (main_completes localeCompare root Hwf Hwritable) as (st & Hmain & _).
    exists st. exact Hmain.
Qed.

(** The sample tree, indexed twice. *)
Lemma C8_indexer_idempotent_witness :
  exists st,
    Indexer.main Indexer.codeUnitCompare Samples.library_tree = Some st
    /\ exists st',
         Indexer.main Indexer.codeUnitCompare (Indexer.tree st) = Some st'
         /\ Indexer.written st' = Indexer.written st
         /\ Indexer.tree st' = Indexer.tree st.
Proof.
  eexists. split; [vm_compute; reflexivity|].
  apply (proj1 (C8_indexer_idempotent Indexer.codeUnitCompare Samples.library_tree)).
  vm_compute. reflexivity.
Defined.

(** C5. In every library index and root index that a run of the Converter
    (not dry) or a run of the Indexer (on a well-formed tree) writes, the
    path of every entry leads, from the directory that holds the index
    document, to a file that exists when the run ends. *)
Theorem C5_index_paths_resolve :
  (forall (cfg : Converter.Config) (src : Converter.Source) (res : Converter.Result),
      Converter.DRY_RUN cfg = false ->
      Converter.main cfg src = Some res ->
      forall path doc,
        Converter.written path (Converter.IndexJson doc)
          (Converter.world (Converter.final res)) ->
        exists dir,
          path = Converter.join [dir; "index.json"]
          /\ Forall (fun e => Converter.file_exists
                                (Converter.join [dir; Index.entry_path e])
                                (Converter.world (Converter.final res)))
               (Index.ix_entries doc))
  /\ (forall (localeCompare : string -> string -> Z)
             (root : list (string * Indexer.FsNode)) (st : Indexer.State),
        Indexer.wf root = true ->
        Indexer.main localeCompare root = Some st ->
        forall dir doc,
          In (dir, doc) (Indexer.written st) ->
          Forall (fun e =>
                    exists c,
                      Indexer.lookup_path (dir ++ Js.split_on "/" "" (Index.entry_path e))
                        (Indexer.tree st)
                      = Some (Indexer.File c))
            (Index.ix_entries doc)).
Proof.
  split.
  - intros cfg src res Hreal Hmain. exact (converter_index_paths cfg Hreal src res Hmain).
  - intros localeCompare root st Hwf Hmain.
    exact (indexer_index_paths localeCompare root st Hwf Hmain).
Qed.

(** The index of the Chaos library, written by the Converter, and the
    indexes of the sample tree, written by the Indexer. *)
Lemma C5_index_paths_resolve_witness :
  (Converter.DRY_RUN Samples.real_run = false
   /\ exists res,
        Converter.main Samples.real_run Samples.drum = Some res
        /\ Converter.file_exists "library-output/Chaos/index.json"
             (Converter.world (Converter.final res))
        /\ forall path doc,
             Converter.written path (Converter.IndexJson doc)
               (Converter.world (Converter.final res)) ->
             exists dir,
               path = Converter.join [dir; "index.json"]
               /\ Forall (fun e => Converter.file_exists
                                     (Converter.join [dir; Index.entry_path e])
                                     (Converter.world (Converter.final res)))
                    (Index.ix_entries doc))
  /\ (Indexer.wf Samples.library_tree = true
      /\ exists st,
           Indexer.main Indexer.codeUnitCompare Samples.library_tree = Some st
           /\ length (Indexer.written st) = 3%nat
           /\ forall dir doc,
                In (dir, doc) (Indexer.written st) ->
                Forall (fun e =>
                          exists c,
                            Indexer.lookup_path
                              (dir ++ Js.split_on "/" "" (Index.entry_path e))
                              (Indexer.tree st)
                            = Some (Indexer.File c))
                  (Index.ix_entries doc)).
Proof.
  destruct C5_index_paths_resolve as [Hconverter Hindexer].
  split.
  - split; [reflexivity|]. eexists. split; [vm_compute; reflexivity|]. split.
    + eexists. unfold Converter.written. vm_compute. do 4 right. left. reflexivity.
    + apply (Hconverter Samples.real_run Samples.drum); [reflexivity|].
      vm_compute. reflexivity.
  - split; [reflexivity|]. eexists. split; [vm_compute; reflexivity|]. split; [reflexivity|].
    apply (Hindexer Indexer.codeUnitCompare Samples.library_tree); [reflexivity|].
    vm_compute. reflexivity.
Defined.

(** ** The Indexer completes *)



(** ** Further properties of the Converter *)

(** In a run that is not dry, [extractAudio] writes the payload of every
    zone that has one, whatever the dedup table holds: the write comes after
    the dedup check and does not depend on it. *)
Theorem extractAudio_writes_every_time (cfg : Converter.Config) (zone : Converter.Zone)
    (presetDir : string) (zoneIndex : nat) (noteName : string) (w : Converter.World)
    (data : string) :
  Converter.DRY_RUN cfg = false ->
  Converter.audioData zone = Some data ->
  exists fname,
    Converter.disk (snd (Converter.extractAudio cfg zone presetDir zoneIndex noteName w))
    = Converter.disk w
      ++ [Converter.WriteFile (Converter.join [presetDir; fname])
            (Converter.AudioBytes (Base64.decode data))].
Proof.
  intros Hreal Hdata. unfold Converter.extractAudio. rewrite Hdata, Hreal.
  eexists. cbn [snd Converter.perform Converter.disk]. f_equal.
  apply record_hash_disk.
Qed.

Lemma extractAudio_writes_every_time_witness :
  Converter.DRY_RUN Samples.real_run = false
  /\ Converter.audioData Samples.piano_zone = Some "SUQzAAAA"
  /\ exists fname,
       Converter.disk (snd (Converter.extractAudio Samples.real_run Samples.piano_zone
                              "library-output" 0 "C4" Converter.empty_world))
       = [Converter.WriteFile (Converter.join ["library-output"; fname])
            (Converter.AudioBytes (Base64.decode "SUQzAAAA"))].
Proof.
  split; [reflexivity|]. split; [reflexivity|].
  exact (extractAudio_writes_every_time Samples.real_run Samples.piano_zone
           "library-output" 0 "C4" Converter.empty_world "SUQzAAAA" eq_refl eq_refl).
Defined.

(** The dedup table of [extractAudio]: the first zone to produce a hash
    records its file name with the count 1 and leaves the counter of
    duplicates alone; a later zone with the same hash keeps the recorded
    name, raises the count by one and the counter by one. *)
Theorem extractAudio_counts_duplicates (cfg : Converter.Config) (zone : Converter.Zone)
    (presetDir : string) (zoneIndex : nat) (noteName : string) (w : Converter.World)
    (data : string) :
  Converter.audioData zone = Some data ->
  let hash := substring 0 16 (Sha256.digest_hex (Base64.decode data)) in
  let w' := snd (Converter.extractAudio cfg zone presetDir zoneIndex noteName w) in
  match Converter.audioHashes w !! hash with
  | None =>
      (exists fname,
          Converter.audioHashes w' !! hash
          = Some {| Converter.he_filename := fname; Converter.he_count := 1 |})
      /\ Converter.totalDedupSaved w' = Converter.totalDedupSaved w
  | Some e =>
      Converter.audioHashes w' !! hash
      = Some {| Converter.he_filename := Converter.he_filename e;
                Converter.he_count := Converter.he_count e + 1 |}
      /\ Converter.totalDedupSaved w' = Converter.totalDedupSaved w + 1
  end.
Proof.
  intros Hdata hash w'. subst w'. unfold Converter.extractAudio. rewrite Hdata.
  cbn [snd]. fold hash.
  set (fname := "zone_" +:+ noteName +:+ "." +:+ _).
  assert (Hsame : forall v : Converter.World,
             Converter.audioHashes (if Converter.DRY_RUN cfg then v
                                    else Converter.perform
                                           (Converter.WriteFile
                                              (Converter.join [presetDir; fname])
                                              (Converter.AudioBytes (Base64.decode data))) v)
             = Converter.audioHashes v
             /\ Converter.totalDedupSaved (if Converter.DRY_RUN cfg then v
                                    else Converter.perform
                                           (Converter.WriteFile
                                              (Converter.join [presetDir; fname])
                                              (Converter.AudioBytes (Base64.decode data))) v)
                = Converter.totalDedupSaved v)
    by (intros v; destruct (Converter.DRY_RUN cfg); split; reflexivity).
  destruct (Hsame (Converter.record_hash hash fname w)) as [-> ->].
  destruct (Converter.audioHashes w !! hash) as [e|] eqn:Hseen.
  - apply record_hash_repeat, Hseen.
  - destruct (record_hash_first hash fname w Hseen) as [Hfirst Hcount].
    split; [exists fname; exact Hfirst | exact Hcount].
Qed.

Lemma extractAudio_counts_duplicates_witness :
  Converter.audioData Samples.piano_zone = Some "SUQzAAAA"
  /\ exists fname,
       Converter.audioHashes
         (snd (Converter.extractAudio Samples.dry_run Samples.piano_zone
                 "library-output" 0 "C4" Converter.empty_world))
       !! substring 0 16 (Sha256.digest_hex (Base64.decode "SUQzAAAA"))
       = Some {| Converter.he_filename := fname; Converter.he_count := 1 |}.
Proof.
  split; [reflexivity|].
  pose proof (extractAudio_counts_duplicates Samples.dry_run Samples.piano_zone
                "library-output" 0 "C4" Converter.empty_world "SUQzAAAA" eq_refl) as H.
  cbv zeta in H.
  change (Converter.audioHashes Converter.empty_world)
    with (∅ : gmap string Converter.HashEntry) in H.
  rewrite lookup_empty in H. exact (proj1 H).
Defined.

(** The end-to-end example of the specification: the file
    [0000_FluidR3_GM_sf2_file.json], one zone with the key range 21..108 and
    the loop 10000..20000, and "Acoustic Grand Piano" at index 0 of the name
    table. The preset document is named "Acoustic Grand Piano", carries the
    tags melodic, piano, gm:0, sustained, looped and the GM category piano,
    and has one zone with that key range and loop; its own category field is
    "sampler". *)
Theorem end_to_end_piano :
  let src := Samples.only_instruments
               [ {| Converter.f_name := "0000_FluidR3_GM_sf2_file.json";
                    Converter.f_data := Some [Samples.piano_zone] |} ] in
  option_map
    (fun res =>
       flat_map (fun op =>
                   match op with
                   | Converter.WriteFile path (Converter.PresetJson p) =>
                       [(path, Converter.name p, Converter.category p,
                         Converter.gmCategory p, Converter.tags p,
                         map (fun z => (Converter.keyRange z, Converter.loop z))
                           (Converter.zones p))]
                   | _ => []
                   end)
         (Converter.disk (Converter.world (Converter.final res))))
    (Converter.main Samples.real_run src)
  = Some [("library-output/FluidR3_GM/instruments/piano/Acoustic_Grand_Piano/preset.json",
           "Acoustic Grand Piano", "sampler", Some "piano",
           ["melodic"; "piano"; "gm:0"; "sustained"; "looped"],
           [((21, 108), Some (10000, 20000))])].
Proof. vm_compute. reflexivity. Qed.

(** ** The range of the pitch pair *)

(** Whatever the pitch fields of a zone, [normalizePitch] gives a root note
    within the MIDI range and fewer than 100 cents of fine tuning, towards
    either side; the pair stands for the detune of the zone, 100 cents to
    the note, exactly when the detune lies above -100 and below 12800: out
    of that range the clamp of the root note loses the rest. *)
Theorem normalizePitch_range (zone : Converter.Zone) :
  let '(rootNote, fineTuneCents) := Converter.normalizePitch zone in
  0 <= rootNote <= 127
  /\ -100 < fineTuneCents < 100
  /\ (100 * rootNote + fineTuneCents = Converter.baseDetune zone
      <-> -100 < Converter.baseDetune zone < 12800).
Proof.
  unfold Converter.normalizePitch, Converter.derive.
  generalize (Converter.baseDetune zone) as d. intros d.
  split; [lia|]. split.
  - Z.to_euclidean_division_equations; lia.
  - split; intros H; Z.to_euclidean_division_equations; lia.
Qed.

(** ** Zones *)

Section Zones.
Import Converter.

Lemma normalizePitch_bounds (zone : Zone) :
  0 <= fst (normalizePitch zone) <= 127 /\ -100 < snd (normalizePitch zone) < 100.
Proof.
  unfold normalizePitch, derive. cbn [fst snd]. split; [lia|].
  Z.to_euclidean_division_equations; lia.
Qed.

(** What [convertZone] returns for a zone with a payload, and what it does
    to the state. *)
Lemma convertZone_Some (cfg : Config) (zone : Zone) (dir : string) (i : nat)
    (w w' : World) (cz : ConvertedZone) :
  convertZone cfg zone dir i w = (Some cz, w') ->
  exists data,
    audioData zone = Some data
    /\ cz = {| keyRange := (Js.nullish_default (z_keyRangeLow zone) 0,
                            Js.nullish_default (z_keyRangeHigh zone) 127);
               pitch := normalizePitch zone;
               sampleRate := Js.or_default (z_sampleRate zone) 44100;
               audio :=
                 {| filename :=
                      zone_file_name (fst (normalizePitch zone))
                        (sniff (bool_decide (is_Some (Js.truthy_string (z_file zone))))
                               (Base64.decode data));
                    codec := sniff (bool_decide (is_Some (Js.truthy_string (z_file zone))))
                                   (Base64.decode data);
                    sha256 := substring 0 16 (Sha256.digest_hex (Base64.decode data)) |};
               loop := loop_of zone |}
    /\ w' = (if DRY_RUN cfg
             then record_hash (sha256 (audio cz)) (filename (audio cz)) w
             else perform (WriteFile (join [dir; filename (audio cz)])
                                     (AudioBytes (Base64.decode data)))
                    (record_hash (sha256 (audio cz)) (filename (audio cz)) w)).
Proof.
  unfold convertZone, extractAudio, zone_file_name.
  destruct (normalizePitch zone) as [rootNote fineTuneCents] eqn:Hpitch.
  destruct (audioData zone) as [data|]; [|discriminate].
  intros [= <- <-]. exists data. split; [reflexivity|]. split; reflexivity.
Qed.

Lemma convertZone_None (cfg : Config) (zone : Zone) (dir : string) (i : nat)
    (w w' : World) :
  convertZone cfg zone dir i w = (None, w') -> audioData zone = None /\ w' = w.
Proof.
  unfold convertZone, extractAudio.
  destruct (normalizePitch zone) as [rootNote fineTuneCents].
  destruct (audioData zone) as [data|]; [discriminate|].
  intros [= <-]. split; reflexivity.
Qed.

Lemma sniff_codec (isFile : bool) (buffer : list Z) : In (sniff isFile buffer) codecs.
Proof.
  unfold sniff, codecs. destruct isFile; [|cbn; tauto].
  repeat match goal with |- context [if ?b then _ else _] => destruct b end; cbn; tauto.
Qed.

Lemma or_default_nonzero (x : option Z) (d : Z) : d <> 0 -> Js.or_default x d <> 0.
Proof.
  intros Hd. unfold Js.or_default. destruct x as [v|]; [|exact Hd].
  destruct (Z.eqb_spec v 0); assumption.
Qed.

Lemma loop_of_valid (zone : Zone) :
  match loop_of zone with
  | Some (loopStart, loopEnd) => 0 <= loopStart < loopEnd
  | None => True
  end.
Proof.
  unfold loop_of. destruct (z_loopStart zone) as [s|]; [|exact I].
  destruct (z_loopEnd zone) as [e|]; [|exact I].
  destruct (_ && _) eqn:H; [|exact I].
  apply andb_true_iff in H as [H1 H2]. apply Z.leb_le in H1. apply Z.ltb_lt in H2. lia.
Qed.

Lemma convertZone_valid (cfg : Config) (zone : Zone) (dir : string) (i : nat)
    (w w' : World) (cz : ConvertedZone) :
  convertZone cfg zone dir i w = (Some cz, w') -> zone_valid cz.
Proof.
  intros H. apply convertZone_Some in H as (data & _ & -> & _).
  unfold zone_valid. cbn [pitch sampleRate audio codec filename loop].
  destruct (normalizePitch_bounds zone) as [Hroot Hcents].
  repeat apply conj; try lia.
  - apply or_default_nonzero. discriminate.
  - apply sniff_codec.
  - reflexivity.
  - apply loop_of_valid.
Qed.

Lemma NoDup_map_injective {A B : Type} (f : A -> B) (l : list A) (x y : A) :
  NoDup (map f l) -> In x l -> In y l -> f x = f y -> x = y.
Proof.
  induction l as [|a l IH]; cbn [map In]; [tauto|].
  intros Hnd. apply NoDup_cons in Hnd as [Hnot Hnd].
  intros [-> | Hx] [-> | Hy] Heq; auto.
  - exfalso. apply Hnot. rewrite Heq. apply list_elem_of_In, in_map, Hy.
  - exfalso. apply Hnot. rewrite <- Heq. apply list_elem_of_In, in_map, Hx.
Qed.

(** Over the MIDI range, the names of the notes are all different, and
    none has a dot. *)
Lemma note_names_differ :
  bool_decide (NoDup (map (fun a => midiToNoteName (Z.of_nat a)) (seq 0 128))) = true.
Proof. vm_compute. reflexivity. Qed.

Lemma note_names_no_dot :
  forallb (fun a => Js.string_forallb (fun c => negb (Ascii.eqb c "."))
                      (midiToNoteName (Z.of_nat a)))
          (seq 0 128) = true.
Proof. vm_compute. reflexivity. Qed.

Lemma append_nil_l (s : string) : "" +:+ s = s.
Proof. reflexivity. Qed.

(** the first dot of a string splits it in one way *)
Lemma first_dot_splits (s1 s2 t1 t2 : string) :
  Js.string_forallb (fun c => negb (Ascii.eqb c ".")) s1 = true ->
  Js.string_forallb (fun c => negb (Ascii.eqb c ".")) s2 = true ->
  s1 +:+ "." +:+ t1 = s2 +:+ "." +:+ t2 -> s1 = s2 /\ t1 = t2.
Proof.
  revert s2. induction s1 as [|c1 s1 IH]; intros [|c2 s2]; cbn [Js.string_forallb];
    rewrite ?append_cons, ?append_nil_l.
  - intros _ _ [= ->]. auto.
  - intros _ Hs2 [= <- _]. cbn in Hs2. discriminate.
  - intros Hs1 _ [= -> _]. cbn in Hs1. discriminate.
  - intros Hs1 Hs2 [= -> Heq].
    apply andb_prop in Hs1 as [_ Hs1]. apply andb_prop in Hs2 as [_ Hs2].
    destruct (IH s2 Hs1 Hs2 Heq) as [-> ->]. auto.
Qed.

Lemma zone_file_name_injective (a b : Z) (e1 e2 : string) :
  0 <= a <= 127 -> 0 <= b <= 127 ->
  zone_file_name a e1 = zone_file_name b e2 -> a = b /\ e1 = e2.
Proof.
  intros Ha Hb. unfold zone_file_name. rewrite !append_cons, !append_nil_l.
  intros [= Heq].
  pose proof note_names_no_dot as Hdot. rewrite forallb_forall in Hdot.
  assert (Hno : forall n, 0 <= n <= 127 ->
                          Js.string_forallb (fun c => negb (Ascii.eqb c "."))
                            (midiToNoteName n) = true).
  { intros n Hn. specialize (Hdot (Z.to_nat n)). rewrite in_seq in Hdot.
    specialize (Hdot ltac:(lia)). rewrite Z2Nat.id in Hdot by lia. exact Hdot. }
  destruct (first_dot_splits _ _ _ _ (Hno a Ha) (Hno b Hb) Heq) as [Hname He].
  split; [|exact He].
  pose proof note_names_differ as Hall. apply bool_decide_eq_true in Hall.
  assert (Hnat : Z.to_nat a = Z.to_nat b); [|lia].
  apply (NoDup_map_injective _ _ _ _ Hall); [apply in_seq; lia | apply in_seq; lia|].
  rewrite !Z2Nat.id by lia. exact Hname.
Qed.

(** *** The dedup table counts every payload *)

Lemma tally_perform (op : FsOp) (w : World) : tally (perform op w) = tally w.
Proof. reflexivity. Qed.

Lemma tally_record_hash (hashKey fname : string) (w : World) :
  tally (record_hash hashKey fname w) = tally w + 1.
Proof.
  unfold tally, record_hash.
  destruct (audioHashes w !! hashKey) as [e|] eqn:Hseen; cbn [audioHashes totalDedupSaved].
  - rewrite map_size_insert_Some by (rewrite Hseen; eauto). lia.
  - rewrite map_size_insert_None by exact Hseen. lia.
Qed.

(** *** The loop over the zones *)

Lemma convertZones_spec (cfg : Config) (zones : list Zone) (dir : string) :
  forall (i : nat) (w w' : World) (czs : list ConvertedZone),
    convertZones cfg zones dir i w = (czs, w') ->
    Forall zone_valid czs
    /\ Forall2 converted_from (List.filter has_payload zones) czs
    /\ tally w' = tally w + Z.of_nat (length czs)
    /\ exists ops,
         disk w' = disk w ++ ops
         /\ if DRY_RUN cfg then ops = [] else Forall2 (audio_write dir) czs ops.
Proof.
  induction zones as [|zone rest IH]; intros i w w' czs.
  - intros [= <- <-]. repeat apply conj; [constructor | constructor | cbn; lia |].
    exists []. split; [symmetry; apply app_nil_r|]. destruct (DRY_RUN cfg); constructor.
  - cbn [convertZones].
    destruct (convertZone cfg zone dir i w) as [z w1] eqn:Hzone.
    destruct (convertZones cfg rest dir (S i) w1) as [zs w2] eqn:Hrest.
    intros [= <- <-].
    destruct (IH _ _ _ _ Hrest) as (Hvalid & Hlen & Htally & ops & Hdisk & Hops).
    cbn [List.filter]. unfold has_payload at 1.
    destruct z as [cz|].
    + pose proof (convertZone_valid _ _ _ _ _ _ _ Hzone) as Hcz.
      apply convertZone_Some in Hzone as (data & Hdata & Hfields & Hw1). rewrite Hdata.
      repeat apply conj.
      * constructor; assumption.
      * constructor; [|exact Hlen]. rewrite Hfields. repeat split.
      * rewrite Htally, Hw1.
        destruct (DRY_RUN cfg); rewrite ?tally_perform, tally_record_hash; cbn [length]; lia.
      * rewrite Hdisk, Hw1. destruct (DRY_RUN cfg).
        -- exists []. subst ops. rewrite record_hash_disk. split; reflexivity.
        -- eexists (_ :: ops). cbn [perform disk]. rewrite record_hash_disk, <- app_assoc.
           split; [reflexivity|]. constructor; [|exact Hops]. eexists. reflexivity.
    + apply convertZone_None in Hzone as [Hdata ->]. rewrite Hdata.
      repeat apply conj; try assumption. exists ops. split; assumption.
Qed.

End Zones.

(** The audio file of a zone is named after the root note and the codec,
    and not after the index of the zone: two zones of a preset get the same
    file name exactly when they have the same root note and the same codec,
    and then the payload of the second is written over that of the first. *)
Theorem zone_file_names (cfg : Converter.Config) (dir : string)
    (zone1 zone2 : Converter.Zone) (i1 i2 : nat) (w1 w2 w1' w2' : Converter.World)
    (cz1 cz2 : Converter.ConvertedZone) :
  Converter.convertZone cfg zone1 dir i1 w1 = (Some cz1, w1') ->
  Converter.convertZone cfg zone2 dir i2 w2 = (Some cz2, w2') ->
  (Converter.filename (Converter.audio cz1) = Converter.filename (Converter.audio cz2)
   <-> fst (Converter.pitch cz1) = fst (Converter.pitch cz2)
       /\ Converter.codec (Converter.audio cz1) = Converter.codec (Converter.audio cz2))
  /\ (Converter.DRY_RUN cfg = false ->
      exists bytes1 bytes2,
        last (Converter.disk w1')
        = Some (Converter.WriteFile
                  (Converter.join [dir; Converter.filename (Converter.audio cz1)])
                  (Converter.AudioBytes bytes1))
        /\ last (Converter.disk w2')
           = Some (Converter.WriteFile
                     (Converter.join [dir; Converter.filename (Converter.audio cz2)])
                     (Converter.AudioBytes bytes2))).
Proof.
  intros H1 H2.
  apply convertZone_Some in H1 as (data1 & _ & Hcz1 & Hw1).
  apply convertZone_Some in H2 as (data2 & _ & Hcz2 & Hw2).
  split.
  - rewrite Hcz1, Hcz2.
    cbn [Converter.audio Converter.filename Converter.codec Converter.pitch].
    split.
    + intros Heq.
      apply zone_file_name_injective in Heq;
        [exact Heq | apply normalizePitch_bounds | apply normalizePitch_bounds].
    + intros [-> ->]. reflexivity.
  - intros Hreal. rewrite Hreal in Hw1, Hw2. subst w1' w2'.
    eexists. eexists. cbn [Converter.perform Converter.disk].
    rewrite !last_snoc. split; reflexivity.
Qed.

(** Two different payloads with the same root note and the same codec: the
    second takes the file name of the first. *)
Lemma zone_file_names_witness :
  exists cz1 w1 cz2 w2,
    Converter.convertZone Samples.real_run (Samples.with_file "SUQzAAAA" Samples.bare)
      "out" 0 Converter.empty_world = (Some cz1, w1)
    /\ Converter.convertZone Samples.real_run (Samples.with_file "SUQzAAAB" Samples.bare)
         "out" 1 w1 = (Some cz2, w2)
    /\ Converter.filename (Converter.audio cz1) = Converter.filename (Converter.audio cz2)
    /\ Converter.sha256 (Converter.audio cz1) <> Converter.sha256 (Converter.audio cz2).
Proof.
  do 4 eexists. split; [vm_compute; reflexivity|].
  match goal with
  | |- ?c2 = _ /\ _ =>
      let c1 := constr:(Converter.convertZone Samples.real_run
                          (Samples.with_file "SUQzAAAA" Samples.bare) "out" 0
                          Converter.empty_world) in
      let v1 := eval vm_compute in c1 in
      let v2 := eval vm_compute in c2 in
      assert (H1 : c1 = v1) by (vm_compute; reflexivity);
      assert (H2 : c2 = v2) by (vm_compute; reflexivity)
  end.
  split; [exact H2|]. split.
  - apply (proj1 (zone_file_names _ _ _ _ _ _ _ _ _ _ _ _ H1 H2)).
    split; reflexivity.
  - vm_compute. discriminate.
Defined.

(** ** One instrument *)

Section OneInstrument.
Import Converter.

Variable cfg : Config.

(** What a call of [convertInstrument] returns and what it does to the
    state, case by case. *)
Lemma convertInstrument_spec (data : option (list Zone)) (gm : Z)
    (instrumentName libraryName : string) (variant : Z) (w w' : World) (out : Outcome) :
  convertInstrument cfg data gm instrumentName libraryName variant w = (out, w') ->
  match out with
  | Threw => data = None /\ w' = w
  | Returned None =>
      exists zones,
        data = Some zones
        /\ List.filter has_payload zones = []
        /\ tally w' = tally w
        /\ disk w' = disk w
                     ++ (if DRY_RUN cfg then []
                         else match zones with
                              | [] => []
                              | _ => [Mkdir (presetPath cfg (isPercussion zones) gm
                                               instrumentName libraryName)]
                              end)
  | Returned (Some entry) =>
      exists zones czs,
        let dir := presetPath cfg (isPercussion zones) gm instrumentName libraryName in
        data = Some zones
        /\ czs <> []
        /\ Forall zone_valid czs
        /\ Forall2 converted_from (List.filter has_payload zones) czs
        /\ entry = summaryEntry cfg (isPercussion zones) gm instrumentName libraryName
                     dir czs
        /\ tally w' = tally w + Z.of_nat (length czs)
        /\ if DRY_RUN cfg then disk w' = disk w
           else exists ops,
                  Forall2 (audio_write dir) czs ops
                  /\ disk w'
                     = disk w
                       ++ Mkdir dir :: ops
                       ++ [WriteFile (join [dir; "preset.json"])
                             (PresetJson (presetDocument (isPercussion zones) gm
                                            instrumentName libraryName variant czs))]
  end.
Proof.
  unfold convertInstrument. destruct data as [[|zone zones]|].
  - intros [= <- <-]. exists []. repeat apply conj; try reflexivity.
    destruct (DRY_RUN cfg); symmetry; apply app_nil_r.
  - set (all := zone :: zones).
    set (dir := presetPath cfg (isPercussion all) gm instrumentName libraryName).
    destruct (convertZones cfg all dir 0
                (if DRY_RUN cfg then w else perform (Mkdir dir) w)) as [czs w2] eqn:Hzones.
    destruct (convertZones_spec _ _ _ _ _ _ _ Hzones)
      as (Hvalid & Hlen & Htally & ops & Hdisk & Hops).
    destruct czs as [|cz czs].
    + intros [= <- <-]. exists all. repeat apply conj; try reflexivity.
      * apply Forall2_length in Hlen.
        destruct (List.filter has_payload all); [reflexivity | discriminate].
      * rewrite Htally. destruct (DRY_RUN cfg); rewrite ?tally_perform; cbn [length]; lia.
      * rewrite Hdisk. destruct (DRY_RUN cfg).
        -- subst ops. reflexivity.
        -- inversion Hops. subst ops. cbn [perform disk]. rewrite app_nil_r. reflexivity.
    + intros [= <- <-]. exists all, (cz :: czs). cbv zeta.
      repeat apply conj; try reflexivity; try assumption.
      * discriminate.
      * destruct (DRY_RUN cfg); rewrite ?tally_perform, Htally, ?tally_perform; reflexivity.
      * destruct (DRY_RUN cfg).
        -- rewrite Hdisk. subst ops. apply app_nil_r.
        -- exists ops. split; [exact Hops|]. cbn [perform disk]. rewrite Hdisk.
           cbn [perform disk]. rewrite <- !app_assoc. reflexivity.
  - intros [= <- <-]. split; reflexivity.
Qed.

End OneInstrument.

Section LibraryNames.
Import Converter.

Lemma append_nil_r (s : string) : s +:+ "" = s.
Proof. induction s as [|c s IH]; [reflexivity|]. rewrite append_cons, IH. reflexivity. Qed.


Lemma tail_only_at_the_end (s suffix : string) :
  suffix = "_sf2_file.json" \/ suffix = "_sf2.json" ->
  tail_matches (s +:+ suffix) = true -> s = "".
Proof.
  intros Hsuffix H. unfold tail_matches in H.
  apply orb_true_iff in H as [H | H]; [apply orb_true_iff in H as [H | H]|];
    apply String.eqb_eq in H; destruct Hsuffix as [-> | ->].
  all: destruct s as [|? s]; [reflexivity | exfalso].
  all: rewrite append_cons in H; injection H as ? H.
  all: repeat (destruct s as [|? s];
               [ revert H; change ("" +:+ ?x) with x; discriminate
               | rewrite append_cons in H; try discriminate H; injection H as ? H ]).
Qed.

(** The lazy group stops at the suffix: the library is read back whole. *)
Lemma lazy_library_exact (lib suffix taken : string) :
  suffix = "_sf2_file.json" \/ suffix = "_sf2.json" ->
  no_line_terminator lib = true ->
  lazy_library taken (lib +:+ suffix) = Some (taken +:+ lib).
Proof.
  intros Hsuffix. revert taken. induction lib as [|c lib IH]; intros taken Hok.
  - change ("" +:+ suffix) with suffix. rewrite append_nil_r.
    destruct Hsuffix as [-> | ->]; reflexivity.
  - rewrite append_cons, lazy_library_cons.
    destruct (tail_matches (String c (lib +:+ suffix))) eqn:Htail.
    + rewrite <- append_cons in Htail.
      apply tail_only_at_the_end in Htail; [discriminate | exact Hsuffix].
    + cbn in Hok. apply andb_true_iff in Hok as [Hc Hok].
      apply negb_true_iff in Hc. rewrite Hc, IH by exact Hok.
      rewrite append_assoc. reflexivity.
Qed.

Lemma library_and_tail_exact (lib suffix : string) :
  suffix = "_sf2_file.json" \/ suffix = "_sf2.json" ->
  lib <> "" -> no_line_terminator lib = true ->
  library_and_tail (lib +:+ suffix) = Some lib.
Proof.
  intros Hsuffix Hlib Hok. destruct lib as [|c lib]; [congruence|].
  cbn in Hok. apply andb_true_iff in Hok as [Hc Hok].
  apply negb_true_iff in Hc.
  rewrite append_cons. cbn [library_and_tail]. rewrite Hc.
  apply lazy_library_exact; assumption.
Qed.

Lemma digits_then_underscore_exact (digits taken rest : string) :
  Js.string_forallb Js.is_digit digits = true ->
  taken +:+ digits <> "" ->
  digits_then_underscore taken (digits +:+ "_" +:+ rest) = Some (taken +:+ digits, rest).
Proof.
  revert taken. induction digits as [|c digits IH]; intros taken Hdigits Hne.
  - change ("" +:+ "_" +:+ rest) with (String "_" rest).
    rewrite append_nil_r in *. cbn [digits_then_underscore].
    change (Js.is_digit "_") with false. change (Ascii.eqb "_" "_") with true.
    apply String.eqb_neq in Hne. rewrite Hne. reflexivity.
  - cbn in Hdigits. apply andb_true_iff in Hdigits as [Hc Hdigits].
    rewrite append_cons. cbn [digits_then_underscore]. rewrite Hc.
    rewrite IH; [rewrite append_assoc; reflexivity | exact Hdigits |].
    rewrite append_assoc. exact Hne.
Qed.

End LibraryNames.



Section CommandLine.
Import Converter.Cli.

Lemma indexOf_bounds (name : string) (args : list string) :
  -1 <= indexOf name args < Z.of_nat (length args).
Proof.
  induction args as [|a rest IH]; cbn [indexOf length]; [lia|].
  destruct (String.eqb a name); [lia|].
  destruct (indexOf name rest <? 0) eqn:Hneg; lia.
Qed.

Lemma indexOf_absent (name : string) (args : list string) :
  indexOf name args = -1 <-> ~ In name args.
Proof.
  induction args as [|a rest IH]; cbn [indexOf In]; [tauto|].
  pose proof (indexOf_bounds name rest) as Hb.
  destruct (String.eqb_spec a name) as [-> | Hne].
  - split; [discriminate | tauto].
  - destruct (indexOf name rest <? 0) eqn:Hneg.
    + apply Z.ltb_lt in Hneg. assert (Habs : indexOf name rest = -1) by lia.
      apply IH in Habs. tauto.
    + apply Z.ltb_ge in Hneg. split; [lia|]. intros Hno. exfalso.
      assert (Habs : indexOf name rest = -1) by (apply IH; tauto). lia.
Qed.

Lemma indexOf_first (name : string) (args : list string) (k : nat) :
  indexOf name args = Z.of_nat k
  <-> exists before after,
        args = before ++ name :: after /\ ~ In name before /\ length before = k.
Proof.
  revert k. induction args as [|a rest IH]; intros k; cbn [indexOf].
  - split; [lia|]. intros (before & after & H & _). destruct before; discriminate.
  - pose proof (indexOf_bounds name rest) as Hb.
    destruct (String.eqb_spec a name) as [-> | Hne].
    + split.
      * intros Hk. exists [], rest. repeat apply conj; [reflexivity | tauto | cbn; lia].
      * intros ([|b before] & after & Heq & Hno & Hlen); [cbn in Hlen; lia|].
        injection Heq as <- _. exfalso. apply Hno. left. reflexivity.
    + destruct (indexOf name rest <? 0) eqn:Hneg.
      * apply Z.ltb_lt in Hneg. split; [lia|].
        intros ([|b before] & after & Heq & Hno & Hlen).
        -- injection Heq as -> _. congruence.
        -- injection Heq as <- ->. exfalso.
           assert (Habs : indexOf name (before ++ name :: after) = -1) by lia.
           apply indexOf_absent in Habs. apply Habs, in_or_app. right. left. reflexivity.
      * apply Z.ltb_ge in Hneg. split.
        -- intros Hk. destruct k as [|k]; [lia|].
           assert (Hk' : indexOf name rest = Z.of_nat k) by lia.
           apply IH in Hk' as (before & after & -> & Hno & Hlen).
           exists (a :: before), after. repeat apply conj.
           ++ reflexivity.
           ++ intros [Ha | Hin]; [congruence | tauto].
           ++ cbn. lia.
        -- intros ([|b before] & after & Heq & Hno & Hlen).
           ++ injection Heq as -> _. congruence.
           ++ injection Heq as <- ->.
              assert (Hk' : indexOf name (before ++ name :: after)
                            = Z.of_nat (length before)).
              { apply IH. exists before, after. repeat apply conj; [reflexivity | | reflexivity].
                intros Hin. apply Hno. right. exact Hin. }
              cbn in Hlen. lia.
Qed.

Lemma getArg_Some (args : list string) (name value : string) :
  getArg args name = Some value
  <-> exists before after,
        args = before ++ name :: value :: after /\ ~ In name before.
Proof.
  unfold Converter.Cli.getArg.
  pose proof (indexOf_bounds name args) as Hb.
  split.
  - destruct (0 <=? Converter.Cli.indexOf name args) eqn:Hpos; [|discriminate].
    apply Z.leb_le in Hpos. cbn [andb].
    destruct (_ <? _) eqn:Hlast; [|discriminate]. apply Z.ltb_lt in Hlast.
    intros Hat.
    assert (Hk : Converter.Cli.indexOf name args
                 = Z.of_nat (Z.to_nat (Converter.Cli.indexOf name args))) by lia.
    apply indexOf_first in Hk as (before & after & Hargs & Hno & Hlen).
    rewrite Hargs in Hat, Hlen, Hpos, Hlast. clear Hb.
    replace (Z.to_nat (Converter.Cli.indexOf name (before ++ name :: after) + 1))
      with (length before + 1)%nat in Hat by lia.
    rewrite lookup_app_r in Hat by lia.
    replace (length before + 1 - length before)%nat with 1%nat in Hat by lia.
    destruct after as [|v after]; [discriminate|]. injection Hat as ->.
    exists before, after. split; [exact Hargs | exact Hno].
  - intros (before & after & -> & Hno).
    assert (Hk : Converter.Cli.indexOf name (before ++ name :: value :: after)
                 = Z.of_nat (length before)).
    { apply indexOf_first. exists before, (value :: after). auto. }
    rewrite Hk.
    replace (0 <=? Z.of_nat (length before)) with true by (symmetry; apply Z.leb_le; lia).
    replace (Z.of_nat (length before) + 1
             <? Z.of_nat (length (before ++ name :: value :: after))) with true
      by (symmetry; apply Z.ltb_lt; rewrite length_app; cbn [length]; lia).
    cbn [andb].
    replace (Z.to_nat (Z.of_nat (length before) + 1)) with (length before + 1)%nat by lia.
    rewrite lookup_app_r by lia.
    replace (length before + 1 - length before)%nat with 1%nat by lia.
    reflexivity.
Qed.

End CommandLine.

(** [getArg] gives the argument that follows the first occurrence of the
    option, whatever it is; there is none when the option is absent or when
    its first occurrence is the last argument. *)
Theorem getArg_first_occurrence (args : list string) (name value : string) :
  Converter.Cli.getArg args name = Some value
  <-> exists before after,
        args = before ++ name :: value :: after /\ ~ In name before.
Proof. exact (getArg_Some args name value). Qed.

Section Numerals.

Lemma digit_value_decimal (c : ascii) :
  Js.is_digit c = true -> Js.digit_value 10 c = Some (Js.code c - 48).
Proof.
  intros Hc. unfold Js.digit_value. rewrite Hc.
  unfold Js.is_digit in Hc. apply andb_true_iff in Hc as [Hlo Hhi].
  apply Z.leb_le in Hlo, Hhi.
  replace (Js.code c - 48 <? 10) with true by (symmetry; apply Z.ltb_lt; lia).
  reflexivity.
Qed.

Lemma read_digits_decimal (digits : string) (acc : Z) (seen : option Z) :
  Js.string_forallb Js.is_digit digits = true ->
  default 0 seen = acc -> (digits <> "" \/ seen <> None) ->
  Js.read_digits 10 seen digits = Some (Js.parseInt_acc acc digits).
Proof.
  revert acc seen. induction digits as [|c digits IH]; intros acc seen Hdigits Hacc Hsome.
  - cbn. destruct seen as [v|]; [cbn in Hacc; congruence|]. destruct Hsome; congruence.
  - cbn in Hdigits. apply andb_true_iff in Hdigits as [Hc Hdigits].
    cbn [Js.read_digits Js.parseInt_acc]. rewrite (digit_value_decimal c Hc).
    apply IH; [exact Hdigits | cbn; rewrite Hacc; reflexivity | right; discriminate].
Qed.

(** On a text of decimal digits both readings of [parseInt] agree. *)
Lemma parseInt_text_decimal (digits : string) :
  digits <> "" -> Js.string_forallb Js.is_digit digits = true ->
  Js.parseInt_text digits = Some (Js.parseInt digits).
Proof.
  intros Hne Hdigits. destruct digits as [|c digits]; [congruence|].
  pose proof Hdigits as Hall.
  cbn in Hdigits. apply andb_true_iff in Hdigits as [Hc Hdigits].
  assert (Hcode : 48 <= Js.code c <= 57).
  { unfold Js.is_digit in Hc. apply andb_true_iff in Hc as [Hlo Hhi].
    apply Z.leb_le in Hlo, Hhi. lia. }
  assert (Hspace : Js.is_space c = false).
  { unfold Js.is_space. apply orb_false_iff. split.
    - apply Z.eqb_neq. lia.
    - apply andb_false_iff. right. apply Z.leb_gt. lia. }
  assert (Hminus : Ascii.eqb c "-" = false).
  { apply Ascii.eqb_neq. intros ->. change (Js.code "-") with 45 in Hcode. lia. }
  assert (Hplus : Ascii.eqb c "+" = false).
  { apply Ascii.eqb_neq. intros ->. change (Js.code "+") with 43 in Hcode. lia. }
  unfold Js.parseInt_text. cbn [Js.trim_start]. rewrite Hspace, Hminus, Hplus.
  cbn [fst snd].
  assert (Hbase : match String c digits with
                  | String z (String x r) =>
                      if Ascii.eqb z "0" && (Ascii.eqb x "x" || Ascii.eqb x "X")
                      then (16, r) else (10, String c digits)
                  | _ => (10, String c digits)
                  end = (10, String c digits)).
  { destruct digits as [|x r]; [reflexivity|].
    cbn in Hdigits. apply andb_true_iff in Hdigits as [Hx _].
    assert (Hxcode : 48 <= Js.code x <= 57).
    { unfold Js.is_digit in Hx. apply andb_true_iff in Hx as [Hlo Hhi].
      apply Z.leb_le in Hlo, Hhi. lia. }
    assert (Hx1 : Ascii.eqb x "x" = false)
      by (apply Ascii.eqb_neq; intros ->; change (Js.code "x") with 120 in Hxcode; lia).
    assert (Hx2 : Ascii.eqb x "X" = false)
      by (apply Ascii.eqb_neq; intros ->; change (Js.code "X") with 88 in Hxcode; lia).
    rewrite Hx1, Hx2, andb_false_r. reflexivity. }
  rewrite Hbase. cbn [fst snd].
  rewrite (read_digits_decimal (String c digits) 0 None Hall eq_refl (or_introl Hne)).
  cbn [option_map]. f_equal. unfold Js.parseInt. lia.
Qed.

End Numerals.

(** [--limit] followed by a decimal numeral sets the limit to its value:
    the first [--limit] of the command line counts, and what follows the
    numeral is not looked at. The value is taken up to 2^53, where the
    numbers of the program are exact. *)
Theorem LIMIT_of_a_numeral (before after : list string) (digits : string) :
  ~ In "--limit" before ->
  digits <> "" -> Js.string_forallb Js.is_digit digits = true ->
  Js.parseInt digits <= 2 ^ 53 ->
  Converter.Cli.LIMIT (before ++ "--limit" :: digits :: after) = Some (Js.parseInt digits).
Proof.
  intros Hno Hne Hdigits _. unfold Converter.Cli.LIMIT.
  assert (Hget : Converter.Cli.getArg (before ++ "--limit" :: digits :: after) "--limit"
                 = Some digits).
  { apply getArg_Some. exists before, after. auto. }
  rewrite Hget. destruct digits as [|c digits]; [congruence|].
  cbn [Js.truthy_string]. apply parseInt_text_decimal; assumption.
Qed.

(** A command line with the limit between two other options. *)
Lemma LIMIT_of_a_numeral_witness :
  Js.string_forallb Js.is_digit "25" = true
  /\ Converter.Cli.LIMIT ["--source"; "data"; "--limit"; "25"; "--dry-run"] = Some 25.
Proof.
  split; [reflexivity|].
  refine (LIMIT_of_a_numeral ["--source"; "data"] ["--dry-run"] "25" _ _ eq_refl _);
    [intros [H | [H | []]]; discriminate | discriminate | vm_compute; discriminate].
Defined.

(** ** The loops of [main] *)

Section Runs.
Import Converter Index.

Variable cfg : Config.

Lemma parseInt_acc_nonneg (s : string) (acc : Z) :
  Js.string_forallb Js.is_digit s = true -> 0 <= acc -> 0 <= Js.parseInt_acc acc s.
Proof.
  revert acc. induction s as [|c s IH]; intros acc Hdigits Hacc; [exact Hacc|].
  cbn in Hdigits. apply andb_true_iff in Hdigits as [Hc Hdigits].
  cbn [Js.parseInt_acc]. apply IH; [exact Hdigits|].
  unfold Js.is_digit in Hc. apply andb_true_iff in Hc as [Hlo _].
  apply Z.leb_le in Hlo. lia.
Qed.

Lemma parseInstrumentFilename_program (fname : string) (info : InstrumentInfo) :
  parseInstrumentFilename fname = Some info -> 0 <= i_gmProgram info.
Proof.
  unfold parseInstrumentFilename.
  destruct fname as [|d1 [|d2 [|d3 [|d4 [|sep rest]]]]]; try discriminate.
  destruct (_ && _) eqn:Hhead; [|discriminate].
  destruct (library_and_tail rest) as [library|]; [|discriminate].
  intros [= <-]. cbn [i_gmProgram].
  apply andb_true_iff in Hhead as [Hhead _].
  assert (0 <= Js.parseInt (String d1 (String d2 (String d3 (String d4 ""))))).
  { apply parseInt_acc_nonneg; [|lia].
    apply andb_true_iff in Hhead as [Hhead H4].
    apply andb_true_iff in Hhead as [Hhead H3].
    apply andb_true_iff in Hhead as [H1 H2].
    cbn. rewrite H1, H2, H3, H4. reflexivity. }
  apply Z.div_pos; lia.
Qed.

Lemma string_forallb_append (p : ascii -> bool) (s t : string) :
  Js.string_forallb p (s +:+ t) = Js.string_forallb p s && Js.string_forallb p t.
Proof.
  induction s as [|c s IH]; [reflexivity|].
  rewrite append_cons. cbn [Js.string_forallb]. rewrite IH. apply andb_assoc.
Qed.

Lemma digits_then_underscore_digits (s taken digits rest : string) :
  digits_then_underscore taken s = Some (digits, rest) ->
  Js.string_forallb Js.is_digit taken = true ->
  Js.string_forallb Js.is_digit digits = true.
Proof.
  revert taken. induction s as [|c s IH]; intros taken; cbn [digits_then_underscore].
  - discriminate.
  - destruct (Js.is_digit c) eqn:Hc.
    + intros H Htaken. apply (IH _ H).
      rewrite string_forallb_append, Htaken. cbn. rewrite Hc. reflexivity.
    + destruct (_ && _); [|discriminate]. intros [= <- <-] Htaken. exact Htaken.
Qed.

Lemma parsePercussionFilename_note (fname : string) (info : PercussionInfo) :
  parsePercussionFilename fname = Some info -> 0 <= p_midiNote info.
Proof.
  unfold parsePercussionFilename.
  destruct (digits_then_underscore "" fname) as [[note rest]|] eqn:Hnote; [|discriminate].
  destruct (digits_then_underscore "" rest) as [[var rest']|]; [|discriminate].
  destruct (library_and_tail rest') as [library|]; [|discriminate].
  intros [= <-]. cbn [p_midiNote].
  apply parseInt_acc_nonneg; [|lia].
  eapply digits_then_underscore_digits; [exact Hnote | reflexivity].
Qed.

(** A property of the state kept by every conversion is kept by both
    loops. *)
Lemma conversion_invariant (P : Run -> Prop) :
  (forall r data gm instrumentName libraryName variant,
      P r -> libraryName <> "" -> 0 <= gm < 128 ->
      P (settle (fun e => e) r
           (convertInstrument cfg data gm instrumentName libraryName variant (world r)))) ->
  (forall r data note instrumentName libraryName variant,
      P r -> libraryName <> "" -> 0 <= note ->
      P (settle (percussion_tags note) r
           (convertInstrument cfg data 128 instrumentName libraryName variant (world r)))) ->
  forall names src r,
    P r ->
    P (convert_dir cfg (percussion_step cfg) (p_dir src)
         (convert_dir cfg (instrument_step cfg names) (i_dir src) r)).
Proof.
  intros Hinstrument Hpercussion names src.
  assert (Hloop : forall step dir r,
             (forall file r, P r -> P (step file r)) -> P r -> P (convert_dir cfg step dir r)).
  { intros step [files|] r Hstep; [|auto]. cbn [convert_dir].
    generalize (listing files) as l. intros l. revert r.
    induction l as [|file rest IH]; intros r Hr; [exact Hr|].
    cbn [convert_files]. destruct (limit_reached cfg r); [exact Hr|].
    apply IH, Hstep, Hr. }
  intros r Hr. apply Hloop; [|apply Hloop; [|exact Hr]].
  - intros file r' Hr'. unfold percussion_step.
    destruct (parsePercussionFilename (f_name file)) as [info|] eqn:Hinfo; [|exact Hr'].
    apply Hpercussion; [exact Hr' | |].
    + eapply parsePercussionFilename_library, Hinfo.
    + eapply parsePercussionFilename_note, Hinfo.
  - intros file r' Hr'. unfold instrument_step.
    destruct (parseInstrumentFilename (f_name file)) as [info|] eqn:Hinfo; [|exact Hr'].
    destruct (128 <=? i_gmProgram info) eqn:Hgm; [exact Hr'|].
    apply Z.leb_gt in Hgm.
    apply Hinstrument; [exact Hr' | |].
    + eapply parseInstrumentFilename_library, Hinfo.
    + split; [eapply parseInstrumentFilename_program, Hinfo | exact Hgm].
Qed.

(** *** What [main] adds after the loops *)

Lemma write_library_indexes_world (libs : list (string * list Entry)) (w : World)
    (roots : list LibraryRef) :
  let w' := fst (write_library_indexes cfg libs w roots) in
  disk w' = disk w ++ (if DRY_RUN cfg then [] else map (library_index_write cfg) libs)
  /\ audioHashes w' = audioHashes w
  /\ totalDedupSaved w' = totalDedupSaved w
  /\ snd (write_library_indexes cfg libs w roots)
     = roots ++ map (fun le => libraryRef (fst le) (snd le)) libs.
Proof.
  revert w roots. induction libs as [|[libraryName entries] rest IH]; intros w roots.
  - cbn. rewrite !app_nil_r. destruct (DRY_RUN cfg); rewrite ?app_nil_r; auto.
  - cbn [write_library_indexes]. cbv zeta in IH |- *.
    destruct (IH (if DRY_RUN cfg then w
                  else perform (WriteFile (join [OUTPUT_DIR cfg; libraryName; "index.json"])
                                          (IndexJson (libraryIndex libraryName entries))) w)
                 (roots ++ [libraryRef libraryName entries]))
      as (Hdisk & Hhashes & Hsaved & Hroots).
    rewrite Hdisk, Hhashes, Hsaved, Hroots. cbn [map fst snd].
    rewrite <- !app_assoc.
    destruct (DRY_RUN cfg); cbn [perform disk audioHashes totalDedupSaved];
      rewrite ?app_nil_r, <- ?app_assoc; auto.
Qed.

(** A run of [main]: the state after the two loops, and what the end of
    [main] adds to it. *)
Lemma main_shape (src : Source) (res : Result) :
  main cfg src = Some res ->
  exists names r2,
    instrumentNames src = Some names
    /\ r2 = convert_dir cfg (percussion_step cfg) (p_dir src)
              (convert_dir cfg (instrument_step cfg names) (i_dir src) (initial_run cfg))
    /\ entriesByLibrary (final res) = entriesByLibrary r2
    /\ convertedCount (final res) = convertedCount r2
    /\ errorCount (final res) = errorCount r2
    /\ rootEntries res = map (fun le => libraryRef (fst le) (snd le)) (entriesByLibrary r2)
    /\ audioHashes (world (final res)) = audioHashes (world r2)
    /\ totalDedupSaved (world (final res)) = totalDedupSaved (world r2)
    /\ disk (world (final res))
       = disk (world r2)
         ++ (if DRY_RUN cfg then []
             else map (library_index_write cfg) (entriesByLibrary r2)
                  ++ [WriteFile (join [OUTPUT_DIR cfg; "index.json"])
                        (IndexJson (rootIndex (rootEntries res)))]).
Proof.
  unfold main. destruct (instrumentNames src) as [names|]; [|discriminate].
  set (r2 := convert_dir cfg (percussion_step cfg) (p_dir src) _).
  pose proof (write_library_indexes_world (entriesByLibrary r2) (world r2) []) as Hw.
  cbv zeta in Hw. destruct Hw as (Hdisk & Hhashes & Hsaved & Hroots).
  destruct (write_library_indexes cfg (entriesByLibrary r2) (world r2) []) as [w roots].
  cbn [fst snd app] in *.
  intros [= <-]. exists names, r2.
  cbn [final world entriesByLibrary convertedCount errorCount rootEntries].
  repeat apply conj; try reflexivity; try assumption.
  - destruct (DRY_RUN cfg); cbn [perform audioHashes]; assumption.
  - destruct (DRY_RUN cfg); cbn [perform totalDedupSaved]; assumption.
  - destruct (DRY_RUN cfg); cbn [perform disk]; rewrite Hdisk.
    + reflexivity.
    + rewrite <- app_assoc. reflexivity.
Qed.

End Runs.

(** ** Counting *)

Section Counting.
Import Converter Index.

Variable cfg : Config.

Local Abbreviation counted := (Converter.counted cfg).

Lemma all_entries_push (lib : string) (e : Entry) (m : list (string * list Entry)) :
  Permutation (all_entries (push_entry lib e m)) (e :: all_entries m).
Proof.
  unfold all_entries. induction m as [|[k es] m IH]; cbn [push_entry flat_map snd].
  - reflexivity.
  - destruct (String.eqb k lib); cbn [flat_map snd].
    + rewrite <- app_assoc. cbn [app].
      symmetry. apply Permutation_middle.
    + rewrite IH. symmetry. apply (Permutation_middle es (flat_map snd m) e).
Qed.

Lemma total_permutation (l l' : list Z) : Permutation l l' -> total l = total l'.
Proof. induction 1; cbn [total fold_right] in *; unfold total in *; lia. Qed.

Lemma presets_written_app (w w' : World) (ops : list FsOp) :
  disk w' = disk w ++ ops ->
  presets_written w'
  = presets_written w
    ++ flat_map (fun op => match op with
                           | WriteFile _ (PresetJson p) => [p]
                           | _ => []
                           end) ops.
Proof. intros H. unfold presets_written. rewrite H. apply flat_map_app. Qed.

Lemma audio_writes_app (w w' : World) (ops : list FsOp) :
  disk w' = disk w ++ ops ->
  audio_writes w'
  = audio_writes w
    ++ flat_map (fun op => match op with
                           | WriteFile p (AudioBytes b) => [(p, b)]
                           | _ => []
                           end) ops.
Proof. intros H. unfold audio_writes. rewrite H. apply flat_map_app. Qed.

Lemma audio_ops_only (dir : string) (czs : list ConvertedZone) (ops : list FsOp) :
  Forall2 (audio_write dir) czs ops ->
  flat_map (fun op => match op with
                      | WriteFile _ (PresetJson p) => [p]
                      | _ => []
                      end) ops = []
  /\ length (flat_map (fun op => match op with
                                 | WriteFile p (AudioBytes b) => [(p, b)]
                                 | _ => []
                                 end) ops) = length czs.
Proof.
  induction 1 as [|cz op czs ops [bytes ->] _ [IH1 IH2]]; [split; reflexivity|].
  cbn [flat_map app length]. rewrite IH1, IH2. split; reflexivity.
Qed.

Lemma step_counted (retag : Entry -> Entry) (r : Run) data gm instrumentName
    libraryName variant :
  (forall e, e_zoneCount (retag e) = e_zoneCount e) ->
  counted r ->
  counted (settle retag r
             (convertInstrument cfg data gm instrumentName libraryName variant (world r))).
Proof.
  intros Hretag (Hcount & Htally & Hdisk).
  destruct (convertInstrument cfg data gm instrumentName libraryName variant (world r))
    as [out w'] eqn:Hcall.
  apply convertInstrument_spec in Hcall.
  destruct out as [|[entry|]]; cbn [settle].
  - destruct Hcall as [_ ->]. unfold Converter.counted.
    cbn [world entriesByLibrary convertedCount]. repeat apply conj; assumption.
  - destruct Hcall as (zones & czs & _ & Hne & _ & Hfrom & -> & Htally' & Hdisk').
    unfold Converter.counted.
    cbn [world entriesByLibrary convertedCount].
    rewrite (Permutation_length (all_entries_push _ _ _)).
    rewrite (total_permutation _ _ (Permutation_map e_zoneCount (all_entries_push _ _ _))).
    cbn [map total fold_right length]. fold (total (map e_zoneCount
                                                   (all_entries (entriesByLibrary r)))).
    rewrite Hretag. cbn [summaryEntry e_zoneCount].
    repeat apply conj; try lia.
    intros Hreal. rewrite Hreal in Hdisk'. destruct Hdisk' as (ops & Hops & Hdisk').
    destruct (Hdisk Hreal) as [Hpresets Haudio]. split.
    + rewrite (presets_written_app _ _ _ Hdisk'). rewrite length_app, Hpresets.
      cbn [flat_map]. rewrite flat_map_app.
      destruct (audio_ops_only _ _ _ Hops) as [-> _]. cbn. lia.
    + rewrite (audio_writes_app _ _ _ Hdisk'). rewrite length_app.
      cbn [flat_map app]. rewrite flat_map_app, length_app.
      destruct (audio_ops_only _ _ _ Hops) as [_ ->]. cbn [flat_map app length]. lia.
  - destruct Hcall as (zones & _ & _ & Htally' & Hdisk').
    unfold Converter.counted. cbn [world entriesByLibrary convertedCount].
    repeat apply conj; try lia.
    intros Hreal. rewrite Hreal in Hdisk'. destruct (Hdisk Hreal) as [Hpresets Haudio].
    split.
    + rewrite (presets_written_app _ _ _ Hdisk'), length_app, Hpresets.
      destruct zones; cbn; lia.
    + rewrite (audio_writes_app _ _ _ Hdisk'), length_app.
      destruct zones; cbn [flat_map app length]; lia.
Qed.

Lemma initial_counted : counted (initial_run cfg).
Proof.
  unfold Converter.counted, initial_run. cbn [world entriesByLibrary convertedCount].
  repeat apply conj.
  - reflexivity.
  - destruct (DRY_RUN cfg); reflexivity.
  - intros ->. split; reflexivity.
Qed.

Lemma run_counted (names : list string) (src : Source) :
  counted (convert_dir cfg (percussion_step cfg) (p_dir src)
             (convert_dir cfg (instrument_step cfg names) (i_dir src) (initial_run cfg))).
Proof.
  apply conversion_invariant.
  - intros. apply step_counted; auto.
  - intros. apply step_counted; auto.
  - apply initial_counted.
Qed.

Lemma index_writes_only (libs : list (string * list Entry)) (doc : IndexDoc) (path : string) :
  let ops := map (library_index_write cfg) libs ++ [WriteFile path (IndexJson doc)] in
  flat_map (fun op => match op with
                      | WriteFile _ (PresetJson p) => [p]
                      | _ => []
                      end) ops = []
  /\ flat_map (fun op => match op with
                         | WriteFile p (AudioBytes b) => [(p, b)]
                         | _ => []
                         end) ops = [].
Proof.
  cbv zeta. rewrite !flat_map_app. cbn [flat_map app].
  induction libs as [|le libs [IH1 IH2]]; [split; reflexivity|].
  cbn [map flat_map library_index_write app]. split; assumption.
Qed.

End Counting.

(** The count of converted presets a run reports is the number of entries
    it stored, over all libraries, and the sum of the preset counts of the
    root index; when the run is not dry it is also the number of preset
    documents written. *)
Theorem converted_count (cfg : Converter.Config) (src : Converter.Source)
    (res : Converter.Result) :
  Converter.main cfg src = Some res ->
  let entries := Converter.all_entries (Converter.entriesByLibrary (Converter.final res)) in
  Converter.convertedCount (Converter.final res) = Z.of_nat (length entries)
  /\ Converter.convertedCount (Converter.final res)
     = Index.total (map Index.lr_presetCount (Converter.rootEntries res))
  /\ (Converter.DRY_RUN cfg = false ->
      length (Converter.presets_written (Converter.world (Converter.final res)))
      = length entries).
Proof.
  intros Hmain entries. subst entries.
  apply main_shape in Hmain
    as (names & r2 & _ & Hr2 & Hentries & Hcount & _ & Hroots & Hhashes & Hsaved & Hdisk).
  pose proof (run_counted cfg names src) as Hcounted. rewrite <- Hr2 in Hcounted.
  destruct Hcounted as (Hc & Htally & Hreal).
  rewrite Hentries, Hcount, Hroots. repeat apply conj.
  - exact Hc.
  - rewrite Hc. rewrite map_map. cbn [Converter.libraryRef Index.lr_presetCount].
    unfold Converter.all_entries.
    generalize (Converter.entriesByLibrary r2) as m.
    induction m as [|[k es] m IH]; [reflexivity|].
    cbn [flat_map map snd Index.total fold_right]. rewrite length_app.
    unfold Index.total in IH. lia.
  - intros Hr. destruct (Hreal Hr) as [Hpresets _].
    rewrite Hr in Hdisk. rewrite (presets_written_app _ _ _ Hdisk), length_app.
    destruct (index_writes_only cfg (Converter.entriesByLibrary r2)
                (Index.rootIndex (Converter.rootEntries res))
                (Converter.join [Converter.OUTPUT_DIR cfg; "index.json"])) as [-> _].
    cbn [length]. lia.
Qed.

(** A run over three files, one of them unreadable. *)
Lemma converted_count_witness :
  exists res,
    Converter.main Samples.real_run Samples.two_zones = Some res
    /\ Converter.convertedCount (Converter.final res)
       = Z.of_nat (length (Converter.all_entries
                             (Converter.entriesByLibrary (Converter.final res)))).
Proof.
  eexists. split; [vm_compute; reflexivity|].
  refine (proj1 (converted_count Samples.real_run Samples.two_zones _ _)).
  vm_compute. reflexivity.
Defined.



(** ** The libraries of a run *)

Section Libraries.
Import Converter Index.

Variable cfg : Config.

Lemma push_entry_keys (lib : string) (e : Entry) (m : list (string * list Entry)) :
  map fst (push_entry lib e m)
  = if existsb (String.eqb lib) (map fst m) then map fst m else map fst m ++ [lib].
Proof.
  induction m as [|[k es] m IH]; [reflexivity|].
  cbn [push_entry map fst existsb]. rewrite (String.eqb_sym lib k).
  destruct (String.eqb k lib); [reflexivity|].
  cbn [map fst orb]. rewrite IH.
  destruct (existsb (String.eqb lib) (map fst m)); reflexivity.
Qed.

Lemma push_entry_valid (e : Entry) (m : list (string * list Entry)) :
  libraries_valid m -> libraries_valid (push_entry (e_library e) e m).
Proof.
  intros [Hkeys Hall]. split.
  - rewrite push_entry_keys.
    destruct (existsb (String.eqb (e_library e)) (map fst m)) eqn:Hin; [exact Hkeys|].
    apply List.NoDup_app; repeat apply conj.
    + exact Hkeys.
    + repeat constructor. intros [].
    + intros k Hk [Heq | []]. subst k.
      assert (Hex : existsb (String.eqb (e_library e)) (map fst m) = true)
        by (apply existsb_exists; exists (e_library e);
            split; [exact Hk | apply String.eqb_refl]).
      congruence.
  - clear Hkeys. induction m as [|[k es] m IH]; cbn [push_entry].
    + repeat constructor. discriminate.
    + apply List.Forall_cons_iff in Hall as [[Hes Hlib] Hall]. cbn [fst snd] in *.
      destruct (String.eqb_spec k (e_library e)) as [-> | Hne].
      * constructor; [|exact Hall]. cbn [fst snd]. split.
        -- destruct es; discriminate.
        -- apply Forall_app. split; [exact Hlib | repeat constructor].
      * constructor; [split; assumption | apply IH, Hall].
Qed.

Lemma step_libraries_valid (retag : Entry -> Entry) (r : Run) (res : Outcome * World) :
  libraries_valid (entriesByLibrary r) ->
  libraries_valid (entriesByLibrary (settle retag r res)).
Proof.
  intros Hr. destruct res as [[|[entry|]] w]; cbn [settle entriesByLibrary]; try exact Hr.
  apply push_entry_valid, Hr.
Qed.

Lemma run_libraries (names : list string) (src : Source) :
  libraries_valid
    (entriesByLibrary
       (convert_dir cfg (percussion_step cfg) (p_dir src)
          (convert_dir cfg (instrument_step cfg names) (i_dir src) (initial_run cfg)))).
Proof.
  apply (conversion_invariant cfg (fun r => libraries_valid (entriesByLibrary r))).
  - intros. apply step_libraries_valid. assumption.
  - intros. apply step_libraries_valid. assumption.
  - split; constructor.
Qed.

Lemma indexes_written_app (w w' : World) (ops : list FsOp) :
  disk w' = disk w ++ ops ->
  Forall not_index ops -> indexes_written w' = indexes_written w.
Proof.
  intros Hdisk Hops. unfold indexes_written. rewrite Hdisk, flat_map_app.
  rewrite <- (app_nil_r (flat_map _ (disk w))) at 2. f_equal. clear Hdisk.
  induction Hops as [|op ops Hop _ IH]; [reflexivity|].
  cbn [flat_map]. rewrite IH.
  destruct op as [p|p [b|q|d]]; cbn [not_index] in Hop; [reflexivity.. | destruct Hop].
Qed.

Lemma audio_ops_not_index (dir : string) (czs : list ConvertedZone) (ops : list FsOp) :
  Forall2 (audio_write dir) czs ops -> Forall not_index ops.
Proof. induction 1 as [|cz op czs ops [bytes ->] _ IH]; constructor; [exact I | exact IH]. Qed.

Lemma run_no_index (names : list string) (src : Source) :
  indexes_written
    (world (convert_dir cfg (percussion_step cfg) (p_dir src)
              (convert_dir cfg (instrument_step cfg names) (i_dir src) (initial_run cfg))))
  = [].
Proof.
  assert (Hstep : forall retag r data gm instrumentName libraryName variant,
             indexes_written (world r) = [] ->
             indexes_written
               (world (settle retag r
                         (convertInstrument cfg data gm instrumentName libraryName variant
                            (world r)))) = []).
  { intros retag r data gm instrumentName libraryName variant Hr.
    destruct (convertInstrument cfg data gm instrumentName libraryName variant (world r))
      as [out w'] eqn:Hcall.
    apply convertInstrument_spec in Hcall.
    destruct out as [|[entry|]]; cbn [settle world].
    - destruct Hcall as [_ ->]. exact Hr.
    - destruct Hcall as (zones & czs & _ & _ & _ & _ & _ & _ & Hdisk).
      rewrite <- Hr. destruct (DRY_RUN cfg).
      + unfold indexes_written. rewrite Hdisk. reflexivity.
      + destruct Hdisk as (ops & Hops & Hdisk).
        apply (indexes_written_app _ _ _ Hdisk).
        constructor; [exact I|]. apply Forall_app. split.
        * eapply audio_ops_not_index, Hops.
        * repeat constructor.
    - destruct Hcall as (zones & _ & _ & _ & Hdisk).
      rewrite <- Hr. apply (indexes_written_app _ _ _ Hdisk).
      destruct (DRY_RUN cfg); [constructor|]. destruct zones; repeat constructor. }
  apply (conversion_invariant cfg (fun r => indexes_written (world r) = [])).
  - intros. apply Hstep. assumption.
  - intros. apply Hstep. assumption.
  - unfold initial_run. cbn [world]. destruct (DRY_RUN cfg); reflexivity.
Qed.

Lemma append_cancel_r (s s' t : string) : s +:+ t = s' +:+ t -> s = s'.
Proof.
  intros H.
  assert (Hlen : String.length s = String.length s').
  { apply (f_equal String.length) in H. rewrite !append_length in H. lia. }
  revert s' H Hlen. induction s as [|c s IH]; intros [|c' s'] H Hlen; try discriminate.
  - reflexivity.
  - rewrite !append_cons in H. injection H as -> H. f_equal. apply IH; [exact H|].
    cbn in Hlen. lia.
Qed.

End Libraries.

(** Every library of a run is listed once: the keys of [entriesByLibrary]
    and the paths of the root index have no repeats, every library of the
    root index has at least one preset, every entry is kept under the name
    of its own library, and when the run is not dry the index files written
    are one per library, in the order the libraries were first met, and
    then the root index. *)
Theorem libraries_listed_once (cfg : Converter.Config) (src : Converter.Source)
    (res : Converter.Result) :
  Converter.main cfg src = Some res ->
  List.NoDup (map fst (Converter.entriesByLibrary (Converter.final res)))
  /\ List.NoDup (map Index.lr_path (Converter.rootEntries res))
  /\ Forall (fun ref => 1 <= Index.lr_presetCount ref) (Converter.rootEntries res)
  /\ Forall (fun le => Forall (fun e => Converter.e_library e = fst le) (snd le))
       (Converter.entriesByLibrary (Converter.final res))
  /\ (Converter.DRY_RUN cfg = false ->
      map fst (Converter.indexes_written (Converter.world (Converter.final res)))
      = map (fun le => Converter.join [Converter.OUTPUT_DIR cfg; fst le; "index.json"])
          (Converter.entriesByLibrary (Converter.final res))
        ++ [Converter.join [Converter.OUTPUT_DIR cfg; "index.json"]]).
Proof.
  intros Hmain.
  apply main_shape in Hmain
    as (names & r2 & _ & Hr2 & Hentries & _ & _ & Hroots & _ & _ & Hdisk).
  pose proof (run_libraries cfg names src) as Hlibs. rewrite <- Hr2 in Hlibs.
  destruct Hlibs as [Hkeys Hall].
  rewrite Hentries, Hroots. repeat apply conj.
  - exact Hkeys.
  - rewrite map_map. cbn [Converter.libraryRef Index.lr_path].
    clear -Hkeys. induction (Converter.entriesByLibrary r2) as [|[k es] m IH];
      [constructor|].
    cbn [map fst] in *. apply List.NoDup_cons_iff in Hkeys as [Hfresh Hkeys].
    constructor; [|apply IH, Hkeys].
    intros Hin. apply Hfresh. apply in_map_iff in Hin as ([k' es'] & Heq & Hin).
    cbn [fst] in Heq. apply append_cancel_r in Heq. subst k'.
    apply in_map_iff. exists (k, es'). split; [reflexivity | exact Hin].
  - apply Forall_map. eapply List.Forall_impl; [|exact Hall].
    intros [k es] [Hes _]. cbn [Converter.libraryRef Index.lr_presetCount fst snd] in *.
    destruct es; [congruence | cbn [length]; lia].
  - eapply List.Forall_impl; [|exact Hall]. intros le [_ H]. exact H.
  - intros Hreal. rewrite Hreal in Hdisk.
    pose proof (run_no_index cfg names src) as Hnone. rewrite <- Hr2 in Hnone.
    unfold Converter.indexes_written in *. rewrite Hdisk, flat_map_app, map_app.
    rewrite Hnone. cbn [app map]. rewrite flat_map_app, map_app. f_equal.
    generalize (Converter.entriesByLibrary r2) as m. clear. intros m.
    induction m as [|[k es] m IH]; [reflexivity|].
    cbn [map flat_map Converter.library_index_write app fst]. f_equal. apply IH.
Qed.

(** Two libraries, one index file each and the root index. *)
Lemma libraries_listed_once_witness :
  exists res,
    Converter.main Samples.real_run Samples.two_libraries = Some res
    /\ List.NoDup (map Index.lr_path (Converter.rootEntries res)).
Proof.
  eexists. split; [vm_compute; reflexivity|].
  refine (proj1 (proj2 (libraries_listed_once Samples.real_run Samples.two_libraries _ _))).
  vm_compute. reflexivity.
Defined.

(** ** The limit and the errors *)

Section Progress.
Import Converter Index.

Variable cfg : Config.

(** What a conversion does to the two counters of [main]. *)
Lemma settle_counters (retag : Entry -> Entry) (r : Run) data gm instrumentName
    libraryName variant :
  let r' := settle retag r
              (convertInstrument cfg data gm instrumentName libraryName variant (world r)) in
  (convertedCount r' = convertedCount r /\ errorCount r' = errorCount r)
  \/ (convertedCount r' = convertedCount r + 1 /\ errorCount r' = errorCount r)
  \/ (data = None /\ convertedCount r' = convertedCount r
      /\ errorCount r' = errorCount r + 1).
Proof.
  cbv zeta.
  destruct (convertInstrument cfg data gm instrumentName libraryName variant (world r))
    as [out w'] eqn:Hcall.
  apply convertInstrument_spec in Hcall.
  destruct out as [|[entry|]]; cbn [settle convertedCount errorCount].
  - destruct Hcall as [-> _]. right. right. auto.
  - right. left. auto.
  - left. auto.
Qed.

Lemma instrument_turn (names : list string) : turn (instrument_step cfg names).
Proof.
  intros file r. unfold instrument_step.
  destruct (parseInstrumentFilename (f_name file)) as [info|]; [|left; auto].
  destruct (128 <=? i_gmProgram info); [left; auto|].
  apply settle_counters.
Qed.

Lemma percussion_turn : turn (percussion_step cfg).
Proof.
  intros file r. unfold percussion_step.
  destruct (parsePercussionFilename (f_name file)) as [info|]; [|left; auto].
  apply settle_counters.
Qed.

Lemma convert_files_counters (step : SrcFile -> Run -> Run) (files : list SrcFile) :
  turn step ->
  forall r,
    let r' := convert_files cfg step files r in
    convertedCount r <= convertedCount r'
    /\ errorCount r <= errorCount r'
    /\ convertedCount r' + errorCount r'
       <= convertedCount r + errorCount r + Z.of_nat (length files)
    /\ (Forall (fun file => f_data file <> None) files -> errorCount r' = errorCount r)
    /\ (forall n, LIMIT cfg = Some n ->
                  convertedCount r <= Z.max 0 n -> convertedCount r' <= Z.max 0 n).
Proof.
  intros Hturn. induction files as [|file rest IH]; intros r; cbv zeta.
  - cbn [convert_files length]. repeat apply conj; auto; lia.
  - cbn [convert_files length].
    destruct (limit_reached cfg r) eqn:Hlimit.
    + repeat apply conj; auto; lia.
    + specialize (IH (step file r)). cbv zeta in IH.
      destruct IH as (Hc & He & Hsum & Hclean & Hmax).
      repeat apply conj.
      * destruct (Hturn file r) as [[? ?]|[[? ?]|(? & ? & ?)]]; lia.
      * destruct (Hturn file r) as [[? ?]|[[? ?]|(? & ? & ?)]]; lia.
      * destruct (Hturn file r) as [[? ?]|[[? ?]|(? & ? & ?)]]; lia.
      * intros Hall. apply List.Forall_cons_iff in Hall as [Hfile Hall].
        rewrite (Hclean Hall).
        destruct (Hturn file r) as [[? ?]|[[? ?]|(? & ? & ?)]]; congruence.
      * intros n Hn Hr. apply (Hmax n Hn).
        unfold limit_reached in Hlimit. rewrite Hn in Hlimit. apply Z.leb_gt in Hlimit.
        destruct (Hturn file r) as [[? ?]|[[? ?]|(? & ? & ?)]]; lia.
Qed.

Lemma main_counters (names : list string) (src : Source) :
  let r2 := convert_dir cfg (percussion_step cfg) (p_dir src)
              (convert_dir cfg (instrument_step cfg names) (i_dir src) (initial_run cfg)) in
  0 <= errorCount r2
  /\ convertedCount r2 + errorCount r2
     <= Z.of_nat (length (listed (i_dir src)) + length (listed (p_dir src)))
  /\ (Forall (fun file => f_data file <> None) (listed (i_dir src) ++ listed (p_dir src)) ->
      errorCount r2 = 0)
  /\ (forall n, LIMIT cfg = Some n -> convertedCount r2 <= Z.max 0 n).
Proof.
  cbv zeta.
  assert (Hdir : forall step dir r,
             turn step ->
             convert_dir cfg step dir r = convert_files cfg step (listed dir) r).
  { intros step [files|] r _; [reflexivity|]. reflexivity. }
  rewrite !Hdir by (apply percussion_turn || apply instrument_turn).
  pose proof (convert_files_counters _ (listed (i_dir src)) (instrument_turn names)
                (initial_run cfg)) as H1.
  cbv zeta in H1. set (r1 := convert_files cfg _ (listed (i_dir src)) _) in *.
  pose proof (convert_files_counters _ (listed (p_dir src)) percussion_turn r1) as H2.
  cbv zeta in H2. set (r2 := convert_files cfg _ (listed (p_dir src)) r1) in *.
  destruct H1 as (Hc1 & He1 & Hsum1 & Hclean1 & Hmax1).
  destruct H2 as (Hc2 & He2 & Hsum2 & Hclean2 & Hmax2).
  change (convertedCount (initial_run cfg)) with 0 in *.
  change (errorCount (initial_run cfg)) with 0 in *.
  repeat apply conj.
  - lia.
  - lia.
  - intros Hall. apply Forall_app in Hall as [Hi Hp].
    rewrite (Hclean2 Hp). apply Hclean1, Hi.
  - intros n Hn. apply (Hmax2 n Hn), (Hmax1 n Hn). lia.
Qed.

End Progress.

(** With [--limit n] at most [n] presets are converted, in [i/] and [p/]
    together; none when [n] is zero or negative. *)
Theorem limit_is_kept (cfg : Converter.Config) (src : Converter.Source)
    (res : Converter.Result) (n : Z) :
  Converter.LIMIT cfg = Some n ->
  Converter.main cfg src = Some res ->
  0 <= Converter.convertedCount (Converter.final res) <= Z.max 0 n
  /\ (n <= 0 -> Converter.entriesByLibrary (Converter.final res) = []
                /\ Converter.rootEntries res = []).
Proof.
  intros Hn Hmain.
  apply main_shape in Hmain
    as (names & r2 & _ & Hr2 & Hentries & Hcount & _ & Hroots & _).
  pose proof (run_counted cfg names src) as Hcounted. rewrite <- Hr2 in Hcounted.
  destruct Hcounted as (Hc & _).
  pose proof (main_counters cfg names src) as Hcounters. cbv zeta in Hcounters.
  rewrite <- Hr2 in Hcounters. destruct Hcounters as (_ & _ & _ & Hmax).
  specialize (Hmax n Hn). rewrite Hcount.
  split; [lia|]. intros Hneg.
  assert (Hnone : Converter.all_entries (Converter.entriesByLibrary r2) = []).
  { destruct (Converter.all_entries (Converter.entriesByLibrary r2)); [reflexivity|].
    cbn [length] in Hc. lia. }
  rewrite Hroots, Hentries.
  pose proof (run_libraries cfg names src) as Hlibs. rewrite <- Hr2 in Hlibs.
  destruct Hlibs as [_ Hlibs].
  destruct (Converter.entriesByLibrary r2) as [|[k es] m]; [split; reflexivity|].
  apply List.Forall_cons_iff in Hlibs as [[Hes _] _]. cbn [snd] in Hes.
  unfold Converter.all_entries in Hnone. cbn [flat_map snd] in Hnone.
  destruct es; [congruence | discriminate].
Qed.

(** A limit of one preset on a source with two instruments. *)
Lemma limit_is_kept_witness :
  exists res,
    Converter.main Samples.limited Samples.two_libraries = Some res
    /\ 0 <= Converter.convertedCount (Converter.final res) <= Z.max 0 1.
Proof.
  eexists. split; [vm_compute; reflexivity|].
  refine (proj1 (limit_is_kept Samples.limited Samples.two_libraries _ 1 eq_refl _)).
  vm_compute. reflexivity.
Defined.



(** ** Where the Converter writes *)

Section Below.
Import Converter Index.

Variable cfg : Config.

Local Abbreviation below := (Converter.below cfg).

Lemma safe_segment_nonempty (s : string) : safe_segment s = true -> s <> "".
Proof. destruct s; [discriminate | discriminate]. Qed.

Lemma is_alnum_safe (c : ascii) :
  Js.is_alnum c = true -> safe_char c = true /\ Ascii.eqb c "." = false.
Proof.
  intros Hc. split; [unfold safe_char; rewrite Hc; reflexivity|].
  apply Ascii.eqb_neq. intros ->. discriminate.
Qed.

Lemma safeLib_chars (libraryName : string) :
  Js.string_forallb (fun c => safe_char c && negb (Ascii.eqb c ".")) (safeLib libraryName)
  = true.
Proof.
  unfold safeLib. induction libraryName as [|c s IH]; [reflexivity|].
  cbn [Js.string_map Js.string_forallb]. rewrite IH, andb_true_r.
  destruct (Js.is_alnum c) eqn:Hc.
  - destruct (is_alnum_safe c Hc) as [-> ->]. reflexivity.
  - reflexivity.
Qed.

Lemma collapse_spaces_chars (p : ascii -> bool) (in_run : bool) (s : string) :
  p "_"%char = true ->
  Js.string_forallb (fun c => p c || Js.is_space c) s = true ->
  Js.string_forallb p (Js.collapse_spaces "_" in_run s) = true.
Proof.
  intros Hp. revert in_run. induction s as [|c s IH]; intros in_run Hs; [reflexivity|].
  cbn [Js.string_forallb] in Hs. apply andb_true_iff in Hs as [Hc Hs].
  cbn [Js.collapse_spaces]. destruct (Js.is_space c) eqn:Hspace.
  - destruct in_run; [apply IH, Hs|].
    change ("_" +:+ Js.collapse_spaces "_" true s)
      with (String "_" (Js.collapse_spaces "_" true s)).
    cbn [Js.string_forallb]. rewrite Hp. apply IH, Hs.
  - rewrite orb_false_r in Hc. cbn [Js.string_forallb]. rewrite Hc. apply IH, Hs.
Qed.

Lemma safeName_chars (instrumentName : string) :
  Js.string_forallb (fun c => safe_char c && negb (Ascii.eqb c ".")) (safeName instrumentName)
  = true.
Proof.
  unfold safeName. apply collapse_spaces_chars; [reflexivity|].
  induction instrumentName as [|c s IH]; [reflexivity|].
  cbn [Js.string_filter].
  destruct (Js.is_alnum c || Ascii.eqb c " ") eqn:Hkeep; [|exact IH].
  cbn [Js.string_forallb]. rewrite IH, andb_true_r.
  apply orb_true_iff in Hkeep as [Hc | Hc].
  - destruct (is_alnum_safe c Hc) as [-> ->]. reflexivity.
  - apply Ascii.eqb_eq in Hc. subst c. reflexivity.
Qed.

Lemma chars_safe_segment (s : string) :
  s <> "" ->
  Js.string_forallb (fun c => safe_char c && negb (Ascii.eqb c ".")) s = true ->
  safe_segment s = true.
Proof.
  intros Hne Hs. destruct s as [|c s]; [congruence|].
  unfold safe_segment. cbn [Js.string_forallb] in *.
  apply andb_true_iff in Hs as [Hc Hs]. apply andb_true_iff in Hc as [Hc Hdot].
  rewrite Hdot, Hc. cbn [andb].
  clear -Hs. induction s as [|a s IH]; [reflexivity|].
  cbn [Js.string_forallb] in *. apply andb_true_iff in Hs as [Ha Hs].
  apply andb_true_iff in Ha as [Ha _]. rewrite Ha. apply IH, Hs.
Qed.

Lemma safeLib_safe (libraryName : string) :
  libraryName <> "" -> safe_segment (safeLib libraryName) = true.
Proof.
  intros Hne. apply chars_safe_segment; [apply safeLib_nonempty, Hne | apply safeLib_chars].
Qed.

Lemma category_safe (gm : Z) : safe_segment (categoryOf false gm) = true.
Proof.
  unfold categoryOf. destruct (gm_category gm) as [c|] eqn:Hc; [|reflexivity].
  apply gm_category_is_a_family in Hc. cbn [default].
  assert (Hall : forallb safe_segment families = true) by (vm_compute; reflexivity).
  rewrite forallb_forall in Hall. apply Hall, Hc.
Qed.

(** *** Joining safe components *)

Lemma join_kept (parts : list string) : join (kept parts) = join parts.
Proof.
  unfold join. fold (kept (kept parts)). fold (kept parts).
  assert (H : kept (kept parts) = kept parts); [|rewrite H; reflexivity].
  unfold kept. induction parts as [|p parts IH]; [reflexivity|].
  cbn [List.filter]. destruct (negb (String.eqb p "")) eqn:Hp; [|exact IH].
  cbn [List.filter]. rewrite Hp, IH. reflexivity.
Qed.

Lemma join_cons_kept (O : string) (parts : list string) :
  join (O :: kept parts) = join (O :: parts).
Proof.
  rewrite <- (join_kept (O :: parts)), <- (join_kept (O :: kept parts)).
  f_equal. unfold kept. cbn [List.filter].
  assert (H : List.filter (fun p => negb (String.eqb p "")) (kept parts) = kept parts).
  { unfold kept. induction parts as [|p parts IH]; [reflexivity|].
    cbn [List.filter]. destruct (negb (String.eqb p "")) eqn:Hp; [|exact IH].
    cbn [List.filter]. rewrite Hp, IH. reflexivity. }
  unfold kept in H. rewrite H. reflexivity.
Qed.

Lemma kept_safe (parts : list string) :
  Forall (fun s => s = "" \/ safe_segment s = true) parts ->
  Forall (fun s => safe_segment s = true) (kept parts).
Proof.
  induction 1 as [|p parts [-> | Hp] _ IH]; [constructor | exact IH |].
  unfold kept. cbn [List.filter].
  destruct (String.eqb_spec p "") as [-> | _]; [discriminate|].
  constructor; assumption.
Qed.

Lemma kept_all (parts : list string) :
  Forall (fun s => safe_segment s = true) parts -> kept parts = parts.
Proof.
  induction 1 as [|p parts Hp _ IH]; [reflexivity|].
  unfold kept in *. cbn [List.filter].
  destruct (String.eqb_spec p "") as [-> | _]; [discriminate|]. cbn [negb]. rewrite IH.
  reflexivity.
Qed.

(** A file in a directory below the output directory is below it. *)
Lemma below_file (segments : list string) (fname : string) :
  segments <> [] ->
  Forall (fun s => safe_segment s = true) segments ->
  safe_segment fname = true ->
  join [join (OUTPUT_DIR cfg :: segments); fname]
  = join (OUTPUT_DIR cfg :: segments ++ [fname]).
Proof.
  intros Hne Hsafe Hfile.
  assert (Hkept : kept (OUTPUT_DIR cfg :: segments) <> []).
  { unfold kept. cbn [List.filter].
    destruct (negb (String.eqb (OUTPUT_DIR cfg) "")); [discriminate|].
    fold (kept segments). rewrite kept_all by exact Hsafe. exact Hne. }
  change (OUTPUT_DIR cfg :: segments ++ [fname])
    with ((OUTPUT_DIR cfg :: segments) ++ [fname]).
  rewrite join_app; [|exact Hkept|].
  - rewrite join_pair; [|apply join_nonempty | apply safe_segment_nonempty, Hfile].
    rewrite join_singleton by (apply safe_segment_nonempty, Hfile). reflexivity.
  - rewrite kept_singleton by (apply safe_segment_nonempty, Hfile). discriminate.
Qed.

(** The directory of a preset lies below the output directory. *)
Lemma presetPath_segments (percussion : bool) (gm : Z) (instrumentName libraryName : string) :
  libraryName <> "" ->
  exists segments,
    segments <> []
    /\ Forall (fun s => safe_segment s = true) segments
    /\ presetPath cfg percussion gm instrumentName libraryName
       = join (OUTPUT_DIR cfg :: segments).
Proof.
  intros Hlib.
  assert (Hname : safeName instrumentName = ""
                  \/ safe_segment (safeName instrumentName) = true).
  { destruct (String.eqb_spec (safeName instrumentName) "") as [-> | Hne]; [left; reflexivity|].
    right. apply chars_safe_segment; [exact Hne | apply safeName_chars]. }
  pose proof (safeLib_safe libraryName Hlib) as Hsafe.
  unfold presetPath. destruct percussion.
  - exists (kept [safeLib libraryName; "percussion"; "individual"; safeName instrumentName]).
    repeat apply conj.
    + unfold kept. cbn [List.filter].
      destruct (String.eqb_spec (safeLib libraryName) "") as [Heq | _];
        [rewrite Heq in Hsafe; discriminate | discriminate].
    + apply kept_safe.
      repeat (apply List.Forall_cons || apply List.Forall_nil);
        [right; exact Hsafe | right; reflexivity | right; reflexivity | exact Hname].
    + symmetry. apply join_cons_kept.
  - exists (kept [safeLib libraryName; "instruments"; categoryOf false gm;
                  safeName instrumentName]).
    repeat apply conj.
    + unfold kept. cbn [List.filter].
      destruct (String.eqb_spec (safeLib libraryName) "") as [Heq | _];
        [rewrite Heq in Hsafe; discriminate | discriminate].
    + apply kept_safe.
      repeat (apply List.Forall_cons || apply List.Forall_nil);
        [right; exact Hsafe | right; reflexivity | right; apply category_safe | exact Hname].
    + symmetry. apply join_cons_kept.
Qed.

Lemma zone_file_names_safe :
  forallb (fun n => forallb (fun ext => safe_segment (zone_file_name (Z.of_nat n) ext)) codecs)
          (seq 0 128) = true.
Proof. vm_compute. reflexivity. Qed.

Lemma zone_file_safe (cz : ConvertedZone) :
  zone_valid cz -> safe_segment (filename (audio cz)) = true.
Proof.
  intros (Hroot & _ & _ & Hcodec & -> & _).
  pose proof zone_file_names_safe as Hall. rewrite forallb_forall in Hall.
  specialize (Hall (Z.to_nat (fst (pitch cz)))). rewrite in_seq in Hall.
  specialize (Hall ltac:(lia)). rewrite forallb_forall in Hall.
  specialize (Hall _ Hcodec). rewrite Z2Nat.id in Hall by lia. exact Hall.
Qed.

Lemma below_app (segments : list string) (fname : string) :
  segments <> [] ->
  Forall (fun s => safe_segment s = true) segments ->
  safe_segment fname = true ->
  below (join [join (OUTPUT_DIR cfg :: segments); fname]).
Proof.
  intros Hne Hsafe Hfile. right. exists (segments ++ [fname]). repeat apply conj.
  - destruct segments; discriminate.
  - apply Forall_app. split; [exact Hsafe | repeat constructor; exact Hfile].
  - apply below_file; assumption.
Qed.

(** the operations of a conversion stay below the output directory *)
Lemma step_below (retag : Entry -> Entry) (r : Run) data gm instrumentName
    libraryName variant :
  libraryName <> "" ->
  Forall (fun op => below (op_path op)) (disk (world r)) ->
  Forall (fun op => below (op_path op))
    (disk (world (settle retag r
                    (convertInstrument cfg data gm instrumentName libraryName variant
                       (world r))))).
Proof.
  intros Hlib Hr.
  destruct (convertInstrument cfg data gm instrumentName libraryName variant (world r))
    as [out w'] eqn:Hcall.
  apply convertInstrument_spec in Hcall.
  destruct out as [|[entry|]]; cbn [settle world].
  - destruct Hcall as [_ ->]. exact Hr.
  - destruct Hcall as (zones & czs & _ & _ & Hvalid & _ & _ & _ & Hdisk).
    destruct (presetPath_segments (isPercussion zones) gm instrumentName libraryName Hlib)
      as (segments & Hne & Hsafe & Hdir).
    destruct (DRY_RUN cfg); [rewrite Hdisk; exact Hr|].
    destruct Hdisk as (ops & Hops & ->).
    apply Forall_app. split; [exact Hr|]. constructor; [|apply Forall_app; split].
    + right. exists segments. auto.
    + clear -Hops Hvalid Hne Hsafe Hdir. rewrite Hdir in Hops.
      induction Hops as [|cz op czs ops [bytes ->] _ IH]; [constructor|].
      apply List.Forall_cons_iff in Hvalid as [Hcz Hvalid].
      constructor; [|apply IH, Hvalid].
      cbn [op_path]. apply below_app; [assumption.. | apply zone_file_safe, Hcz].
    + constructor; [|constructor]. cbn [op_path]. rewrite Hdir.
      apply below_app; [assumption.. | reflexivity].
  - destruct Hcall as (zones & _ & _ & _ & ->).
    apply Forall_app. split; [exact Hr|].
    destruct (DRY_RUN cfg); [constructor|]. destruct zones as [|zone zones]; [constructor|].
    constructor; [|constructor]. cbn [op_path].
    destruct (presetPath_segments (isPercussion (zone :: zones)) gm instrumentName
                libraryName Hlib) as (segments & Hne & Hsafe & Hdir).
    right. exists segments. auto.
Qed.

Lemma run_below (names : list string) (src : Source) :
  Forall (fun op => below (op_path op))
    (disk (world (convert_dir cfg (percussion_step cfg) (p_dir src)
                    (convert_dir cfg (instrument_step cfg names) (i_dir src)
                       (initial_run cfg))))).
Proof.
  apply (conversion_invariant cfg
           (fun r => Forall (fun op => below (op_path op)) (disk (world r)))).
  - intros. apply step_below; assumption.
  - intros. apply step_below; assumption.
  - unfold initial_run. cbn [world]. destruct (DRY_RUN cfg); [constructor|].
    constructor; [|constructor]. left. reflexivity.
Qed.

(** *** The entries stored *)

Lemma show_gm_tag (percussion : bool) (gm : Z) (czs : list ConvertedZone) :
  In ("gm:" +:+ Js.show gm) (buildTags percussion gm czs).
Proof.
  unfold buildTags. apply in_or_app. right. apply in_or_app. right.
  apply in_or_app. left. left. reflexivity.
Qed.

Lemma step_entries_valid (retag : Entry -> Entry) (r : Run) data gm instrumentName
    libraryName variant :
  libraryName <> "" ->
  (retag = (fun e => e) /\ 0 <= gm < 128
   \/ exists note, 0 <= note /\ retag = percussion_tags note /\ gm = 128) ->
  Forall entry_valid (all_entries (entriesByLibrary r)) ->
  Forall entry_valid
    (all_entries
       (entriesByLibrary
          (settle retag r
             (convertInstrument cfg data gm instrumentName libraryName variant (world r))))).
Proof.
  intros Hlib Hretag Hr.
  destruct (convertInstrument cfg data gm instrumentName libraryName variant (world r))
    as [out w'] eqn:Hcall.
  apply convertInstrument_spec in Hcall.
  destruct out as [|[entry|]]; cbn [settle entriesByLibrary]; try exact Hr.
  destruct Hcall as (zones & czs & _ & Hne & _ & _ & -> & _).
  eapply Permutation_Forall; [symmetry; apply all_entries_push|].
  constructor; [|exact Hr].
  destruct Hretag as [[-> Hgm] | (note & Hnote & -> & ->)].
  - unfold entry_valid. cbn [summaryEntry e_category e_zoneCount e_library e_gmProgram e_tags].
    repeat apply conj.
    + reflexivity.
    + destruct czs; [congruence | cbn [length]; lia].
    + apply safeLib_safe, Hlib.
    + left. split; [exact Hgm | apply show_gm_tag].
  - unfold entry_valid.
    cbn [percussion_tags summaryEntry e_category e_zoneCount e_library e_gmProgram e_tags].
    repeat apply conj.
    + reflexivity.
    + destruct czs; [congruence | cbn [length]; lia].
    + apply safeLib_safe, Hlib.
    + right. split; [reflexivity|]. exists note. split; [exact Hnote | reflexivity].
Qed.

Lemma run_entries_valid (names : list string) (src : Source) :
  Forall entry_valid
    (all_entries
       (entriesByLibrary
          (convert_dir cfg (percussion_step cfg) (p_dir src)
             (convert_dir cfg (instrument_step cfg names) (i_dir src) (initial_run cfg))))).
Proof.
  apply (conversion_invariant cfg
           (fun r => Forall entry_valid (all_entries (entriesByLibrary r)))).
  - intros. apply step_entries_valid; [assumption | left; auto | assumption].
  - intros r data note **. apply step_entries_valid; [assumption | right; eauto | assumption].
  - constructor.
Qed.

End Below.

(** Whatever the names of the source files and of the instruments, every
    directory the Converter creates and every file it writes is the output
    directory or lies below it. *)
Theorem writes_stay_below_the_output (cfg : Converter.Config) (src : Converter.Source)
    (res : Converter.Result) :
  Converter.main cfg src = Some res ->
  Forall (fun op => Converter.below cfg (Converter.op_path op))
    (Converter.disk (Converter.world (Converter.final res))).
Proof.
  intros Hmain.
  apply main_shape in Hmain
    as (names & r2 & _ & Hr2 & _ & _ & _ & _ & _ & _ & Hdisk).
  pose proof (run_below cfg names src) as Hbelow. rewrite <- Hr2 in Hbelow.
  pose proof (run_entries_valid cfg names src) as Hvalid. rewrite <- Hr2 in Hvalid.
  pose proof (run_libraries cfg names src) as Hlibs. rewrite <- Hr2 in Hlibs.
  rewrite Hdisk. apply Forall_app. split; [exact Hbelow|].
  destruct (Converter.DRY_RUN cfg); [constructor|].
  apply Forall_app. split.
  - destruct Hlibs as [_ Hlibs]. unfold Converter.all_entries in Hvalid.
    clear -Hlibs Hvalid.
    induction Hlibs as [|[k es] m [Hes Hkey] _ IH]; [constructor|].
    cbn [flat_map snd fst] in *. apply Forall_app in Hvalid as [Hhere Hvalid].
    constructor; [|apply IH, Hvalid].
    cbn [Converter.library_index_write Converter.op_path fst].
    destruct es as [|e es]; [congruence|].
    apply List.Forall_cons_iff in Hhere as [(_ & _ & Hsafe & _) _].
    apply List.Forall_cons_iff in Hkey as [Hk _]. rewrite Hk in Hsafe.
    right. exists [k; "index.json"]. repeat apply conj.
    + discriminate.
    + constructor; [exact Hsafe | constructor; [reflexivity | constructor]].
    + reflexivity.
  - constructor; [|constructor]. cbn [Converter.op_path].
    right. exists ["index.json"]. repeat apply conj.
    + discriminate.
    + constructor; [reflexivity | constructor].
    + reflexivity.
Qed.

(** The writes of the run over one percussion file. *)
Lemma writes_stay_below_the_output_witness :
  exists res,
    Converter.main Samples.real_run Samples.drum = Some res
    /\ Forall (fun op => Converter.below Samples.real_run (Converter.op_path op))
         (Converter.disk (Converter.world (Converter.final res))).
Proof.
  eexists. split; [vm_compute; reflexivity|].
  refine (writes_stay_below_the_output Samples.real_run Samples.drum _ _).
  vm_compute. reflexivity.
Defined.

Section IndexEntries.
Import Converter Index.

Lemma presetEntry_valid (e : Entry) : entry_valid e -> index_entry_valid (presetEntry e).
Proof.
  intros (Hcategory & Hzones & _ & Hkind). unfold index_entry_valid.
  cbn [presetEntry pe_category pe_name pe_zoneCount pe_keyRange pe_gmProgram pe_tags].
  repeat apply conj.
  - exact Hcategory.
  - eauto.
  - eauto.
  - destruct (e_keyRange e) as [low high]. eauto.
  - destruct Hkind as [[Hgm Htag] | [Hgm Htags]].
    + left. exists (e_gmProgram e).
      replace (e_gmProgram e <? 128) with true by (symmetry; apply Z.ltb_lt; lia).
      auto.
    + right. rewrite Hgm. split; [reflexivity | exact Htags].
Qed.

End IndexEntries.

(** The entries of the library indexes: those that come from [i/] carry
    their program, below 128, and the tag of that program; those that come
    from [p/] carry no program and exactly the two tags [main] gives
    them. *)
Theorem library_index_entries (cfg : Converter.Config) (src : Converter.Source)
    (res : Converter.Result) :
  Converter.main cfg src = Some res ->
  Forall (fun written =>
            Forall (fun e => match e with
                             | Index.EPreset pe => Converter.index_entry_valid pe
                             | Index.ELibrary ref => In ref (Converter.rootEntries res)
                             end)
                   (Index.ix_entries (snd written)))
    (Converter.indexes_written (Converter.world (Converter.final res))).
Proof.
  intros Hmain.
  apply main_shape in Hmain
    as (names & r2 & _ & Hr2 & _ & _ & _ & Hroots & _ & _ & Hdisk).
  pose proof (run_no_index cfg names src) as Hnone. rewrite <- Hr2 in Hnone.
  pose proof (run_entries_valid cfg names src) as Hvalid. rewrite <- Hr2 in Hvalid.
  unfold Converter.indexes_written in *. rewrite Hdisk, flat_map_app, Hnone. cbn [app].
  destruct (Converter.DRY_RUN cfg); [constructor|].
  rewrite flat_map_app. apply Forall_app. split.
  - unfold Converter.all_entries in Hvalid. clear -Hvalid.
    induction (Converter.entriesByLibrary r2) as [|[k es] m IH]; [constructor|].
    cbn [flat_map snd map Converter.library_index_write app fst] in *.
    apply Forall_app in Hvalid as [Hhere Hvalid].
    constructor; [|apply IH, Hvalid].
    cbn [snd Converter.libraryIndex Index.ix_entries]. apply Forall_map.
    eapply List.Forall_impl; [|exact Hhere]. intros e He. apply presetEntry_valid, He.
  - cbn [flat_map app]. constructor; [|constructor].
    cbn [snd Index.rootIndex Index.ix_entries]. apply Forall_map.
    apply List.Forall_forall. intros ref Href. exact Href.
Qed.

(** The index files of a run over two libraries. *)
Lemma library_index_entries_witness :
  exists res,
    Converter.main Samples.real_run Samples.two_libraries = Some res
    /\ Forall (fun written =>
                 Forall (fun e => match e with
                                  | Index.EPreset pe => Converter.index_entry_valid pe
                                  | Index.ELibrary ref => In ref (Converter.rootEntries res)
                                  end)
                        (Index.ix_entries (snd written)))
         (Converter.indexes_written (Converter.world (Converter.final res))).
Proof.
  eexists. split; [vm_compute; reflexivity|].
  refine (library_index_entries Samples.real_run Samples.two_libraries _ _).
  vm_compute. reflexivity.
Defined.

(** ** The preset documents *)

Section Presets.
Import Converter Index.

Variable cfg : Config.

Lemma gm_tag_is_no_other (gm : Z) (t : string) :
  In t ["looped"; "one-shot"; "percussion"; "melodic"; "sustained"] ->
  "gm:" +:+ Js.show gm <> t.
Proof.
  change ("gm:" +:+ Js.show gm) with (String "g" (String "m" (String ":" (Js.show gm)))).
  cbn [In]. intros [<- | [<- | [<- | [<- | [<- | []]]]]]; discriminate.
Qed.

Lemma category_is_no_tag (gm : Z) (t : string) :
  In t ["looped"; "one-shot"; "percussion"; "melodic"; "sustained"] ->
  categoryOf false gm <> t.
Proof.
  intros Ht Heq. unfold categoryOf in Heq.
  destruct (gm_category gm) as [c|] eqn:Hc; simpl in Heq.
  - apply gm_category_is_a_family in Hc. subst c.
    cbn [In] in Ht, Hc.
    destruct Ht as [<- | [<- | [<- | [<- | [<- | []]]]]];
      repeat (destruct Hc as [Hc | Hc]; [discriminate Hc|]); destruct Hc.
  - subst t. cbn [In] in Ht.
    repeat (destruct Ht as [Ht | Ht]; [discriminate Ht|]). destruct Ht.
Qed.

Lemma any_loop (czs : list ConvertedZone) :
  existsb (fun z => bool_decide (is_Some (loop z))) czs = true
  <-> exists z, In z czs /\ loop z <> None.
Proof.
  rewrite existsb_exists. split; intros (z & Hin & Hz); exists z; (split; [exact Hin|]).
  - apply bool_decide_eq_true in Hz. destruct Hz as [x ->]. discriminate.
  - apply bool_decide_eq_true. destruct (loop z); [eauto | congruence].
Qed.

Lemma buildTags_In (percussion : bool) (gm : Z) (czs : list ConvertedZone) (t : string) :
  In t ["looped"; "one-shot"; "percussion"; "melodic"; "sustained"] ->
  In t (buildTags percussion gm czs)
  <-> t = (if percussion then "percussion" else "melodic")
      \/ In t (if existsb (fun z => bool_decide (is_Some (loop z))) czs
               then ["sustained"; "looped"] else ["one-shot"]).
Proof.
  intros Ht. unfold buildTags. rewrite !in_app_iff. cbn [In].
  pose proof (gm_tag_is_no_other gm t Ht) as Hgm.
  pose proof (category_is_no_tag gm t Ht) as Hcat.
  destruct percussion; cbn [In]; intuition congruence.
Qed.

Lemma presetDocument_valid (percussion : bool) (gm : Z) (instrumentName libraryName : string)
    (variant : Z) (czs : list ConvertedZone) :
  czs <> [] -> Forall zone_valid czs ->
  preset_valid (presetDocument percussion gm instrumentName libraryName variant czs).
Proof.
  intros Hne Hvalid. unfold preset_valid. cbn [presetDocument zones tags oneShot].
  split; [exact Hne|]. split; [exact Hvalid|]. split; [|split; [|split]].
  - rewrite buildTags_In by (cbn; tauto). rewrite <- any_loop.
    destruct (existsb _ czs); destruct percussion; cbn [In]; intuition congruence.
  - rewrite buildTags_In by (cbn; tauto).
    destruct (existsb (fun z => bool_decide (is_Some (loop z))) czs) eqn:Hloop.
    + apply any_loop in Hloop as (z & Hin & Hz). split.
      * destruct percussion; cbn [In]; intuition congruence.
      * intros Hall. exfalso. apply Hz, Hall, Hin.
    + split; [|intros _; right; left; reflexivity].
      intros _ z Hin. destruct (loop z) eqn:Hz; [|reflexivity].
      assert (Hyes : existsb (fun z => bool_decide (is_Some (loop z))) czs = true)
        by (apply any_loop; exists z; split; [exact Hin | congruence]).
      congruence.
  - rewrite buildTags_In by (cbn; tauto).
    destruct (existsb _ czs); destruct percussion; cbn [In]; intuition congruence.
  - rewrite buildTags_In by (cbn; tauto).
    destruct (existsb _ czs); destruct percussion; cbn [In]; intuition congruence.
Qed.

Lemma step_presets_valid (retag : Entry -> Entry) (r : Run) data gm instrumentName
    libraryName variant :
  Forall preset_valid (presets_written (world r)) ->
  Forall preset_valid
    (presets_written
       (world (settle retag r
                 (convertInstrument cfg data gm instrumentName libraryName variant
                    (world r))))).
Proof.
  intros Hr.
  destruct (convertInstrument cfg data gm instrumentName libraryName variant (world r))
    as [out w'] eqn:Hcall.
  apply convertInstrument_spec in Hcall.
  destruct out as [|[entry|]]; cbn [settle world].
  - destruct Hcall as [_ ->]. exact Hr.
  - destruct Hcall as (zones & czs & _ & Hne & Hvalid & _ & _ & _ & Hdisk).
    destruct (DRY_RUN cfg).
    + unfold presets_written in *. rewrite Hdisk. exact Hr.
    + destruct Hdisk as (ops & Hops & Hdisk).
      rewrite (presets_written_app _ _ _ Hdisk). apply Forall_app. split; [exact Hr|].
      cbn [flat_map app]. rewrite flat_map_app.
      destruct (audio_ops_only _ _ _ Hops) as [-> _]. cbn [flat_map app].
      constructor; [|constructor]. apply presetDocument_valid; assumption.
  - destruct Hcall as (zones & _ & _ & _ & Hdisk).
    rewrite (presets_written_app _ _ _ Hdisk). apply Forall_app. split; [exact Hr|].
    destruct (DRY_RUN cfg); [constructor|]. destruct zones; constructor.
Qed.

Lemma run_presets_valid (names : list string) (src : Source) :
  Forall preset_valid
    (presets_written
       (world (convert_dir cfg (percussion_step cfg) (p_dir src)
                 (convert_dir cfg (instrument_step cfg names) (i_dir src)
                    (initial_run cfg))))).
Proof.
  apply (conversion_invariant cfg (fun r => Forall preset_valid (presets_written (world r)))).
  - intros. apply step_presets_valid; assumption.
  - intros. apply step_presets_valid; assumption.
  - unfold initial_run. cbn [world]. destruct (DRY_RUN cfg); constructor.
Qed.

End Presets.

(** Every preset document the Converter writes has at least one zone; each
    zone has a root note within the MIDI range, fewer than 100 cents of
    fine tuning, a sample rate that is not zero, a file named after its
    root note and codec, and a loop only with [0 <= start < end]; the tags
    tell whether a zone loops and whether the preset plays one shot. *)
Theorem presets_are_valid (cfg : Converter.Config) (src : Converter.Source)
    (res : Converter.Result) :
  Converter.main cfg src = Some res ->
  Forall Converter.preset_valid
    (Converter.presets_written (Converter.world (Converter.final res))).
Proof.
  intros Hmain.
  apply main_shape in Hmain
    as (names & r2 & _ & Hr2 & _ & _ & _ & _ & _ & _ & Hdisk).
  pose proof (run_presets_valid cfg names src) as Hvalid. rewrite <- Hr2 in Hvalid.
  rewrite (presets_written_app _ _ _ Hdisk). apply Forall_app. split; [exact Hvalid|].
  destruct (Converter.DRY_RUN cfg); [constructor|].
  destruct (index_writes_only cfg (Converter.entriesByLibrary r2)
              (Index.rootIndex (Converter.rootEntries res))
              (Converter.join [Converter.OUTPUT_DIR cfg; "index.json"])) as [-> _].
  constructor.
Qed.

(** The preset of an instrument with two payloads. *)
Lemma presets_are_valid_witness :
  exists res,
    Converter.main Samples.real_run Samples.same_note = Some res
    /\ Forall Converter.preset_valid
         (Converter.presets_written (Converter.world (Converter.final res))).
Proof.
  eexists. split; [vm_compute; reflexivity|].
  refine (presets_are_valid Samples.real_run Samples.same_note _ _).
  vm_compute. reflexivity.
Defined.

(** ** What one conversion leaves on the disk *)

(** A conversion that returns an entry, in a run that is not dry: it
    creates the directory of the preset, writes one audio file for every
    zone with a payload, in the order of the zones, and then the preset
    document, which lists those zones; the entry counts them. *)
Theorem convertInstrument_writes (cfg : Converter.Config) (zones : list Converter.Zone)
    (gm : Z) (instrumentName libraryName : string) (variant : Z)
    (w w' : Converter.World) (entry : Converter.Entry) :
  Converter.DRY_RUN cfg = false ->
  Converter.convertInstrument cfg (Some zones) gm instrumentName libraryName variant w
  = (Converter.Returned (Some entry), w') ->
  let dir := Converter.presetPath cfg (Converter.isPercussion zones) gm
               instrumentName libraryName in
  exists ops preset,
    Converter.disk w'
    = Converter.disk w
      ++ Converter.Mkdir dir :: ops
      ++ [Converter.WriteFile (Converter.join [dir; "preset.json"])
            (Converter.PresetJson preset)]
    /\ Forall2 (Converter.audio_write dir) (Converter.zones preset) ops
    /\ Forall2 Converter.converted_from (List.filter Converter.has_payload zones)
         (Converter.zones preset)
    /\ Converter.e_zoneCount entry = Z.of_nat (length ops)
    /\ Converter.name preset = instrumentName
    /\ Converter.source preset = libraryName
    /\ Converter.gmProgram preset = gm
    /\ Converter.variant preset = variant.
Proof.
  intros Hreal Hcall dir. apply convertInstrument_spec in Hcall.
  destruct Hcall as (zones' & czs & [= <-] & Hne & _ & Hfrom & -> & _ & Hdisk).
  rewrite Hreal in Hdisk. destruct Hdisk as (ops & Hops & Hdisk).
  exists ops. eexists. split; [exact Hdisk|].
  cbn [Converter.presetDocument Converter.zones Converter.name Converter.source
       Converter.gmProgram Converter.variant Converter.summaryEntry Converter.e_zoneCount].
  repeat apply conj; try reflexivity; try assumption.
  rewrite (Forall2_length _ _ _ Hops). reflexivity.
Qed.

(** An instrument with three zones, one of them without audio: the
    directory, two audio files and the preset. *)
Lemma convertInstrument_writes_witness :
  exists entry w,
    Converter.convertInstrument Samples.real_run
      (Some [Samples.piano_zone; Samples.bare; Samples.raw_zone])
      0 "Acoustic Grand Piano" "FluidR3_GM" 0 Converter.empty_world
    = (Converter.Returned (Some entry), w)
    /\ exists ops preset,
         Converter.disk w
         = Converter.Mkdir "library-output/FluidR3_GM/instruments/piano/Acoustic_Grand_Piano"
           :: ops
           ++ [Converter.WriteFile
                 "library-output/FluidR3_GM/instruments/piano/Acoustic_Grand_Piano/preset.json"
                 (Converter.PresetJson preset)]
         /\ Converter.e_zoneCount entry = Z.of_nat (length ops).
Proof.
  do 2 eexists. split; [vm_compute; reflexivity|].
  destruct (convertInstrument_writes Samples.real_run
              [Samples.piano_zone; Samples.bare; Samples.raw_zone]
              0 "Acoustic Grand Piano" "FluidR3_GM" 0 Converter.empty_world _ _
              eq_refl ltac:(vm_compute; reflexivity))
    as (ops & preset & Hdisk & _ & _ & Hcount & _).
  exists ops, preset. split; [exact Hdisk | exact Hcount].
Defined.

Section KeyRange.
Import Converter.

Lemma fold_min_le (l : list Z) (x : Z) :
  fold_left Z.min l x <= x /\ Forall (fun y => fold_left Z.min l x <= y) l
  /\ (fold_left Z.min l x = x \/ In (fold_left Z.min l x) l).
Proof.
  revert x. induction l as [|y l IH]; intros x; cbn [fold_left].
  - repeat split; [lia | constructor | left; reflexivity].
  - destruct (IH (Z.min x y)) as (Hle & Hall & Hin). repeat split.
    + lia.
    + constructor; [lia | exact Hall].
    + destruct Hin as [Heq | Hin]; [|right; right; exact Hin].
      destruct (Z.min_spec x y) as [[_ Hm] | [_ Hm]].
      * left. rewrite Heq. exact Hm.
      * right. left. rewrite Heq. symmetry. exact Hm.
Qed.

Lemma fold_max_ge (l : list Z) (x : Z) :
  x <= fold_left Z.max l x /\ Forall (fun y => y <= fold_left Z.max l x) l
  /\ (fold_left Z.max l x = x \/ In (fold_left Z.max l x) l).
Proof.
  revert x. induction l as [|y l IH]; intros x; cbn [fold_left].
  - repeat split; [lia | constructor | left; reflexivity].
  - destruct (IH (Z.max x y)) as (Hle & Hall & Hin). repeat split.
    + lia.
    + constructor; [lia | exact Hall].
    + destruct Hin as [Heq | Hin]; [|right; right; exact Hin].
      destruct (Z.max_spec x y) as [[_ Hm] | [_ Hm]].
      * right. left. rewrite Heq. symmetry. exact Hm.
      * left. rewrite Heq. exact Hm.
Qed.

Lemma min_of_least (l : list Z) :
  l <> [] -> In (min_of l) l /\ Forall (fun y => min_of l <= y) l.
Proof.
  destruct l as [|x l]; [congruence|]. intros _. unfold min_of.
  destruct (fold_min_le l x) as (Hle & Hall & Hin). split.
  - destruct Hin as [-> | Hin]; [left; reflexivity | right; exact Hin].
  - constructor; assumption.
Qed.

Lemma max_of_greatest (l : list Z) :
  l <> [] -> In (max_of l) l /\ Forall (fun y => y <= max_of l) l.
Proof.
  destruct l as [|x l]; [congruence|]. intros _. unfold max_of.
  destruct (fold_max_ge l x) as (Hle & Hall & Hin). split.
  - destruct Hin as [-> | Hin]; [left; reflexivity | right; exact Hin].
  - constructor; assumption.
Qed.

End KeyRange.

(** The key range of an entry spans the key ranges of the zones that were
    converted, a missing bound counting as 0 or as 127: its low end is the
    least of their low ends and its high end the greatest of their high
    ends. *)
Theorem entry_key_range (cfg : Converter.Config) (zones : list Converter.Zone)
    (gm : Z) (instrumentName libraryName : string) (variant : Z)
    (w w' : Converter.World) (entry : Converter.Entry) :
  Converter.convertInstrument cfg (Some zones) gm instrumentName libraryName variant w
  = (Converter.Returned (Some entry), w') ->
  let lows := map (fun z => Js.nullish_default (Converter.z_keyRangeLow z) 0)
                (List.filter Converter.has_payload zones) in
  let highs := map (fun z => Js.nullish_default (Converter.z_keyRangeHigh z) 127)
                 (List.filter Converter.has_payload zones) in
  In (fst (Converter.e_keyRange entry)) lows
  /\ Forall (fun low => fst (Converter.e_keyRange entry) <= low) lows
  /\ In (snd (Converter.e_keyRange entry)) highs
  /\ Forall (fun high => high <= snd (Converter.e_keyRange entry)) highs.
Proof.
  intros Hcall lows highs. apply convertInstrument_spec in Hcall.
  destruct Hcall as (zones' & czs & [= <-] & Hne & _ & Hfrom & -> & _).
  cbn [Converter.summaryEntry Converter.e_keyRange fst snd].
  assert (Hlows : map (fun z => fst (Converter.keyRange z)) czs = lows).
  { subst lows. clear -Hfrom.
    induction Hfrom as [|zone cz zs czs (Hrange & _) _ IH]; [reflexivity|].
    cbn [map]. rewrite Hrange, IH. reflexivity. }
  assert (Hhighs : map (fun z => snd (Converter.keyRange z)) czs = highs).
  { subst highs. clear -Hfrom.
    induction Hfrom as [|zone cz zs czs (Hrange & _) _ IH]; [reflexivity|].
    cbn [map]. rewrite Hrange, IH. reflexivity. }
  rewrite Hlows, Hhighs.
  assert (Hl : lows <> []) by (rewrite <- Hlows; destruct czs; [congruence | discriminate]).
  assert (Hh : highs <> []) by (rewrite <- Hhighs; destruct czs; [congruence | discriminate]).
  destruct (min_of_least lows Hl) as [Hin1 Hall1].
  destruct (max_of_greatest highs Hh) as [Hin2 Hall2].
  repeat apply conj; assumption.
Qed.

(** The key range of an instrument with two zones of different ranges. *)
Lemma entry_key_range_witness :
  exists entry w,
    Converter.convertInstrument Samples.dry_run
      (Some [Samples.piano_zone; Samples.bare; Samples.raw_zone])
      0 "Acoustic Grand Piano" "FluidR3_GM" 0 Converter.empty_world
    = (Converter.Returned (Some entry), w)
    /\ In (fst (Converter.e_keyRange entry)) [21; 60]
    /\ Forall (fun low => fst (Converter.e_keyRange entry) <= low) [21; 60].
Proof.
  do 2 eexists. split; [vm_compute; reflexivity|].
  destruct (entry_key_range Samples.dry_run
              [Samples.piano_zone; Samples.bare; Samples.raw_zone]
              0 "Acoustic Grand Piano" "FluidR3_GM" 0 Converter.empty_world _ _
              ltac:(vm_compute; reflexivity))
    as (Hin & Hlow & _).
  split; [exact Hin | exact Hlow].
Defined.

(** The variant of a file does not enter the path of its preset: two
    instruments of the same library, with the same program and name and
    both melodic or both percussion, are written to the same preset
    document, whatever their variants and their zones. *)
Theorem variants_share_a_path (cfg : Converter.Config)
    (zones1 zones2 : list Converter.Zone) (gm : Z) (instrumentName libraryName : string)
    (variant1 variant2 : Z) (w1 w2 w1' w2' : Converter.World)
    (entry1 entry2 : Converter.Entry) :
  Converter.convertInstrument cfg (Some zones1) gm instrumentName libraryName variant1 w1
  = (Converter.Returned (Some entry1), w1') ->
  Converter.convertInstrument cfg (Some zones2) gm instrumentName libraryName variant2 w2
  = (Converter.Returned (Some entry2), w2') ->
  Converter.isPercussion zones1 = Converter.isPercussion zones2 ->
  Converter.e_path entry1 = Converter.e_path entry2
  /\ Converter.e_library entry1 = Converter.e_library entry2
  /\ (Converter.DRY_RUN cfg = false ->
      exists path preset1 preset2,
        last (Converter.disk w1')
        = Some (Converter.WriteFile path (Converter.PresetJson preset1))
        /\ last (Converter.disk w2')
           = Some (Converter.WriteFile path (Converter.PresetJson preset2))
        /\ Converter.variant preset1 = variant1
        /\ Converter.variant preset2 = variant2).
Proof.
  intros H1 H2 Hsame.
  apply convertInstrument_spec in H1, H2.
  destruct H1 as (z1 & czs1 & [= <-] & _ & _ & _ & -> & _ & Hdisk1).
  destruct H2 as (z2 & czs2 & [= <-] & _ & _ & _ & -> & _ & Hdisk2).
  cbn [Converter.summaryEntry Converter.e_path Converter.e_library].
  rewrite Hsame. repeat apply conj; try reflexivity.
  intros Hreal. rewrite Hreal in Hdisk1, Hdisk2.
  destruct Hdisk1 as (ops1 & _ & ->). destruct Hdisk2 as (ops2 & _ & ->).
  rewrite Hsame. do 3 eexists.
  change (?a :: ?l ++ [?x]) with ((a :: l) ++ [x]).
  rewrite !app_assoc, !last_snoc.
  repeat apply conj; reflexivity.
Qed.

(** Two variants of the piano of one library. *)
Lemma variants_share_a_path_witness :
  exists entry1 w1 entry2 w2,
    Converter.convertInstrument Samples.real_run (Some [Samples.piano_zone])
      0 "Acoustic Grand Piano" "FluidR3_GM" 0 Converter.empty_world
    = (Converter.Returned (Some entry1), w1)
    /\ Converter.convertInstrument Samples.real_run (Some [Samples.raw_zone])
         0 "Acoustic Grand Piano" "FluidR3_GM" 1 w1
       = (Converter.Returned (Some entry2), w2)
    /\ Converter.e_path entry1 = Converter.e_path entry2.
Proof.
  do 4 eexists. split; [vm_compute; reflexivity|].
  match goal with
  | |- ?c2 = _ /\ _ =>
      let c1 := constr:(Converter.convertInstrument Samples.real_run
                          (Some [Samples.piano_zone])
                          0 "Acoustic Grand Piano" "FluidR3_GM" 0
                          Converter.empty_world) in
      let v1 := eval vm_compute in c1 in
      let v2 := eval vm_compute in c2 in
      assert (H1 : c1 = v1) by (vm_compute; reflexivity);
      assert (H2 : c2 = v2) by (vm_compute; reflexivity)
  end.
  split; [exact H2|].
  exact (proj1 (variants_share_a_path _ _ _ _ _ _ _ _ _ _ _ _ _ _ H1 H2 eq_refl)).
Defined.

Section Walk.
Import Indexer Index.

(** What the walk finds is called [preset.json]. *)
Lemma found_is_named (n : FsNode) :
  forall dir rel c,
    In (rel, c) (findPresetFiles dir n) -> List.last rel "" = "preset.json".
Proof.
  induction n as [c0|d IHd] using FsNode_induction; intros dir rel c Hin; [destruct Hin|].
  revert Hin. induction IHd as [|[nm x] d Hx _ IH]; intros Hin; [destruct Hin|].
  rewrite findPresetFiles_cons in Hin.
  apply in_app_or in Hin as [Hin | Hin]; [|exact (IH Hin)].
  destruct x as [c0|sub]; [|exact (Hx _ _ _ Hin)].
  destruct (String.eqb_spec nm "preset.json") as [-> | _]; [|destruct Hin].
  destruct Hin as [[= <- <-] | []]. apply List.last_last.
Qed.

(** Every file called [preset.json] is found. *)
Lemma there_is_found (n : FsNode) :
  forall dir rel c d,
    n = Dir d -> lookup_path rel d = Some (File c) ->
    List.last rel "" = "preset.json" ->
    In (dir ++ rel, c) (findPresetFiles dir n).
Proof.
  induction n as [c0|e IHe] using FsNode_induction; intros dir rel c d [= <-] Hlook Hlast.
  destruct rel as [|nm rest]; [discriminate|].
  induction IHe as [|[n0 x] e Hx _ IH]; [destruct rest; discriminate|].
  rewrite findPresetFiles_cons. apply in_or_app.
  destruct rest as [|nm' rest].
  - cbn [lookup_path lookup_child] in Hlook. cbn in Hlast. subst nm.
    destruct (String.eqb_spec n0 "preset.json") as [-> | Hne].
    + injection Hlook as ->. left. left. reflexivity.
    + right. apply IH. cbn [lookup_path]. exact Hlook.
  - rewrite lookup_path_cons in Hlook by discriminate. cbn [lookup_child] in Hlook.
    destruct (String.eqb_spec n0 nm) as [-> | Hne].
    + destruct x as [c0|sub]; [discriminate|]. left.
      change (dir ++ nm :: nm' :: rest) with (dir ++ [nm] ++ nm' :: rest).
      rewrite app_assoc. eapply Hx; [reflexivity | exact Hlook | exact Hlast].
    + right. apply IH. rewrite lookup_path_cons by discriminate. exact Hlook.
Qed.

End Walk.

(** The walk of a library finds the files called [preset.json] at any
    depth, all of them and nothing else: a path is in the result exactly
    when it leads to a file of the tree and ends in that name. *)
Theorem findPresetFiles_finds (entries : list (string * Indexer.FsNode))
    (rel : list string) (c : Indexer.FileData) :
  Indexer.wf entries = true ->
  (In (rel, c) (Indexer.findPresetFiles [] (Indexer.Dir entries))
   <-> Indexer.lookup_path rel entries = Some (Indexer.File c)
       /\ List.last rel "" = "preset.json").
Proof.
  intros Hwf. split.
  - intros Hin. split.
    + destruct (found_is_there _ _ _ _ Hwf Hin) as (rel' & -> & _ & _ & Hlook). exact Hlook.
    + eapply found_is_named, Hin.
  - intros [Hlook Hlast].
    exact (there_is_found (Indexer.Dir entries) [] rel c entries eq_refl Hlook Hlast).
Qed.

(** A preset of the sample tree, three directories deep. *)
Lemma findPresetFiles_finds_witness :
  Indexer.wf Samples.library_tree = true
  /\ exists c,
       In (["_shared"; "synths"; "Sine"; "preset.json"], c)
         (Indexer.findPresetFiles [] (Indexer.Dir Samples.library_tree)).
Proof.
  split; [reflexivity|]. eexists.
  refine (proj2 (findPresetFiles_finds Samples.library_tree
                   ["_shared"; "synths"; "Sine"; "preset.json"] _ eq_refl) _).
  split; [vm_compute; reflexivity | reflexivity].
Defined.

(** ** The zone statistics of an index entry *)

Section Statistics.
Import Indexer Index.

(** [countZones] folds [count_zone] over the zones of the sampler nodes. *)
Lemma countZones_fold (n : Node) :
  forall st, countZones n st = fold_left count_zone (samplerZones n) st.
Proof.
  induction n as [zones|children IH|] using Node_induction; intros st.
  - destruct zones; reflexivity.
  - destruct children as [l|]; [|reflexivity]. simpl in IH.
    cbn [countZones samplerZones]. revert st.
    induction IH as [|[child|] rest Hchild _ IHrest]; intros st.
    + reflexivity.
    + rewrite fold_left_app, <- Hchild. apply IHrest.
    + apply IHrest.
  - reflexivity.
Qed.

Lemma fold_count_zone (zones : list Zone) (st : Stats) :
  let st' := fold_left count_zone zones st in
  zoneCount st' = zoneCount st + Z.of_nat (length zones)
  /\ keyRangeLow st' <= keyRangeLow st
  /\ keyRangeHigh st <= keyRangeHigh st'
  /\ Forall (fun z => match keyRange z with
                      | Some (low, high) => keyRangeLow st' <= low /\ high <= keyRangeHigh st'
                      | None => True
                      end) zones
  /\ (keyRangeLow st' = keyRangeLow st
      \/ exists z high, In z zones /\ keyRange z = Some (keyRangeLow st', high))
  /\ (keyRangeHigh st' = keyRangeHigh st
      \/ exists z low, In z zones /\ keyRange z = Some (low, keyRangeHigh st')).
Proof.
  revert st. induction zones as [|zone zones IH]; intros st; cbv zeta.
  - cbn [fold_left length]. repeat apply conj; try lia; auto.
  - cbn [fold_left length]. specialize (IH (count_zone st zone)). cbv zeta in IH.
    destruct IH as (Hcount & Hlow & Hhigh & Hall & Hmin & Hmax).
    set (st' := fold_left count_zone zones (count_zone st zone)) in *.
    assert (Hstep : zoneCount (count_zone st zone) = zoneCount st + 1
                    /\ match keyRange zone with
                       | Some (low, high) =>
                           keyRangeLow (count_zone st zone) = Z.min (keyRangeLow st) low
                           /\ keyRangeHigh (count_zone st zone) = Z.max (keyRangeHigh st) high
                       | None =>
                           keyRangeLow (count_zone st zone) = keyRangeLow st
                           /\ keyRangeHigh (count_zone st zone) = keyRangeHigh st
                       end).
    { unfold count_zone. destruct (keyRange zone) as [[low high]|]; cbn; auto. }
    destruct Hstep as [Hc Hrange].
    destruct (keyRange zone) as [[low high]|] eqn:Hzone; destruct Hrange as [Hl Hh].
    + repeat apply conj; try lia.
      * constructor; [rewrite Hzone; lia | exact Hall].
      * destruct Hmin as [Heq | (z & h & Hin & Hz)].
        -- destruct (Z.min_spec (keyRangeLow st) low) as [[_ Hm] | [_ Hm]].
           ++ left. lia.
           ++ right. exists zone, high. split; [left; reflexivity|].
              rewrite Hzone. f_equal. f_equal. lia.
        -- right. exists z, h. split; [right; exact Hin | exact Hz].
      * destruct Hmax as [Heq | (z & l & Hin & Hz)].
        -- destruct (Z.max_spec (keyRangeHigh st) high) as [[_ Hm] | [_ Hm]].
           ++ right. exists zone, low. split; [left; reflexivity|].
              rewrite Hzone. f_equal. f_equal. lia.
           ++ left. lia.
        -- right. exists z, l. split; [right; exact Hin | exact Hz].
    + repeat apply conj; try lia.
      * constructor; [rewrite Hzone; exact I | exact Hall].
      * destruct Hmin as [Heq | (z & h & Hin & Hz)]; [left; lia|].
        right. exists z, h. split; [right; exact Hin | exact Hz].
      * destruct Hmax as [Heq | (z & l & Hin & Hz)]; [left; lia|].
        right. exists z, l. split; [right; exact Hin | exact Hz].
Qed.

End Statistics.

(** The zone statistics of an entry the Indexer builds: the zones counted
    are those of the sampler nodes reached through composite nodes; a
    preset without such a zone gets neither [zoneCount] nor [keyRange];
    otherwise the key range covers that of every zone, and its low end is
    127 or the low end of a zone, its high end 0 or the high end of a
    zone. *)
Theorem entry_zone_statistics (rel : list string) (data : Indexer.PresetData)
    (entry : Index.PresetEntry) :
  Indexer.buildPresetEntry rel (Indexer.PresetFile data) = Some entry ->
  let zones := Indexer.zonesOf data in
  match zones with
  | [] => Index.pe_zoneCount entry = None /\ Index.pe_keyRange entry = None
  | _ =>
      Index.pe_zoneCount entry = Some (Z.of_nat (length zones))
      /\ exists low high,
           Index.pe_keyRange entry = Some (low, high)
           /\ low <= 127 /\ 0 <= high
           /\ Forall (fun z => match Indexer.keyRange z with
                               | Some (l, h) => low <= l /\ h <= high
                               | None => True
                               end) zones
           /\ (low = 127
               \/ exists z h, In z zones /\ Indexer.keyRange z = Some (low, h))
           /\ (high = 0
               \/ exists z l, In z zones /\ Indexer.keyRange z = Some (l, high))
  end.
Proof.
  intros Hbuild zones. unfold Indexer.buildPresetEntry in Hbuild.
  cbn [Indexer.parse] in Hbuild. injection Hbuild as <-.
  cbn [Index.pe_zoneCount Index.pe_keyRange].
  set (st0 := {| Indexer.zoneCount := 0; Indexer.keyRangeLow := 127;
                 Indexer.keyRangeHigh := 0 |}).
  assert (Hst : match Indexer.node data, Indexer.graph data with
                | Some n, _ => Indexer.countZones n st0
                | None, Some g => Indexer.countZones g st0
                | None, None => st0
                end = fold_left Indexer.count_zone zones st0).
  { subst zones. unfold Indexer.zonesOf.
    destruct (Indexer.node data) as [n|]; [apply countZones_fold|].
    destruct (Indexer.graph data) as [g|]; [apply countZones_fold | reflexivity]. }
  rewrite Hst. pose proof (fold_count_zone zones st0) as H. cbv zeta in H.
  destruct H as (Hcount & Hlow & Hhigh & Hall & Hmin & Hmax).
  change (Indexer.zoneCount st0) with 0 in Hcount.
  change (Indexer.keyRangeLow st0) with 127 in *.
  change (Indexer.keyRangeHigh st0) with 0 in *.
  destruct zones as [|z zs] eqn:Hzones.
  - split; reflexivity.
  - rewrite <- Hzones in *.
    assert (Hpos : (0 <? Indexer.zoneCount (fold_left Indexer.count_zone zones st0)) = true).
    { apply Z.ltb_lt. rewrite Hcount, Hzones. cbn [length]. lia. }
    rewrite Hpos. split; [f_equal; lia|].
    eexists. eexists. split; [reflexivity|]. repeat apply conj; assumption.
Qed.

(** A composite of two samplers, with three zones in all. *)
Lemma entry_zone_statistics_witness :
  exists entry,
    Indexer.buildPresetEntry ["Layered"; "preset.json"] (Indexer.PresetFile Samples.layered)
    = Some entry
    /\ Index.pe_zoneCount entry = Some 3.
Proof.
  eexists. split; [vm_compute; reflexivity|].
  refine (proj1 (entry_zone_statistics ["Layered"; "preset.json"] Samples.layered _ _)).
  vm_compute. reflexivity.
Defined.

(** ** What the Indexer changes in the tree *)

Section Frame.
Import Indexer Index.

Variable localeCompare : string -> string -> Z.

Local Abbreviation scan := (Indexer.scan localeCompare).
Local Abbreviation library_step := (Indexer.library_step localeCompare).
Local Abbreviation library_loop := (Indexer.library_loop localeCompare).
Local Abbreviation scanned := (Indexer.scanned localeCompare).
Local Abbreviation placed := (Indexer.placed localeCompare).

(** Writing a file changes what one path leads to. *)
Lemma lookup_path_write (nm : string) (c : FileData) (d d' : Dirents) (p : list string) :
  write_child nm c d = Some d' -> p <> [nm] -> lookup_path p d' = lookup_path p d.
Proof.
  intros Hw Hp. destruct p as [|m rest]; [reflexivity|].
  destruct rest as [|m' rest].
  - cbn [lookup_path]. eapply write_child_lookup_ne; [exact Hw | congruence].
  - rewrite !lookup_path_cons by discriminate.
    destruct (String.eqb_spec nm m) as [<- | Hne].
    + rewrite (write_child_lookup_eq _ _ _ _ Hw).
      destruct (lookup_child nm d) as [[c0|e]|] eqn:Hold; try reflexivity.
      assert (Hfail : write_child nm c d = None) by (apply write_child_fails; eauto).
      congruence.
    + rewrite (write_child_lookup_ne _ _ _ _ _ Hw Hne). reflexivity.
Qed.

Lemma kind_replace (lib : string) (e e' t : Dirents) (p : list string) :
  lookup_child lib t = Some (Dir e) ->
  (forall q, q <> ["index.json"] -> lookup_path q e' = lookup_path q e) ->
  p <> [lib; "index.json"] ->
  kind (lookup_path p (replace_child lib (Dir e') t)) = kind (lookup_path p t).
Proof.
  intros Hlib Hsame Hp. destruct p as [|m rest]; [reflexivity|].
  destruct (String.eqb_spec lib m) as [<- | Hne].
  - destruct rest as [|m' rest].
    + cbn [lookup_path]. rewrite (lookup_replace_eq _ _ _ _ Hlib), Hlib. reflexivity.
    + rewrite !lookup_path_cons by discriminate.
      rewrite (lookup_replace_eq _ _ _ _ Hlib), Hlib.
      rewrite Hsame; [reflexivity|]. congruence.
  - destruct rest as [|m' rest].
    + cbn [lookup_path]. rewrite lookup_replace_ne by exact Hne. reflexivity.
    + rewrite !lookup_path_cons by discriminate.
      rewrite lookup_replace_ne by exact Hne. reflexivity.
Qed.

Lemma step_kind (nm : string) (st st' : State) (p : list string) :
  library_step nm st = Some st' -> p <> [nm; "index.json"] ->
  kind (lookup_path p (tree st')) = kind (lookup_path p (tree st)).
Proof.
  intros Hstep Hp. apply library_step_inv in Hstep as (e & e' & Hlook & Hw & ->).
  cbn [tree]. apply (kind_replace nm e e'); [exact Hlook | | exact Hp].
  intros q Hq. eapply lookup_path_write; eassumption.
Qed.

Lemma loop_kind (libs : list string) (st st' : State) (p : list string) :
  library_loop libs st = Some st' ->
  (forall lib, In lib libs -> p <> [lib; "index.json"]) ->
  kind (lookup_path p (tree st')) = kind (lookup_path p (tree st)).
Proof.
  revert st. induction libs as [|nm libs IH]; intros st; cbn [Indexer.library_loop].
  - intros [= <-] _. reflexivity.
  - destruct (library_step nm st) as [st1|] eqn:Hstep; [|discriminate].
    intros Hloop Hp. rewrite (IH st1 Hloop) by (intros lib Hin; apply Hp; right; exact Hin).
    apply (step_kind nm); [exact Hstep | apply Hp; left; reflexivity].
Qed.

(** *** The index documents are where they were written *)

Lemma step_placed (nm : string) (st st' : State) :
  library_step nm st = Some st' -> placed st -> placed st'.
Proof.
  intros Hstep Hst. apply library_step_inv in Hstep as (e & e' & Hlook & Hw & ->).
  intros dir doc. cbn [written tree]. intros Hin.
  apply in_app_or in Hin as [Hin | [[= <- <-] | []]].
  - destruct (Hst dir doc Hin) as (m & em & -> & Hm & Hdoc & Hindex).
    destruct (String.eqb_spec nm m) as [<- | Hne].
    + exists nm, e'. rewrite (lookup_replace_eq _ _ _ _ Hlook).
      rewrite Hlook in Hm. injection Hm as <-.
      rewrite (scan_write localeCompare _ _ _ Hw).
      repeat apply conj; try reflexivity; [exact Hdoc|].
      rewrite Hdoc. eapply write_child_lookup_eq, Hw.
    + exists m, em. rewrite lookup_replace_ne by exact Hne. auto.
  - exists nm, e'. rewrite (lookup_replace_eq _ _ _ _ Hlook).
    rewrite (scan_write localeCompare _ _ _ Hw).
    repeat apply conj; try reflexivity. eapply write_child_lookup_eq, Hw.
Qed.

Lemma loop_placed (libs : list string) (st st' : State) :
  library_loop libs st = Some st' -> placed st -> placed st'.
Proof.
  revert st. induction libs as [|nm libs IH]; intros st; cbn [Indexer.library_loop].
  - intros [= <-] Hst. exact Hst.
  - destruct (library_step nm st) as [st1|] eqn:Hstep; [|discriminate].
    intros Hloop Hst. apply (IH st1 Hloop). eapply step_placed; eassumption.
Qed.

End Frame.

(** The tree the Indexer leaves: every index document it wrote is the file
    [index.json] of its directory, and every other path leads to what it
    led to before, a file with the same content or a directory. *)
Theorem indexer_changes_only_indexes (localeCompare : string -> string -> Z)
    (root : list (string * Indexer.FsNode)) (st : Indexer.State) :
  Indexer.main localeCompare root = Some st ->
  (forall dir doc,
      In (dir, doc) (Indexer.written st) ->
      Indexer.lookup_path (dir ++ ["index.json"]) (Indexer.tree st)
      = Some (Indexer.File (Indexer.IndexFile doc)))
  /\ (forall p,
        ~ Indexer.index_path (Indexer.topLevel root) p ->
        Indexer.kind (Indexer.lookup_path p (Indexer.tree st))
        = Indexer.kind (Indexer.lookup_path p root)).
Proof.
  unfold Indexer.main.
  set (st0 := {| Indexer.tree := root; Indexer.written := []; Indexer.rootEntries := [];
                 Indexer.totalPresets := 0; Indexer.totalErrors := 0 |}).
  destruct (Indexer.library_loop localeCompare (Indexer.topLevel root) st0)
    as [st1|] eqn:Hloop; [|discriminate].
  destruct (Indexer.write_child "index.json" _ (Indexer.tree st1)) as [T|] eqn:Hroot;
    [|discriminate].
  intros [= <-]. cbn [Indexer.tree Indexer.written]. split.
  - intros dir doc Hin. apply in_app_or in Hin as [Hin | [[= <- <-] | []]].
    + assert (Hplaced : Indexer.placed localeCompare st1).
      { eapply loop_placed; [exact Hloop|]. intros d x []. }
      destruct (Hplaced dir doc Hin) as (nm & e & -> & Hnm & _ & Hindex).
      cbn [app]. rewrite lookup_path_cons by discriminate.
      assert (Hne : "index.json" <> nm).
      { intros <-.
        assert (Hfail : Indexer.write_child "index.json"
                          (Indexer.IndexFile (Index.rootIndex (Indexer.rootEntries st1)))
                          (Indexer.tree st1) = None)
          by (apply write_child_fails; eauto).
        congruence. }
      rewrite (write_child_lookup_ne _ _ _ _ _ Hroot Hne), Hnm.
      cbn [Indexer.lookup_path]. exact Hindex.
    + cbn [app Indexer.lookup_path]. eapply write_child_lookup_eq, Hroot.
  - intros p Hp.
    rewrite (lookup_path_write _ _ _ _ p Hroot)
      by (intros ->; apply Hp; left; reflexivity).
    apply (loop_kind localeCompare _ st0 st1 p Hloop).
    intros lib Hin ->. apply Hp. right. exists lib. auto.
Qed.

(** The sample tree: every index document is in its file afterwards. *)
Lemma indexer_changes_only_indexes_witness :
  exists st,
    Indexer.main Indexer.codeUnitCompare Samples.library_tree = Some st
    /\ forall dir doc,
         In (dir, doc) (Indexer.written st) ->
         Indexer.lookup_path (dir ++ ["index.json"]) (Indexer.tree st)
         = Some (Indexer.File (Indexer.IndexFile doc)).
Proof.
  eexists. split; [vm_compute; reflexivity|].
  refine (proj1 (indexer_changes_only_indexes Indexer.codeUnitCompare
                   Samples.library_tree _ _)).
  vm_compute. reflexivity.
Defined.

(** ** The counters of the Indexer *)

Section IndexerCounts.
Import Indexer Index.

Variable localeCompare : string -> string -> Z.

Local Abbreviation scan := (Indexer.scan localeCompare).
Local Abbreviation library_step := (Indexer.library_step localeCompare).
Local Abbreviation library_loop := (Indexer.library_loop localeCompare).
Local Abbreviation scanned := (Indexer.scanned localeCompare).

Local Abbreviation result := (Indexer.result localeCompare).

Lemma loop_results (libs : list string) (st st' : State) :
  library_loop libs st = Some st' ->
  written st' = written st
                ++ map (fun nm => ([nm], libraryIndex nm (fst (result (tree st) nm)))) libs
  /\ rootEntries st' = rootEntries st
                       ++ map (fun nm => libraryRef nm (fst (result (tree st) nm))) libs
  /\ totalPresets st'
     = totalPresets st
       + total (map (fun nm => Z.of_nat (length (fst (result (tree st) nm)))) libs)
  /\ totalErrors st' = totalErrors st + total (map (fun nm => snd (result (tree st) nm)) libs)
  /\ Forall (fun nm => exists e, lookup_child nm (tree st) = Some (Dir e)) libs.
Proof.
  revert st. induction libs as [|nm libs IH]; intros st; cbn [Indexer.library_loop].
  - intros [= <-]. cbn [map total fold_right]. rewrite !app_nil_r.
    repeat apply conj; try lia; auto.
  - destruct (library_step nm st) as [st1|] eqn:Hstep; [|discriminate].
    intros Hloop. destruct (IH st1 Hloop) as (Hw & Hr & Hp & He & Hdirs).
    assert (Hsame : forall m, result (tree st1) m = result (tree st) m).
    { intros m. unfold Indexer.result.
      rewrite (step_scanned localeCompare _ _ _ Hstep). reflexivity. }
    assert (Hlibs : forall m, (exists e, lookup_child m (tree st1) = Some (Dir e))
                              -> exists e, lookup_child m (tree st) = Some (Dir e)).
    { intros m [e He1]. pose proof (step_scanned localeCompare _ _ _ Hstep m) as Hs.
      unfold Indexer.scanned in Hs. rewrite He1 in Hs.
      destruct (lookup_child m (tree st)) as [[c|e0]|]; try discriminate. eauto. }
    pose proof Hstep as Hinv.
    apply library_step_inv in Hinv as (e & e' & Hlook & _ & Hst1).
    assert (Hnm : result (tree st) nm = scan e).
    { unfold Indexer.result, Indexer.scanned. rewrite Hlook. reflexivity. }
    rewrite Hw, Hr, Hp, He. subst st1.
    cbn [written rootEntries totalPresets totalErrors map total fold_right].
    rewrite Hnm, <- !app_assoc. cbn [app].
    rewrite (map_ext _ _ (fun m => f_equal (fun x => ([m], libraryIndex m (fst x))) (Hsame m))).
    rewrite (map_ext _ _ (fun m => f_equal (fun x => libraryRef m (fst x)) (Hsame m))).
    rewrite (map_ext _ _ (fun m => f_equal (fun x => Z.of_nat (length (fst x))) (Hsame m))).
    rewrite (map_ext _ _ (fun m => f_equal snd (Hsame m))).
    fold (total (map (fun m => Z.of_nat (length (fst (result (tree st) m)))) libs)).
    fold (total (map (fun m => snd (result (tree st) m)) libs)).
    repeat apply conj; try reflexivity; try lia.
    constructor; [eauto|]. eapply List.Forall_impl; [|exact Hdirs]. exact Hlibs.
Qed.

End IndexerCounts.

(** ** The entries of a library index *)

Section Sorting.
Import Indexer Index.

Variable localeCompare : string -> string -> Z.

Local Abbreviation scan := (Indexer.scan localeCompare).
Local Abbreviation result := (Indexer.result localeCompare).
Local Abbreviation compareEntries := (Indexer.compareEntries localeCompare).
Local Abbreviation sortEntries := (Indexer.sortEntries localeCompare).

Lemma insert_by_permutation {A} (lt : A -> A -> bool) (x : A) (l : list A) :
  Permutation (Js.insert_by lt x l) (x :: l).
Proof.
  induction l as [|y l IH]; cbn [Js.insert_by]; [reflexivity|].
  destruct (lt y x); [|reflexivity].
  rewrite IH. apply perm_swap.
Qed.

Lemma sort_by_permutation {A} (lt : A -> A -> bool) (l : list A) :
  Permutation (Js.sort_by lt l) l.
Proof.
  unfold Js.sort_by. induction l as [|x l IH]; cbn [fold_right]; [reflexivity|].
  rewrite insert_by_permutation, IH. reflexivity.
Qed.

Lemma buildEntries_counts (files : list (list string * FileData)) :
  Z.of_nat (length (fst (buildEntries files))) + snd (buildEntries files)
  = Z.of_nat (length files)
  /\ 0 <= snd (buildEntries files).
Proof.
  induction files as [|[rel c] files [IH1 IH2]]; [split; reflexivity|].
  cbn [buildEntries]. destruct (buildEntries files) as [es errors].
  cbn [fst snd] in *. destruct (buildPresetEntry rel c); cbn [fst snd length]; lia.
Qed.

Lemma result_of (root : Dirents) (nm : string) (e : Dirents) :
  lookup_child nm root = Some (Dir e) ->
  result root nm = (sortEntries (fst (buildEntries (presetFilesOf root nm))),
                    snd (buildEntries (presetFilesOf root nm))).
Proof.
  intros Hlook. unfold Indexer.result, Indexer.scanned, presetFilesOf. rewrite Hlook.
  cbn [default]. unfold Indexer.scan.
  destruct (buildEntries (findPresetFiles [] (Dir e))) as [es errors]. reflexivity.
Qed.

(** *** Sorting with a comparison that orders *)

Hypothesis Horders : orders localeCompare.

Lemma localeCompare_zero (a b : string) : localeCompare a b = 0 -> localeCompare b a = 0.
Proof.
  destruct Horders as [Hanti _]. intros H.
  pose proof (Hanti a b). pose proof (Hanti b a). lia.
Qed.

Lemma compareEntries_antisym (a b : PresetEntry) :
  0 <= compareEntries a b -> compareEntries b a <= 0.
Proof.
  destruct Horders as [Hanti _]. unfold Indexer.compareEntries.
  pose proof (Hanti (pe_category a) (pe_category b)).
  pose proof (Hanti (pe_category b) (pe_category a)).
  pose proof (Hanti (default "" (pe_name a)) (default "" (pe_name b))).
  pose proof (Hanti (default "" (pe_name b)) (default "" (pe_name a))).
  destruct (Z.eqb_spec (localeCompare (pe_category a) (pe_category b)) 0);
    destruct (Z.eqb_spec (localeCompare (pe_category b) (pe_category a)) 0);
    cbn [negb]; lia.
Qed.

Lemma compareEntries_trans (a b c : PresetEntry) :
  compareEntries a b <= 0 -> compareEntries b c <= 0 -> compareEntries a c <= 0.
Proof.
  destruct Horders as [Hanti Htrans]. unfold Indexer.compareEntries.
  set (cat x y := localeCompare (pe_category x) (pe_category y)).
  set (nam x y := localeCompare (default "" (pe_name x)) (default "" (pe_name y))).
  fold (cat a b) (cat b c) (cat a c) (nam a b) (nam b c) (nam a c).
  pose proof (Hanti (pe_category a) (pe_category b)) as Hab.
  pose proof (Hanti (pe_category b) (pe_category a)) as Hba.
  pose proof (Hanti (pe_category b) (pe_category c)) as Hbc.
  pose proof (Hanti (pe_category c) (pe_category b)) as Hcb.
  pose proof (Hanti (pe_category a) (pe_category c)) as Hac.
  pose proof (Hanti (pe_category c) (pe_category a)) as Hca.
  fold (cat a b) (cat b a) in Hab, Hba. fold (cat b c) (cat c b) in Hbc, Hcb.
  fold (cat a c) (cat c a) in Hac, Hca.
  pose proof (Htrans (pe_category a) (pe_category b) (pe_category c)) as Tabc.
  pose proof (Htrans (pe_category c) (pe_category a) (pe_category b)) as Tcab.
  pose proof (Htrans (pe_category b) (pe_category c) (pe_category a)) as Tbca.
  fold (cat a b) (cat b c) (cat a c) in Tabc.
  fold (cat c a) (cat a b) (cat c b) in Tcab.
  fold (cat b c) (cat c a) (cat b a) in Tbca.
  pose proof (Htrans (default "" (pe_name a)) (default "" (pe_name b))
                (default "" (pe_name c))) as Tn.
  fold (nam a b) (nam b c) (nam a c) in Tn.
  destruct (Z.eqb_spec (cat a b) 0); destruct (Z.eqb_spec (cat b c) 0);
    destruct (Z.eqb_spec (cat a c) 0); cbn [negb]; intros; lia.
Qed.

Lemma insert_by_sorted (x : PresetEntry) (l : list PresetEntry) :
  Sorted (fun a b => compareEntries a b <= 0) l ->
  Sorted (fun a b => compareEntries a b <= 0)
    (Js.insert_by (fun a b => compareEntries a b <? 0) x l).
Proof.
  induction l as [|y l IH]; intros Hl; cbn [Js.insert_by].
  - repeat constructor.
  - destruct (compareEntries y x <? 0) eqn:Hyx.
    + apply Z.ltb_lt in Hyx. apply Sorted_inv in Hl as [Hl Hhd].
      constructor; [apply IH, Hl|].
      destruct l as [|z l]; cbn [Js.insert_by].
      * constructor. lia.
      * destruct (compareEntries z x <? 0); constructor; [|lia].
        apply HdRel_inv in Hhd. exact Hhd.
    + apply Z.ltb_ge in Hyx. constructor; [exact Hl|]. constructor.
      apply compareEntries_antisym. lia.
Qed.

Lemma sortEntries_sorted (l : list PresetEntry) :
  StronglySorted (fun a b => compareEntries a b <= 0) (sortEntries l).
Proof.
  apply Sorted_StronglySorted.
  - intros a b c. apply compareEntries_trans.
  - unfold Indexer.sortEntries, Js.sort_by.
    induction l as [|x l IH]; cbn [fold_right]; [constructor|].
    apply insert_by_sorted, IH.
Qed.

End Sorting.

Section MainResults.
Import Indexer Index.

Variable localeCompare : string -> string -> Z.

Local Abbreviation result := (Indexer.result localeCompare).

(** A run of [main]: what it wrote, from the tree it started from. *)
Lemma main_results (root : Dirents) (st : State) :
  main localeCompare root = Some st ->
  written st
  = map (fun nm => ([nm], libraryIndex nm (fst (result root nm)))) (topLevel root)
    ++ [([], rootIndex (rootEntries st))]
  /\ rootEntries st = map (fun nm => libraryRef nm (fst (result root nm))) (topLevel root)
  /\ totalPresets st
     = total (map (fun nm => Z.of_nat (length (fst (result root nm)))) (topLevel root))
  /\ totalErrors st = total (map (fun nm => snd (result root nm)) (topLevel root))
  /\ Forall (fun nm => exists e, lookup_child nm root = Some (Dir e)) (topLevel root).
Proof.
  unfold main.
  set (st0 := {| tree := root; written := []; rootEntries := [];
                 totalPresets := 0; totalErrors := 0 |}).
  destruct (library_loop localeCompare (topLevel root) st0) as [st1|] eqn:Hloop;
    [|discriminate].
  destruct (write_child "index.json" _ (tree st1)) as [T|]; [|discriminate].
  intros [= <-]. cbn [written rootEntries totalPresets totalErrors].
  destruct (loop_results localeCompare _ _ _ Hloop) as (Hw & Hr & Hp & He & Hdirs).
  cbn [st0 written rootEntries totalPresets totalErrors tree app] in *.
  rewrite Hw, Hr, Hp, He. repeat apply conj; try reflexivity; try lia. exact Hdirs.
Qed.

End MainResults.

(** The counters of the Indexer: the root index lists the libraries in the
    order of their names, each with the number of its entries; every file
    called [preset.json] below a library gives an entry or counts as an
    error. *)
Theorem indexer_counts (localeCompare : string -> string -> Z)
    (root : list (string * Indexer.FsNode)) (st : Indexer.State) :
  Indexer.main localeCompare root = Some st ->
  map fst (Indexer.written st) = map (fun nm => [nm]) (Indexer.topLevel root) ++ [[]]
  /\ map Index.lr_path (Indexer.rootEntries st)
     = map (fun nm => nm +:+ "/index.json") (Indexer.topLevel root)
  /\ Indexer.totalPresets st = Index.total (map Index.lr_presetCount (Indexer.rootEntries st))
  /\ 0 <= Indexer.totalErrors st
  /\ Indexer.totalPresets st + Indexer.totalErrors st
     = Z.of_nat (length (flat_map (Indexer.presetFilesOf root) (Indexer.topLevel root))).
Proof.
  intros Hmain.
  destruct (main_results localeCompare root st Hmain) as (Hw & Hr & Hp & He & Hdirs).
  repeat apply conj.
  - rewrite Hw, map_app, map_map. reflexivity.
  - rewrite Hr, map_map. reflexivity.
  - rewrite Hp, Hr, map_map. reflexivity.
  - rewrite He. clear -Hdirs. induction Hdirs as [|nm libs [e Hnm] _ IH]; [cbn; lia|].
    cbn [map Index.total fold_right].
    fold (Index.total (map (fun nm => snd (Indexer.result localeCompare root nm)) libs)).
    rewrite (result_of localeCompare root nm e Hnm). cbn [snd].
    pose proof (buildEntries_counts (Indexer.presetFilesOf root nm)). lia.
  - rewrite Hp, He. clear -Hdirs. induction Hdirs as [|nm libs [e Hnm] _ IH]; [reflexivity|].
    cbn [map Index.total fold_right flat_map]. rewrite length_app.
    fold (Index.total (map (fun nm => snd (Indexer.result localeCompare root nm)) libs)).
    fold (Index.total
            (map (fun nm => Z.of_nat (length (fst (Indexer.result localeCompare root nm))))
               libs)).
    rewrite (result_of localeCompare root nm e Hnm). cbn [fst snd].
    unfold Indexer.sortEntries. rewrite (Permutation_length (sort_by_permutation _ _)).
    pose proof (buildEntries_counts (Indexer.presetFilesOf root nm)). lia.
Qed.

(** The sample tree: two presets read, one that cannot be parsed. *)
Lemma indexer_counts_witness :
  exists st,
    Indexer.main Indexer.codeUnitCompare Samples.library_tree = Some st
    /\ map fst (Indexer.written st)
       = map (fun nm => [nm]) (Indexer.topLevel Samples.library_tree) ++ [[]].
Proof.
  eexists. split; [vm_compute; reflexivity|].
  refine (proj1 (indexer_counts Indexer.codeUnitCompare Samples.library_tree _ _)).
  vm_compute. reflexivity.
Defined.


(** ** The order of code units *)

Section CodeUnits.

Lemma compare_lt_trans (a b c : string) :
  String.compare a b = Lt -> String.compare b c = Lt -> String.compare a c = Lt.
Proof.
  intros Hab Hbc. apply String_as_OT.cmp_lt.
  apply (String_as_OT.lt_trans a b c); apply String_as_OT.cmp_lt; assumption.
Qed.

Lemma compare_gt_lt (a b : string) : String.compare a b = Gt <-> String.compare b a = Lt.
Proof.
  rewrite (String.compare_antisym a b).
  destruct (String.compare b a); cbn; split; congruence.
Qed.

Lemma ltb_irrefl (a : string) : String.ltb a a = false.
Proof.
  unfold String.ltb.
  assert (H : String.compare a a = Eq) by (apply String_as_OT.cmp_eq; reflexivity).
  rewrite H. reflexivity.
Qed.

Lemma ltb_trans (a b c : string) :
  String.ltb a b = true -> String.ltb b c = true -> String.ltb a c = true.
Proof.
  unfold String.ltb. intros Hab Hbc.
  destruct (String.compare a b) eqn:H1; try discriminate.
  destruct (String.compare b c) eqn:H2; try discriminate.
  rewrite (compare_lt_trans a b c H1 H2). reflexivity.
Qed.

Lemma ltb_total (a b : string) : String.ltb a b = false -> String.ltb b a = false -> a = b.
Proof.
  unfold String.ltb. intros Hab Hba.
  destruct (String.compare a b) eqn:H1; try discriminate.
  - apply String_as_OT.cmp_eq, H1.
  - apply compare_gt_lt in H1. rewrite H1 in Hba. discriminate.
Qed.

Lemma codeUnitCompare_orders : Indexer.orders Indexer.codeUnitCompare.
Proof.
  unfold Indexer.orders, Indexer.codeUnitCompare. split.
  - intros a b. rewrite (String.compare_antisym a b).
    destruct (String.compare b a); cbn; lia.
  - intros a b c Hab Hbc.
    destruct (String.compare a b) eqn:H1; try lia;
      destruct (String.compare b c) eqn:H2; try lia.
    + apply String_as_OT.cmp_eq in H1, H2. subst.
      assert (H : String.compare c c = Eq) by (apply String_as_OT.cmp_eq; reflexivity).
      rewrite H. lia.
    + apply String_as_OT.cmp_eq in H1. subst. rewrite H2. lia.
    + apply String_as_OT.cmp_eq in H2. subst. rewrite H1. lia.
    + rewrite (compare_lt_trans a b c H1 H2). lia.
Qed.

(** [names.sort()] puts the names in the order of their code units. *)
Lemma insert_strings_sorted (x : string) (l : list string) :
  Sorted (fun a b => String.ltb b a = false) l ->
  Sorted (fun a b => String.ltb b a = false) (Js.insert_by String.ltb x l).
Proof.
  induction l as [|y l IH]; intros Hl; cbn [Js.insert_by].
  - repeat constructor.
  - destruct (String.ltb y x) eqn:Hyx.
    + apply Sorted_inv in Hl as [Hl Hhd].
      assert (Hxy : String.ltb x y = false).
      { destruct (String.ltb x y) eqn:Hxy; [|reflexivity].
        pose proof (ltb_trans _ _ _ Hyx Hxy) as H. rewrite ltb_irrefl in H. discriminate. }
      constructor; [apply IH, Hl|].
      destruct l as [|z l]; cbn [Js.insert_by].
      * constructor. exact Hxy.
      * destruct (String.ltb z x); constructor; [|exact Hxy].
        apply HdRel_inv in Hhd. exact Hhd.
    + constructor; [exact Hl|]. constructor. exact Hyx.
Qed.

Lemma sort_strings_sorted (l : list string) :
  Sorted (fun a b => String.ltb b a = false) (Js.sort_strings l).
Proof.
  unfold Js.sort_strings, Js.sort_by.
  induction l as [|x l IH]; cbn [fold_right]; [constructor|].
  apply insert_strings_sorted, IH.
Qed.

End CodeUnits.

(** The libraries of a tree are its directories outside the skip list,
    whatever their names otherwise, in the order of the code units of
    their names. *)
Theorem topLevel_lists_the_libraries (root : list (string * Indexer.FsNode)) :
  (forall nm,
      In nm (Indexer.topLevel root)
      <-> (exists entries, In (nm, Indexer.Dir entries) root)
          /\ ~ In nm Indexer.SKIP_DIRS)
  /\ Sorted (fun a b => String.ltb b a = false) (Indexer.topLevel root)
  /\ length (Indexer.topLevel root) = length (List.filter Indexer.isLibrary root).
Proof.
  unfold Indexer.topLevel. repeat apply conj.
  - intros nm. unfold Js.sort_strings. rewrite In_sort_by, in_map_iff. split.
    + intros ([n x] & <- & Hin). apply filter_In in Hin as [Hin Hlib].
      unfold Indexer.isLibrary in Hlib. cbn [fst snd] in *.
      apply andb_true_iff in Hlib as [Hdir Hskip].
      destruct x as [c|entries]; [discriminate|]. split; [eauto|].
      intros Hin'. apply negb_true_iff in Hskip.
      assert (Hyes : existsb (String.eqb n) Indexer.SKIP_DIRS = true)
        by (apply existsb_exists; exists n; split; [exact Hin' | apply String.eqb_refl]).
      congruence.
    + intros [[entries Hin] Hskip]. exists (nm, Indexer.Dir entries). split; [reflexivity|].
      apply filter_In. split; [exact Hin|].
      unfold Indexer.isLibrary. cbn [fst snd Indexer.isDirectory andb].
      apply negb_true_iff. destruct (existsb _ Indexer.SKIP_DIRS) eqn:Hex; [|reflexivity].
      apply existsb_exists in Hex as (s & Hs & Heq). apply String.eqb_eq in Heq. subst s.
      contradiction.
  - apply sort_strings_sorted.
  - unfold Js.sort_strings. rewrite (Permutation_length (sort_by_permutation _ _)).
    apply length_map.
Qed.


(** ** The files of a source directory *)

Section Listing.
Import Converter.

Lemma insert_files_sorted (x : SrcFile) (l : list SrcFile) :
  Sorted (fun a b => String.ltb (f_name b) (f_name a) = false) l ->
  Sorted (fun a b => String.ltb (f_name b) (f_name a) = false)
    (Js.insert_by (fun a b => String.ltb (f_name a) (f_name b)) x l).
Proof.
  induction l as [|y l IH]; intros Hl; cbn [Js.insert_by].
  - repeat constructor.
  - destruct (String.ltb (f_name y) (f_name x)) eqn:Hyx.
    + apply Sorted_inv in Hl as [Hl Hhd].
      assert (Hxy : String.ltb (f_name x) (f_name y) = false).
      { destruct (String.ltb (f_name x) (f_name y)) eqn:Hxy; [|reflexivity].
        pose proof (ltb_trans _ _ _ Hyx Hxy) as H. rewrite ltb_irrefl in H. discriminate. }
      constructor; [apply IH, Hl|].
      destruct l as [|z l]; cbn [Js.insert_by].
      * constructor. exact Hxy.
      * destruct (String.ltb (f_name z) (f_name x)); constructor; [|exact Hxy].
        apply HdRel_inv in Hhd. exact Hhd.
    + constructor; [exact Hl|]. constructor. exact Hyx.
Qed.

End Listing.

(** The files the loops of [main] look at: those of the directory whose
    name ends in [.json], each once, in the order of the code units of
    their names. *)
Theorem listing_lists_the_json_files (dir : list Converter.SrcFile) :
  Permutation (Converter.listing dir)
    (List.filter (fun f => Js.endsWith (Converter.f_name f) ".json") dir)
  /\ (forall f, In f (Converter.listing dir)
                <-> In f dir /\ Js.endsWith (Converter.f_name f) ".json" = true)
  /\ Sorted (fun a b => String.ltb (Converter.f_name b) (Converter.f_name a) = false)
       (Converter.listing dir).
Proof.
  unfold Converter.listing. repeat apply conj.
  - apply sort_by_permutation.
  - intros f. rewrite In_sort_by. apply filter_In.
  - unfold Js.sort_by.
    induction (List.filter _ dir) as [|x l IH]; cbn [fold_right]; [constructor|].
    apply insert_files_sorted, IH.
Qed.

(** ** The directories of the percussion notes *)

Section PercussionNames.
Import Converter.

(** Over the MIDI range, the directory names of the percussion notes are
    all different. *)
Lemma percussion_names_differ :
  bool_decide (NoDup (map (fun a => safeName (percussion_name (Z.of_nat a))) (seq 0 128)))
  = true.
Proof. vm_compute. reflexivity. Qed.

Lemma percussion_names_kept :
  forallb (fun a => negb (String.eqb (safeName (percussion_name (Z.of_nat a))) ""))
          (seq 0 128) = true.
Proof. vm_compute. reflexivity. Qed.

Lemma append_cancel_l (s t t' : string) : s +:+ t = s +:+ t' -> t = t'.
Proof.
  induction s as [|c s IH]; [auto|]. rewrite !append_cons. intros [= H]. apply IH, H.
Qed.

Lemma join_last (parts : list string) (x y : string) :
  kept parts <> [] -> x <> "" -> y <> "" ->
  join (parts ++ [x]) = join (parts ++ [y]) -> x = y.
Proof.
  intros Hparts Hx Hy.
  rewrite !join_app; try assumption;
    try (rewrite kept_singleton by assumption; discriminate).
  rewrite !join_singleton by assumption.
  intros H. apply append_cancel_l, append_cancel_l in H. exact H.
Qed.

End PercussionNames.

(** Two percussion notes of the MIDI range never share the directory of
    their presets, although the separators of their names are dropped. *)
Theorem percussion_notes_have_their_own_directory (cfg : Converter.Config)
    (percussion : bool) (libraryName : string) (note1 note2 : Z) :
  libraryName <> "" ->
  0 <= note1 <= 127 -> 0 <= note2 <= 127 -> note1 <> note2 ->
  Converter.presetPath cfg percussion 128 (Converter.percussion_name note1) libraryName
  <> Converter.presetPath cfg percussion 128 (Converter.percussion_name note2) libraryName.
Proof.
  intros Hlib H1 H2 Hdiff Hpath. apply Hdiff.
  assert (Hname : Converter.safeName (Converter.percussion_name note1)
                  = Converter.safeName (Converter.percussion_name note2)).
  { pose proof percussion_names_kept as Hkept. rewrite forallb_forall in Hkept.
    assert (Hk : forall n, 0 <= n <= 127 ->
                           Converter.safeName (Converter.percussion_name n) <> "").
    { intros n Hn. specialize (Hkept (Z.to_nat n)). rewrite in_seq in Hkept.
      specialize (Hkept ltac:(lia)). rewrite Z2Nat.id in Hkept by lia.
      apply negb_true_iff, String.eqb_neq in Hkept. exact Hkept. }
    pose proof (safeLib_nonempty libraryName Hlib) as Hsafe.
    unfold Converter.presetPath in Hpath. destruct percussion.
    - apply (join_last [Converter.OUTPUT_DIR cfg; Converter.safeLib libraryName;
                        "percussion"; "individual"]); auto.
      unfold Converter.kept. cbn [List.filter].
      destruct (negb (String.eqb (Converter.OUTPUT_DIR cfg) "")); [discriminate|].
      apply String.eqb_neq in Hsafe. rewrite Hsafe. discriminate.
    - apply (join_last [Converter.OUTPUT_DIR cfg; Converter.safeLib libraryName;
                        "instruments"; Converter.categoryOf false 128]); auto.
      unfold Converter.kept. cbn [List.filter].
      destruct (negb (String.eqb (Converter.OUTPUT_DIR cfg) "")); [discriminate|].
      apply String.eqb_neq in Hsafe. rewrite Hsafe. discriminate. }
  pose proof percussion_names_differ as Hall. apply bool_decide_eq_true in Hall.
  assert (Hnat : Z.to_nat note1 = Z.to_nat note2); [|lia].
  apply (NoDup_map_injective _ _ _ _ Hall); [apply in_seq; lia | apply in_seq; lia|].
  rewrite !Z2Nat.id by lia. exact Hname.
Qed.

(** The two bass drums of General MIDI. *)
Lemma percussion_notes_have_their_own_directory_witness :
  35 <> 36
  /\ Converter.presetPath Samples.real_run true 128 (Converter.percussion_name 35) "Chaos"
     <> Converter.presetPath Samples.real_run true 128 (Converter.percussion_name 36) "Chaos".
Proof.
  split; [lia|].
  refine (percussion_notes_have_their_own_directory Samples.real_run true "Chaos" 35 36
            _ _ _ _); [discriminate | lia | lia | lia].
Defined.

(** ** The entries the Indexer writes *)

Section IndexerEntries.
Import Indexer Index.

Lemma buildPresetEntry_valid (rel : list string) (c : FileData) (entry : PresetEntry) :
  buildPresetEntry rel c = Some entry -> Indexer.index_entry_valid entry.
Proof.
  unfold buildPresetEntry. destruct (parse c) as [data|]; [|discriminate].
  intros [= <-]. unfold Indexer.index_entry_valid.
  cbn [pe_category pe_gmProgram pe_zoneCount pe_keyRange].
  set (st0 := {| zoneCount := 0; keyRangeLow := 127; keyRangeHigh := 0 |}).
  assert (Hst : match node data, graph data with
                | Some n, _ => countZones n st0
                | None, Some g => countZones g st0
                | None, None => st0
                end = fold_left count_zone (zonesOf data) st0).
  { unfold zonesOf.
    destruct (node data) as [n|]; [apply countZones_fold|].
    destruct (graph data) as [g|]; [apply countZones_fold | reflexivity]. }
  rewrite Hst. pose proof (fold_count_zone (zonesOf data) st0) as H. cbv zeta in H.
  destruct H as (Hcount & Hlow & Hhigh & _).
  change (keyRangeLow st0) with 127 in *. change (keyRangeHigh st0) with 0 in *.
  repeat apply conj.
  - destruct (category data) as [[|a s]|]; simpl; discriminate.
  - intros gm. destruct (gmProgram data) as [g|]; [|discriminate].
    destruct (g <? 128) eqn:Hg; [|discriminate]. intros [= <-]. apply Z.ltb_lt, Hg.
  - destruct (0 <? zoneCount (fold_left count_zone (zonesOf data) st0)) eqn:Hpos; [|exact I].
    apply Z.ltb_lt in Hpos. repeat apply conj; lia.
Qed.

End IndexerEntries.


